(** * crawl_wayback: a shallow embedding of [crawl_wayback.py]

    The crawler mirrors one Wayback Machine snapshot to local storage.
    This development embeds its functions as Rocq functions over
    [string] and states its specification as theorems.

    Modelling conventions.
    - A Python [str] and a Python [bytes] are both a [string]: a text is
      held as its UTF-8 encoding.  The character predicates ([\s], [\d],
      [\w], case folding) are the Python ones below code point 128; a
      character above is an ordinary one to them.
    - Library functions are embedded after CPython's sources
      ([urllib.parse], [posixpath], [genericpath], [re], [str] methods);
      [os.path] is the POSIX flavour.
    - An exception is an explicit error value ([exn]); how the process
      ends is an explicit [outcome].
    - The network is a function from addresses to responses, the file
      system an explicit value, and what the loop does is kept in a log
      of events.
    - The file system resolves a path lexically, where the operating
      system walks it: the two agree on a path without [.] and [..]
      components and without a trailing separator ([literal] below),
      and the statements about the disk are made for such paths.
    - [urlsplit] is embedded without its check of a non-ASCII host
      ([_checknetloc]), which returns at once on an ASCII one, and the
      character classes of [re] are the ASCII ones: a statement that
      depends on either is made for ASCII input. *)

From Stdlib Require Import String Ascii List Bool Arith ZArith Lia.
From Stdlib Require Import Permutation FunctionalExtensionality.
Import ListNotations.

Local Open Scope list_scope.
Local Open Scope string_scope.
Local Open Scope nat_scope.



(** ** Python [str] methods *)

Module Py.

(** [x or y] on optional strings: [None] and the empty string are falsy. *)
Definition truthy (o : option string) : bool :=
  match o with
  | Some (String _ _) => true
  | _ => false
  end.

Definition startswith (s p : string) : bool := String.prefix p s.

Fixpoint last_char (s : string) : option ascii :=
  match s with
  | EmptyString => None
  | String c EmptyString => Some c
  | String _ s' => last_char s'
  end.

(** [s.endswith(c)] for a one-character [c]. *)
Definition endswith_char (s : string) (c : ascii) : bool :=
  match last_char s with
  | Some d => Ascii.eqb d c
  | None => false
  end.

Fixpoint mem_char (c : ascii) (s : string) : bool :=
  match s with
  | EmptyString => false
  | String d s' => Ascii.eqb c d || mem_char c s'
  end.

(** [sub in s] *)
Fixpoint contains (s sub : string) : bool :=
  String.prefix sub s ||
  match s with
  | EmptyString => false
  | String _ s' => contains s' sub
  end.

Fixpoint drop (n : nat) (s : string) : string :=
  match n, s with
  | O, _ => s
  | S n', String _ s' => drop n' s'
  | S _, EmptyString => EmptyString
  end.

Fixpoint take (n : nat) (s : string) : string :=
  match n, s with
  | O, _ => EmptyString
  | S n', String c s' => String c (take n' s')
  | S _, EmptyString => EmptyString
  end.

(** A slice bound as Python resolves it: a negative index counts from
    the end, and the result is clipped to the string. *)
Definition bound (s : string) (i : Z) : nat :=
  if (i <? 0)%Z then Z.to_nat (Z.of_nat (String.length s) + i) else Z.to_nat i.

(** [s[:i]] and [s[i:]] *)
Definition slice_to (s : string) (i : Z) : string := take (bound s i) s.
Definition slice_from (s : string) (i : Z) : string := drop (bound s i) s.
(** [s[i:j]] *)
Definition slice (s : string) (i j : Z) : string :=
  take (bound s j - bound s i) (drop (bound s i) s).

(** Index of the first [c] in [s], positions counted from [i]; [-1] when
    there is none. *)
Fixpoint index_from (c : ascii) (s : string) (i : Z) : Z :=
  match s with
  | EmptyString => (-1)%Z
  | String d s' => if Ascii.eqb d c then i else index_from c s' (i + 1)
  end.

(** [s.find(c)] and [s.find(c, start)] for a one-character [c] and
    [start >= 0]. *)
Definition find (c : ascii) (s : string) : Z := index_from c s 0.
Definition find_from (c : ascii) (s : string) (start : Z) : Z :=
  index_from c (slice_from s start) start.

Fixpoint rindex_from (c : ascii) (s : string) (i : Z) (last : Z) : Z :=
  match s with
  | EmptyString => last
  | String d s' => rindex_from c s' (i + 1) (if Ascii.eqb d c then i else last)
  end.

(** [s.rfind(c)] *)
Definition rfind (c : ascii) (s : string) : Z := rindex_from c s 0 (-1).

(** [s.lstrip(chars)] *)
Fixpoint lstrip (chars : string) (s : string) : string :=
  match s with
  | EmptyString => EmptyString
  | String c s' => if mem_char c chars then lstrip chars s' else s
  end.

Fixpoint rev_string (s acc : string) : string :=
  match s with
  | EmptyString => acc
  | String c s' => rev_string s' (String c acc)
  end.

(** [s.rstrip(chars)] *)
Definition rstrip (chars : string) (s : string) : string :=
  rev_string (lstrip chars (rev_string s EmptyString)) EmptyString.

(** [str.isspace] on one character, for code points below 128. *)
Definition isspace (c : ascii) : bool :=
  let n := nat_of_ascii c in
  ((9 <=? n) && (n <=? 13)) || ((28 <=? n) && (n <=? 32)).

Fixpoint lstrip_ws (s : string) : string :=
  match s with
  | EmptyString => EmptyString
  | String c s' => if isspace c then lstrip_ws s' else s
  end.

(** [s.strip()] *)
Definition strip (s : string) : string :=
  rev_string (lstrip_ws (rev_string (lstrip_ws s) EmptyString)) EmptyString.

(** [s.split(c)] for a one-character separator [c]. *)
Fixpoint split_acc (c : ascii) (s : string) (cur : string) : list string :=
  match s with
  | EmptyString => [rev_string cur EmptyString]
  | String d s' =>
      if Ascii.eqb d c then rev_string cur EmptyString :: split_acc c s' EmptyString
      else split_acc c s' (String d cur)
  end.
Definition split (c : ascii) (s : string) : list string := split_acc c s EmptyString.

(** [sep.join(l)] *)
Fixpoint join (sep : string) (l : list string) : string :=
  match l with
  | [] => EmptyString
  | [x] => x
  | x :: l' => x ++ sep ++ join sep l'
  end.

(** [s.replace(old, new)]: the non-overlapping occurrences of [old],
    found from the left, are replaced.  With an empty [old] Python puts
    [new] between all characters and at both ends. *)
Fixpoint replace_scan (n : nat) (old new s : string) : string :=
  match n with
  | O => s
  | S n' =>
      match s with
      | EmptyString => EmptyString
      | String c s' =>
          if String.prefix old s
          then new ++ replace_scan n' old new (drop (String.length old) s)
          else String c (replace_scan n' old new s')
      end
  end.

Fixpoint intersperse (new s : string) : string :=
  match s with
  | EmptyString => new
  | String c s' => new ++ String c (intersperse new s')
  end.

Definition replace (old new s : string) : string :=
  match old with
  | EmptyString => intersperse new s
  | String _ _ => replace_scan (String.length s) old new s
  end.

Definition lower_char (c : ascii) : ascii :=
  let n := nat_of_ascii c in
  if (65 <=? n) && (n <=? 90) then ascii_of_nat (n + 32) else c.

(** [s.lower()] *)
Fixpoint lower (s : string) : string :=
  match s with
  | EmptyString => EmptyString
  | String c s' => String (lower_char c) (lower s')
  end.

Definition isalpha (c : ascii) : bool :=
  let n := nat_of_ascii c in
  ((65 <=? n) && (n <=? 90)) || ((97 <=? n) && (n <=? 122)).

Definition isdigit (c : ascii) : bool :=
  let n := nat_of_ascii c in (48 <=? n) && (n <=? 57).

Definition isascii (c : ascii) : bool := nat_of_ascii c <? 128.

End Py.

(** ** The snapshot constants *)

Definition SNAPSHOT_TIMESTAMP : string := "20250408214013".
Definition WAYBACK_PREFIX : string := "https://web.archive.org/web/" ++ SNAPSHOT_TIMESTAMP.

(** ** URL classifier and normaliser *)

Definition normalize_archived_url (url : string) : option string :=
  match url with
  | EmptyString => None
  | _ =>
    if Py.startswith url "//web.archive.org/" then Some ("https:" ++ url)
    else if Py.startswith url "/web/" then Some ("https://web.archive.org" ++ url)
    else if Py.startswith url "https://web.archive.org/web/" then Some url
    else if Py.startswith url WAYBACK_PREFIX then Some url
    else None
  end.

Definition is_in_snapshot (archived_url : string) : bool :=
  Py.startswith archived_url WAYBACK_PREFIX.

(** ** A backtracking matcher for the [re] patterns of the crawler

    The matcher follows [re]'s backtracking semantics: alternatives are
    tried from the left, a greedy repetition tries one more iteration
    before it tries the continuation, a lazy one the other way round, and
    the first way to match the whole pattern wins. *)

Module Re.

Inductive regex : Type :=
| Eps                                   (* the empty pattern *)
| Chr (c : ascii)                       (* a literal character *)
| Any                                   (* [.] *)
| Cls (p : ascii -> bool)               (* a class: [[...]], [\d], [\s] *)
| Cat (r1 r2 : regex)
| Alt (r1 r2 : regex)                   (* [r1|r2] *)
| Star (greedy : bool) (r : regex)      (* [r*] and [r*?] *)
| Grp (n : nat) (r : regex)             (* capturing group number [n] *)
| Ref (n : nat)                         (* backreference [\n] *)
| Bos                                   (* [^] *)
| Eos                                   (* [$] *)
| Wordb.                                (* [\b] *)

(** [r?], [r??], [r+], [r+?], [r{n}] and a literal string. *)
Definition Opt (greedy : bool) (r : regex) : regex :=
  if greedy then Alt r Eps else Alt Eps r.
Definition Plus (greedy : bool) (r : regex) : regex := Cat r (Star greedy r).
Fixpoint Times (n : nat) (r : regex) : regex :=
  match n with
  | O => Eps
  | S n' => Cat r (Times n' r)
  end.
Fixpoint Str (s : string) : regex :=
  match s with
  | EmptyString => Eps
  | String c s' => Cat (Chr c) (Str s')
  end.

Record flags : Type := { ignorecase : bool; dotall : bool }.

(** The matcher's position: the character before it ([None] at the start
    of the subject), the text after it, and the groups set so far (the
    most recent first). *)
Record mstate : Type := {
  prev : option ascii;
  rest : string;
  caps : list (nat * string)
}.

Fixpoint group (n : nat) (cs : list (nat * string)) : option string :=
  match cs with
  | [] => None
  | (m, s) :: cs' => if Nat.eqb m n then Some s else group n cs'
  end.

Definition newline : ascii := ascii_of_nat 10.

(** [\w] below 128. *)
Definition isword (c : ascii) : bool :=
  Py.isalpha c || Py.isdigit c || Ascii.eqb c "_"%char.

Definition isword_opt (o : option ascii) : bool :=
  match o with
  | Some c => isword c
  | None => false
  end.

Definition next (s : string) : option ascii :=
  match s with
  | EmptyString => None
  | String c _ => Some c
  end.

Definition chr_eq (fl : flags) (c d : ascii) : bool :=
  if ignorecase fl then Ascii.eqb (Py.lower_char c) (Py.lower_char d)
  else Ascii.eqb c d.

(** Consume the literal [lit] at the position, character by character. *)
Fixpoint eat (fl : flags) (lit : string) (p : option ascii) (s : string)
  : option (option ascii * string) :=
  match lit with
  | EmptyString => Some (p, s)
  | String c lit' =>
      match s with
      | String d s' => if chr_eq fl c d then eat fl lit' (Some d) s' else None
      | EmptyString => None
      end
  end.

(** Consume one character satisfying [p]. *)
Definition step (p : ascii -> bool) (k : mstate -> option mstate) (s : mstate)
  : option mstate :=
  match rest s with
  | String d s' =>
      if p d then k {| prev := Some d; rest := s'; caps := caps s |} else None
  | EmptyString => None
  end.

(** The repetition [r*] ([greedy]) or [r*?]: [body] matches [r] once.
    An iteration has to consume something, so [n], the length of the
    text left when the repetition starts, bounds the iterations. *)
Fixpoint star_loop (body : (mstate -> option mstate) -> mstate -> option mstate)
  (greedy : bool) (k : mstate -> option mstate) (n : nat) (s0 : mstate)
  {struct n} : option mstate :=
  match n with
  | O => k s0
  | S n' =>
      let again (s1 : mstate) :=
        if String.length (rest s1) <? String.length (rest s0)
        then star_loop body greedy k n' s1 else None in
      if greedy then
        match body again s0 with
        | Some s' => Some s'
        | None => k s0
        end
      else
        match k s0 with
        | Some s' => Some s'
        | None => body again s0
        end
  end.

Fixpoint rmatch (fl : flags) (r : regex) (k : mstate -> option mstate)
  (s : mstate) {struct r} : option mstate :=
  match r with
  | Eps => k s
  | Chr c => step (chr_eq fl c) k s
  | Any => step (fun d => dotall fl || negb (Ascii.eqb d newline)) k s
  | Cls p => step p k s
  | Cat r1 r2 => rmatch fl r1 (rmatch fl r2 k) s
  | Alt r1 r2 =>
      match rmatch fl r1 k s with
      | Some s' => Some s'
      | None => rmatch fl r2 k s
      end
  | Star greedy r' =>
      star_loop (rmatch fl r') greedy k (String.length (rest s)) s
  | Grp n r' =>
      rmatch fl r'
        (fun s1 =>
           let len := String.length (rest s) - String.length (rest s1) in
           k {| prev := prev s1; rest := rest s1;
                caps := (n, Py.take len (rest s)) :: caps s1 |}) s
  | Ref n =>
      match group n (caps s) with
      | Some g =>
          match eat fl g (prev s) (rest s) with
          | Some (p, s') => k {| prev := p; rest := s'; caps := caps s |}
          | None => None
          end
      | None => None
      end
  | Bos => match prev s with None => k s | Some _ => None end
  | Eos =>
      match rest s with
      | EmptyString => k s
      | String c EmptyString => if Ascii.eqb c newline then k s else None
      | _ => None
      end
  | Wordb =>
      if xorb (isword_opt (prev s)) (isword_opt (next (rest s))) then k s else None
  end.

(** [re.match(r, subject)]: the groups of a match at the start. *)
Definition match_ (fl : flags) (r : regex) (subject : string)
  : option (list (nat * string)) :=
  match rmatch fl r Some {| prev := None; rest := subject; caps := [] |} with
  | Some s => Some (caps s)
  | None => None
  end.

(** [re.findall]: the non-overlapping matches from the left; each entry
    holds the groups of one match.  After a match the scan resumes where
    it ended (one character further after an empty match). *)
Fixpoint findall_from (n : nat) (fl : flags) (r : regex) (p : option ascii)
  (s : string) : list (list (nat * string)) :=
  match n with
  | O => []
  | S n' =>
      match rmatch fl r Some {| prev := p; rest := s; caps := [] |} with
      | Some e =>
          if String.length (rest e) <? String.length s
          then caps e :: findall_from n' fl r (prev e) (rest e)
          else caps e ::
               match s with
               | String c s' => findall_from n' fl r (Some c) s'
               | EmptyString => []
               end
      | None =>
          match s with
          | String c s' => findall_from n' fl r (Some c) s'
          | EmptyString => []
          end
      end
  end.

Definition findall (fl : flags) (r : regex) (subject : string)
  : list (list (nat * string)) :=
  findall_from (S (String.length subject)) fl r None subject.

(** The value [findall] reports for group [n]: the empty string when the
    group did not take part in the match. *)
Definition group_or_empty (n : nat) (cs : list (nat * string)) : string :=
  match group n cs with
  | Some g => g
  | None => EmptyString
  end.

End Re.

(** [r"^https?://web\.archive\.org/web/\d{14}[a-z_\-]*/(https?://.+)$"] *)
Definition modifier_char (c : ascii) : bool :=
  let n := nat_of_ascii c in
  ((97 <=? n) && (n <=? 122)) || Ascii.eqb c "_"%char || Ascii.eqb c "-"%char.

Definition original_tail : Re.regex :=
  Re.Cat (Re.Str "http")
    (Re.Cat (Re.Opt true (Re.Chr "s"))
       (Re.Cat (Re.Str "://") (Re.Plus true Re.Any))).

Definition archived_pattern : Re.regex :=
  Re.Cat Re.Bos
    (Re.Cat (Re.Str "http")
       (Re.Cat (Re.Opt true (Re.Chr "s"))
          (Re.Cat (Re.Str "://web.archive.org/web/")
             (Re.Cat (Re.Times 14 (Re.Cls Py.isdigit))
                (Re.Cat (Re.Star true (Re.Cls modifier_char))
                   (Re.Cat (Re.Chr "/")
                      (Re.Cat (Re.Grp 1 original_tail) Re.Eos))))))).

Definition no_flags : Re.flags := {| Re.ignorecase := false; Re.dotall := false |}.

Definition extract_original_url (archived_url : string) : option string :=
  match Re.match_ no_flags archived_pattern archived_url with
  | None => None
  | Some groups => Re.group 1 groups
  end.

(** ** Exceptions *)

Inductive exn : Type :=
| ValueError (msg : string)
| FileNotFoundError (path : string)
| FileExistsError (path : string)
| NotADirectoryError (path : string)
| IsADirectoryError (path : string).

Inductive result (A : Type) : Type :=
| Ok (a : A)
| Raise (e : exn).

Arguments Ok {A} a.
Arguments Raise {A} e.

Definition bind {A B : Type} (r : result A) (f : A -> result B) : result B :=
  match r with
  | Ok a => f a
  | Raise e => Raise e
  end.

Notation "x <- r ;; k" := (bind r (fun x => k))
  (at level 61, r at next level, right associativity).

(** ** [urllib.parse.urlparse] (CPython 3.12)

    The check of a well-bracketed host ([_check_bracketed_host], which
    parses an IPv6 or IPvFuture literal) is the parameter
    [bracketed_host_ok]; earlier versions have no such check, which is
    the instance [fun _ => true].  [_checknetloc] only inspects a host
    with characters above 127 and is left out. *)

Module UrlParse.

Record ParseResult : Type := {
  scheme : string;
  netloc : string;
  path : string;
  params : string;
  query : string;
  fragment : string
}.

Definition scheme_chars : string :=
  "abcdefghijklmnopqrstuvwxyzABCDEFGHIJKLMNOPQRSTUVWXYZ0123456789+-.".

Definition uses_params : list string :=
  [""; "ftp"; "hdl"; "prospero"; "http"; "imap"; "https"; "shttp"; "rtsp";
   "rtspu"; "sip"; "sips"; "mms"; "sftp"; "tel"].

(** [_WHATWG_C0_CONTROL_OR_SPACE] holds the characters up to the space. *)
Definition c0_control_or_space (c : ascii) : bool := nat_of_ascii c <=? 32.

Fixpoint lstrip_c0 (s : string) : string :=
  match s with
  | EmptyString => EmptyString
  | String c s' => if c0_control_or_space c then lstrip_c0 s' else s
  end.

Definition tab : string := String (ascii_of_nat 9) EmptyString.
Definition cr : string := String (ascii_of_nat 13) EmptyString.
Definition lf : string := String (ascii_of_nat 10) EmptyString.

(** [for b in _UNSAFE_URL_BYTES_TO_REMOVE: url = url.replace(b, "")] *)
Definition remove_unsafe (url : string) : string :=
  Py.replace lf "" (Py.replace cr "" (Py.replace tab "" url)).

Fixpoint all_in (s chars : string) : bool :=
  match s with
  | EmptyString => true
  | String c s' => Py.mem_char c chars && all_in s' chars
  end.

Definition first_char_ok (url : string) : bool :=
  match url with
  | String c _ => Py.isascii c && Py.isalpha c
  | EmptyString => false
  end.

(** [_splitnetloc(url, start)] *)
Definition splitnetloc (url : string) (start : Z) : string * string :=
  let delim := Z.of_nat (String.length url) in
  let upd (c : ascii) (delim : Z) :=
    let wdelim := Py.find_from c url start in
    if (0 <=? wdelim)%Z then Z.min delim wdelim else delim in
  let delim := upd "#"%char (upd "?"%char (upd "/"%char delim)) in
  (Py.slice url start delim, Py.slice_from url delim).

(** [s.partition(c)[0]] and [s.partition(c)[2]]; [s.split(c, 1)] is the
    same pair when [c] occurs in [s]. *)
Definition before (c : ascii) (s : string) : string :=
  let i := Py.find c s in if (i <? 0)%Z then s else Py.slice_to s i.
Definition after (c : ascii) (s : string) : string :=
  let i := Py.find c s in if (i <? 0)%Z then "" else Py.slice_from s (i + 1).

Section Parse.

Variable bracketed_host_ok : string -> bool.

Definition urlsplit (url0 : string) : result ParseResult :=
  let url := remove_unsafe (lstrip_c0 url0) in
  let i := Py.find ":"%char url in
  let '(scheme, url) :=
    if (0 <? i)%Z && first_char_ok url && all_in (Py.slice_to url i) scheme_chars
    then (Py.lower (Py.slice_to url i), Py.slice_from url (i + 1))
    else ("", url) in
  r <- (if String.eqb (Py.slice_to url 2) "//" then
          let '(netloc, url) := splitnetloc url 2 in
          let lb := Py.mem_char "["%char netloc in
          let rb := Py.mem_char "]"%char netloc in
          if (lb && negb rb) || (rb && negb lb)
          then Raise (ValueError "Invalid IPv6 URL")
          else if lb && rb &&
                  negb (bracketed_host_ok
                          (before "]"%char (after "["%char netloc)))
          then Raise (ValueError "invalid bracketed host")
          else Ok (netloc, url)
        else Ok ("", url)) ;;
  let '(netloc, url) := r in
  let '(url, fragment) :=
    if Py.mem_char "#"%char url then (before "#"%char url, after "#"%char url)
    else (url, "") in
  let '(url, query) :=
    if Py.mem_char "?"%char url then (before "?"%char url, after "?"%char url)
    else (url, "") in
  Ok {| scheme := scheme; netloc := netloc; path := url; params := "";
        query := query; fragment := fragment |}.

(** [_splitparams(url)], called when [';' in url]. *)
Definition splitparams (url : string) : string * string :=
  if Py.mem_char "/"%char url then
    let i := Py.find_from ";"%char url (Py.rfind "/"%char url) in
    if (i <? 0)%Z then (url, "")
    else (Py.slice_to url i, Py.slice_from url (i + 1))
  else
    let i := Py.find ";"%char url in
    (Py.slice_to url i, Py.slice_from url (i + 1)).

Definition urlparse (url : string) : result ParseResult :=
  r <- urlsplit url ;;
  if existsb (String.eqb (scheme r)) uses_params && Py.mem_char ";"%char (path r)
  then
    let '(url', params') := splitparams (path r) in
    Ok {| scheme := scheme r; netloc := netloc r; path := url';
          params := params'; query := query r; fragment := fragment r |}
  else Ok r.

End Parse.

End UrlParse.

(** ** [os.path] (posixpath) *)

Module OsPath.

Definition sep : ascii := "/"%char.

Fixpoint all_dots (s : string) : bool :=
  match s with
  | EmptyString => true
  | String c s' => Ascii.eqb c "."%char && all_dots s'
  end.

(** [genericpath._splitext(p, '/', None, '.')]: when the last dot comes
    after the last separator and something other than a dot stands
    between them, the name is split at that dot. *)
Definition splitext (p : string) : string * string :=
  let sepIndex := Py.rfind sep p in
  let dotIndex := Py.rfind "."%char p in
  if (sepIndex <? dotIndex)%Z then
    let filenameIndex := (sepIndex + 1)%Z in
    if all_dots (Py.slice p filenameIndex dotIndex)
    then (p, "")
    else (Py.slice_to p dotIndex, Py.slice_from p dotIndex)
  else (p, "").

(** [os.path.join(a, *p)] *)
Definition join2 (path b : string) : string :=
  if Py.startswith b "/" then b
  else match path with
       | EmptyString => b
       | _ => if Py.endswith_char path sep then path ++ b else path ++ "/" ++ b
       end.

Definition join (a : string) (p : list string) : string := fold_left join2 p a.

Fixpoint all_sep (s : string) : bool :=
  match s with
  | EmptyString => true
  | String c s' => Ascii.eqb c sep && all_sep s'
  end.

(** [os.path.dirname(p)] *)
Definition dirname (p : string) : string :=
  let i := (Py.rfind sep p + 1)%Z in
  let head := Py.slice_to p i in
  match head with
  | EmptyString => head
  | _ => if all_sep head then head else Py.rstrip "/" head
  end.

Definition non_empty (s : string) : bool :=
  match s with EmptyString => false | _ => true end.

(** The component loop of [os.path.normpath]. *)
Definition norm_step (initial_slashes : nat) (new_comps : list string)
  (comp : string) : list string :=
  if String.eqb comp "" || String.eqb comp "." then new_comps
  else if negb (String.eqb comp "..")
          || ((initial_slashes =? 0) && (length new_comps =? 0))
          || match rev new_comps with
             | last :: _ => String.eqb last ".."
             | [] => false
             end
  then (new_comps ++ [comp])%list
  else removelast new_comps.

Definition normpath (path : string) : string :=
  match path with
  | EmptyString => "."
  | _ =>
    let initial_slashes :=
      if Py.startswith path "/" then
        if Py.startswith path "//" && negb (Py.startswith path "///")
        then 2 else 1
      else 0 in
    let comps := fold_left (norm_step initial_slashes) (Py.split sep path) [] in
    let path' := Py.join "/" comps in
    let path' := Py.take initial_slashes "//" ++ path' in
    match path' with EmptyString => "." | _ => path' end
  end.

Definition isabs (s : string) : bool := Py.startswith s "/".

(** [os.path.abspath(path)] under the working directory [cwd]. *)
Definition abspath (cwd path : string) : string :=
  if isabs path then normpath path else normpath (join cwd [path]).

(** [len(commonprefix([l1, l2]))] on component lists. *)
Fixpoint common_len (l1 l2 : list string) : nat :=
  match l1, l2 with
  | x :: l1', y :: l2' => if String.eqb x y then S (common_len l1' l2') else 0
  | _, _ => 0
  end.

(** [os.path.relpath(path, start)] *)
Definition relpath (cwd path start : string) : result string :=
  match path with
  | EmptyString => Raise (ValueError "no path specified")
  | _ =>
    let start_list := filter non_empty (Py.split sep (abspath cwd start)) in
    let path_list := filter non_empty (Py.split sep (abspath cwd path)) in
    let i := common_len start_list path_list in
    let rel_list := (repeat ".." (length start_list - i) ++ skipn i path_list)%list in
    match rel_list with
    | [] => Ok "."
    | a :: p => Ok (join a p)
    end
  end.

End OsPath.

(** ** Local path mapper *)

Definition is_html (content_type : option string) : bool :=
  match content_type with
  | Some ct => Py.truthy (Some ct) && Py.contains ct "text/html"
  | None => false
  end.

Section Mapper.

Variable bracketed_host_ok : string -> bool.

Definition guess_local_path (root_dir original_url : string)
  (content_type : option string) : result string :=
  parsed <- UrlParse.urlparse bracketed_host_ok original_url ;;
  let host := UrlParse.netloc parsed in
  let path := UrlParse.path parsed in
  let path :=
    if negb (OsPath.non_empty path) || Py.endswith_char path "/"
    then (match path with EmptyString => "/" | _ => path end) ++ "index.html"
    else path in
  let ext := snd (OsPath.splitext path) in
  let path :=
    if negb (OsPath.non_empty ext) then
      if is_html content_type then path ++ ".html" else path
    else path in
  Ok (OsPath.join root_dir [host; Py.lstrip "/" path]).

End Mapper.

Definition any_host : string -> bool := fun _ => true.

(** ** Link extractor *)

Definition dquote : ascii := ascii_of_nat 34.
Definition squote : ascii := ascii_of_nat 39.

(** The class of the two quote characters, written [[\x22']] below. *)
Definition quote_char (c : ascii) : bool := Ascii.eqb c dquote || Ascii.eqb c squote.

(** [\s*=\s*([\x22'])(.*?)\1], the tail shared by the attribute patterns. *)
Definition quoted_value : Re.regex :=
  Re.Cat (Re.Star true (Re.Cls Py.isspace))
    (Re.Cat (Re.Chr "=")
       (Re.Cat (Re.Star true (Re.Cls Py.isspace))
          (Re.Cat (Re.Grp 1 (Re.Cls quote_char))
             (Re.Cat (Re.Grp 2 (Re.Star false Re.Any)) (Re.Ref 1))))).

(** [r"\b(?:href|src|data-src|data-href)\s*=\s*([\x22'])(.*?)\1"], IGNORECASE *)
Definition attr_pattern : Re.regex :=
  Re.Cat Re.Wordb
    (Re.Cat (Re.Alt (Re.Str "href")
               (Re.Alt (Re.Str "src") (Re.Alt (Re.Str "data-src") (Re.Str "data-href"))))
       quoted_value).
Definition attr_flags : Re.flags := {| Re.ignorecase := true; Re.dotall := false |}.

(** [r"\bsrcset\s*=\s*([\x22'])(.*?)\1"], IGNORECASE | DOTALL *)
Definition srcset_pattern : Re.regex :=
  Re.Cat Re.Wordb (Re.Cat (Re.Str "srcset") quoted_value).
Definition srcset_flags : Re.flags := {| Re.ignorecase := true; Re.dotall := true |}.

(** [r"url\(\s*([\x22']?)(.+?)(\1)\s*\)"] *)
Definition css_url_pattern : Re.regex :=
  Re.Cat (Re.Str "url(")
    (Re.Cat (Re.Star true (Re.Cls Py.isspace))
       (Re.Cat (Re.Grp 1 (Re.Opt true (Re.Cls quote_char)))
          (Re.Cat (Re.Grp 2 (Re.Plus false Re.Any))
             (Re.Cat (Re.Grp 3 (Re.Ref 1))
                (Re.Cat (Re.Star true (Re.Cls Py.isspace)) (Re.Chr ")")))))).

(** A Python [set] of strings: the members in the order of their first
    insertion.  The order in which Python iterates over a set is not
    this one; see [iter_order] in the scheduler. *)
Definition mem (x : string) (s : list string) : bool := existsb (String.eqb x) s.
Definition set_add (s : list string) (x : string) : list string :=
  if mem x s then s else (s ++ [x])%list.

(** [u = normalize_archived_url(val); if u and is_in_snapshot(u): found.add(u)] *)
Definition consider (found : list string) (val : string) : list string :=
  match normalize_archived_url val with
  | Some u => if Py.truthy (Some u) && is_in_snapshot u then set_add found u else found
  | None => found
  end.

(** [part.strip().split(' ')[0]] *)
Definition url_part (part : string) : string :=
  match Py.split " " (Py.strip part) with
  | x :: _ => x
  | [] => ""
  end.

Definition find_links_to_follow (html : string) : list string :=
  let found := [] in
  let found :=
    fold_left consider
      (map (Re.group_or_empty 2) (Re.findall attr_flags attr_pattern html)) found in
  let found :=
    fold_left
      (fun found val => fold_left consider (map url_part (Py.split "," val)) found)
      (map (Re.group_or_empty 2) (Re.findall srcset_flags srcset_pattern html)) found in
  let found :=
    fold_left consider
      (map (Re.group_or_empty 2) (Re.findall no_flags css_url_pattern html)) found in
  found.

Definition dq : string := String dquote "".

(** ** [bytes.decode('utf-8', errors='ignore')]

    A text is held as its UTF-8 encoding, so that [str.encode('utf-8')] is
    the identity and decoding drops the bytes that are part of no
    well-formed sequence. *)

Module Utf8.

Definition between (lo hi : nat) (c : ascii) : bool :=
  let n := nat_of_ascii c in (lo <=? n) && (n <=? hi).

Definition cont : ascii -> bool := between 128 191.

(** The length of the well-formed sequence that starts [s], or [0]. *)
Definition sequence (s : string) : nat :=
  match s with
  | EmptyString => 0
  | String a s1 =>
    if between 0 127 a then 1
    else match s1 with
    | EmptyString => 0
    | String b s2 =>
      if between 194 223 a then (if cont b then 2 else 0)
      else match s2 with
      | EmptyString => 0
      | String c s3 =>
        let second3 :=
          (between 224 224 a && between 160 191 b)
          || ((between 225 236 a || between 238 239 a) && cont b)
          || (between 237 237 a && between 128 159 b) in
        if second3 then (if cont c then 3 else 0)
        else match s3 with
        | EmptyString => 0
        | String d _ =>
          let second4 :=
            (between 240 240 a && between 144 191 b)
            || (between 241 243 a && cont b)
            || (between 244 244 a && between 128 143 b) in
          if second4 && cont c && cont d then 4 else 0
        end
      end
    end
  end.

Fixpoint decode_from (skip : nat) (s : string) : string :=
  match s with
  | EmptyString => EmptyString
  | String c s' =>
      match skip with
      | S k => String c (decode_from k s')
      | O =>
          match sequence s with
          | O => decode_from 0 s'
          | S k => String c (decode_from k s')
          end
      end
  end.

Definition decode_ignore (content : string) : string := decode_from 0 content.

Definition encode (text : string) : string := text.

End Utf8.

(** ** The file system

    An idealised POSIX hierarchy: absolute paths, as lists of components,
    are bound to directories and regular files; the root always is a
    directory.  A path is resolved lexically ([.], [..] and repeated
    separators as [os.path.normpath] does); there are no links,
    permissions or limits. *)

Module Fs.

Inductive node : Type :=
| Dir
| File (content : string).

Record t : Type := {
  cwd : string;                          (* [os.getcwd()], an absolute path *)
  nodes : list (list string * node)      (* the first binding of a path counts *)
}.

Definition components (fs : t) (p : string) : list string :=
  filter OsPath.non_empty (Py.split OsPath.sep (OsPath.abspath (cwd fs) p)).

Fixpoint lookup_nodes (k : list string) (l : list (list string * node)) : option node :=
  match l with
  | [] => None
  | (k', n) :: l' =>
      if list_eq_dec string_dec k k' then Some n else lookup_nodes k l'
  end.

Definition lookup (fs : t) (k : list string) : option node :=
  match k with
  | [] => Some Dir
  | _ => lookup_nodes k (nodes fs)
  end.

(** What is at [p], if anything. *)
Definition stat (fs : t) (p : string) : option node :=
  match p with
  | EmptyString => None
  | _ => lookup fs (components fs p)
  end.

(** [os.path.exists(p)] *)
Definition exists_ (fs : t) (p : string) : bool :=
  match stat fs p with
  | Some _ => true
  | None => false
  end.

(** The directories of [todo] below [done] are made one after the other,
    from the top. *)
Fixpoint mkdirs (p : string) (l : list (list string * node))
  (done todo : list string) : result (list (list string * node)) :=
  match todo with
  | [] => Ok l
  | x :: todo' =>
      let here := (done ++ [x])%list in
      match lookup_nodes here l with
      | None => mkdirs p ((here, Dir) :: l) here todo'
      | Some Dir => mkdirs p l here todo'
      | Some (File _) =>
          match todo' with
          | [] => Raise (FileExistsError p)
          | _ => Raise (NotADirectoryError p)
          end
      end
  end.

(** [os.makedirs(p, exist_ok=True)] *)
Definition makedirs (fs : t) (p : string) : result t :=
  match p with
  | EmptyString => Raise (FileNotFoundError p)
  | _ =>
      l <- mkdirs p (nodes fs) [] (components fs p) ;;
      Ok {| cwd := cwd fs; nodes := l |}
  end.

Definition names_directory (p : string) : bool :=
  match rev (Py.split OsPath.sep p) with
  | last :: _ => String.eqb last "" || String.eqb last "." || String.eqb last ".."
  | [] => true
  end.

(** [with open(p, 'wb') as f: f.write(content)] *)
Definition write_file (fs : t) (p : string) (content : string) : result t :=
  match p with
  | EmptyString => Raise (FileNotFoundError p)
  | _ =>
      let k := components fs p in
      if names_directory p then Raise (IsADirectoryError p)
      else
        match k with
        | [] => Raise (IsADirectoryError p)
        | _ =>
            match lookup fs (removelast k) with
            | None => Raise (FileNotFoundError p)
            | Some (File _) => Raise (NotADirectoryError p)
            | Some Dir =>
                match lookup fs k with
                | Some Dir => Raise (IsADirectoryError p)
                | _ => Ok {| cwd := cwd fs; nodes := (k, File content) :: nodes fs |}
                end
            end
        end
  end.

(** The regular file at [p] and its content. *)
Definition read_file (fs : t) (p : string) : option string :=
  match stat fs p with
  | Some (File content) => Some content
  | _ => None
  end.

End Fs.

Definition ensure_directory_for_file (fs : Fs.t) (path : string) : result Fs.t :=
  let directory := OsPath.dirname path in
  if OsPath.non_empty directory && negb (Fs.exists_ fs directory)
  then Fs.makedirs fs directory
  else Ok fs.

(** ** Fetch collaborator *)

(** What [session.get(url, timeout=30)] does: it returns a response or
    raises (a connection error, a timeout, ...). *)
Inductive http_result : Type :=
| Response (status_code : Z) (content : string) (content_type : option string)
| RequestException.

Definition session_t : Type := string -> http_result.

Definition fetch (archived_url : string) (session : session_t)
  : option string * option string :=
  match session archived_url with
  | Response status_code content content_type =>
      if (status_code =? 200)%Z then (Some content, content_type)
      else (None, None)
  | RequestException => (None, None)
  end.

(** ** Crawl scheduler *)

Inductive event : Type :=
| Put (url : string)                (* [q.put(url)] *)
| Get (url : string)                (* [q.get()] returned [url] *)
| Visit (url : string)              (* [visited.add(url)] *)
| Fetch (url : string)              (* [fetch(url, session)] *)
| Wrote (path : string)             (* a file was written *)
| Stderr (msg : string)             (* a line on the diagnostic stream *)
| Sleep.                            (* [time.sleep(0.1)] *)

Record state : Type := {
  fs : Fs.t;
  visited : list string;
  q : list string;                  (* the head is the next one out *)
  log : list event                  (* the latest event first *)
}.

Inductive outcome : Type :=
| Finished                          (* [crawl] returned *)
| Exited (status : Z)               (* [sys.exit(status)] *)
| Uncaught (e : exn).               (* an exception ended the process *)

Definition backslash : string := String (ascii_of_nat 92) "".

(** [d[k] = v] on a dict held in insertion order. *)
Fixpoint dict_set (d : list (string * string)) (k v : string) : list (string * string) :=
  match d with
  | [] => [(k, v)]
  | (k', v') :: d' => if String.eqb k k' then (k, v) :: d' else (k', v') :: dict_set d' k v
  end.

(** The replacement pass of the link rewriter. *)
Definition rewrite (html_text : string) (replacements : list (string * string)) : string :=
  fold_left (fun rewritten kv => Py.replace (fst kv) (snd kv) rewritten)
    replacements html_text.

Section Scheduler.

Variable bracketed_host_ok : string -> bool.
(** The order in which Python iterates over a set with the given
    members; it is the same each time an unchanged set is iterated. *)
Variable iter_order : list string -> list string.
Variable session : session_t.

(** The origin a fetched address is mapped from. *)
Definition origin_of (current : string) : string :=
  match extract_original_url current with
  | Some original_url => if Py.truthy (Some original_url) then original_url else current
  | None => current
  end.

(** The replacement map of a document: lines 166 to 174. *)
Fixpoint build_replacements (cwd out_dir current_dir : string) (links : list string)
  (replacements : list (string * string)) : result (list (string * string)) :=
  match links with
  | [] => Ok replacements
  | link :: links' =>
      match extract_original_url link with
      | Some orig =>
          if Py.truthy (Some orig) then
            target_local <- guess_local_path bracketed_host_ok out_dir orig None ;;
            rel <- OsPath.relpath cwd target_local current_dir ;;
            build_replacements cwd out_dir current_dir links'
              (dict_set replacements link (Py.replace backslash "/" rel))
          else build_replacements cwd out_dir current_dir links' replacements
      | None => build_replacements cwd out_dir current_dir links' replacements
      end
  end.

(** [if link not in visited and is_in_snapshot(link): q.put(link)] *)
Definition enqueue (s : state) (link : string) : state :=
  if negb (mem link (visited s)) && is_in_snapshot link
  then {| fs := fs s; visited := visited s; q := (q s ++ [link])%list;
          log := Put link :: log s |}
  else s.

Definition emit (e : event) (s : state) : state :=
  {| fs := fs s; visited := visited s; q := q s; log := e :: log s |}.

(** The file is written, and the turn ends with the pause. *)
Definition write (s : state) (local_path content : string) : state * option exn :=
  match Fs.write_file (fs s) local_path content with
  | Ok fs' =>
      (emit Sleep {| fs := fs'; visited := visited s; q := q s;
                     log := Wrote local_path :: log s |}, None)
  | Raise e => (s, Some e)
  end.

(** What is done with a fetched resource: lines 143 to 188. *)
Definition process (out_dir current content : string) (content_type : option string)
  (s : state) : state * option exn :=
  match guess_local_path bracketed_host_ok out_dir (origin_of current) content_type with
  | Raise e => (s, Some e)
  | Ok local_path =>
    match ensure_directory_for_file (fs s) local_path with
    | Raise e => (s, Some e)
    | Ok fs1 =>
      let s := {| fs := fs1; visited := visited s; q := q s; log := log s |} in
      if is_html content_type then
        let html_text := Utf8.decode_ignore content in
        let links := iter_order (find_links_to_follow html_text) in
        let s := fold_left enqueue links s in
        let current_dir :=
          match OsPath.dirname local_path with
          | EmptyString => "."
          | d => d
          end in
        match build_replacements (Fs.cwd (fs s)) out_dir current_dir links [] with
        | Raise e => (s, Some e)
        | Ok replacements =>
            write s local_path (Utf8.encode (rewrite html_text replacements))
        end
      else write s local_path content
    end
  end.

(** One turn of the loop, the queue holding [current] in front: lines
    134 to 141, then [process]. *)
Definition iteration (out_dir current : string) (s : state) : state * option exn :=
  let s := {| fs := fs s; visited := visited s; q := tl (q s);
              log := Get current :: log s |} in
  if mem current (visited s) then (s, None)
  else
    let s := {| fs := fs s; visited := current :: visited s; q := q s;
                log := Fetch current :: Visit current :: log s |} in
    match fetch current session with
    | (None, _) => (s, None)
    | (Some content, content_type) => process out_dir current content content_type s
    end.

(** [while not q.empty(): ...]; [None] when [fuel] turns do not empty
    the queue. *)
Fixpoint drain (fuel : nat) (out_dir : string) (s : state) : option (outcome * state) :=
  match q s with
  | [] => Some (Finished, s)
  | current :: _ =>
      match fuel with
      | O => None
      | S fuel' =>
          match iteration out_dir current s with
          | (s', None) => drain fuel' out_dir s'
          | (s', Some e) => Some (Uncaught e, s')
          end
      end
  end.

Definition start_state (fs0 : Fs.t) : state :=
  {| fs := fs0; visited := []; q := []; log := [] |}.

(** The state when the loop starts: [q.put(normalized_start)]. *)
Definition seeded (fs1 : Fs.t) (normalized_start : string) : state :=
  {| fs := fs1; visited := []; q := [normalized_start];
     log := [Put normalized_start] |}.

Definition normalized (start_archived_url : string) : string :=
  match normalize_archived_url start_archived_url with
  | Some u => if Py.truthy (Some u) then u else start_archived_url
  | None => start_archived_url
  end.

Definition crawl (fuel : nat) (start_archived_url out_dir : string) (fs0 : Fs.t)
  : option (outcome * state) :=
  match (if Fs.exists_ fs0 out_dir then Ok fs0 else Fs.makedirs fs0 out_dir) with
  | Raise e => Some (Uncaught e, start_state fs0)
  | Ok fs1 =>
      let normalized_start := normalized start_archived_url in
      if negb (is_in_snapshot normalized_start) then
        Some (Exited 1,
              emit (Stderr "Start URL is not within the required snapshot timestamp.")
                (start_state fs1))
      else drain fuel out_dir (seeded fs1 normalized_start)
  end.

End Scheduler.

(** ** Predicates of the statements *)

Fixpoint all_chars (p : ascii -> bool) (s : string) : bool :=
  match s with
  | EmptyString => true
  | String c s' => p c && all_chars p s'
  end.

Definition not_newline (c : ascii) : bool := negb (Ascii.eqb c Re.newline).

(** An original address of the web: [http://] or [https://], in lower
    case, and at least one character after it. *)
Definition web_address (O : string) : bool :=
  (String.prefix "http://" O && (7 <? String.length O))
  || (String.prefix "https://" O && (8 <? String.length O)).

(** The character before a position that is [lit] further than one with
    [p] before it. *)
Definition last_or (p : option ascii) (lit : string) : option ascii :=
  match Py.last_char lit with
  | Some c => Some c
  | None => p
  end.

(** [r] does not start with a character of the class [p]. *)
Definition stops (p : ascii -> bool) (r : string) : Prop :=
  match r with
  | String c _ => p c = false
  | EmptyString => True
  end.

(** A text cut at separator characters: [first], then each separator
    with the segment after it. *)
Fixpoint doc (first : string) (rest : list (ascii * string)) : string :=
  match rest with
  | [] => first
  | (d, seg) :: rest' => first ++ String d (doc seg rest')
  end.

(** The replacement map [m], a dict in insertion order. *)
Definition is_key (m : list (string * string)) (s : string) : bool :=
  existsb (fun kv => String.eqb (fst kv) s) m.

Definition key_free (m : list (string * string)) (s : string) : bool :=
  forallb (fun kv => negb (Py.contains s (fst kv))) m.

Fixpoint distinct (l : list string) : bool :=
  match l with
  | [] => true
  | x :: l' => negb (mem x l') && distinct l'
  end.

(** The keys are distinct and not empty, no key is a substring of
    another key, and no key is a substring of a value. *)
Definition nondegenerate (m : list (string * string)) : bool :=
  distinct (map fst m)
  && forallb (fun kv => OsPath.non_empty (fst kv)) m
  && forallb (fun kv =>
                forallb (fun kv' => String.eqb (fst kv) (fst kv')
                                    || negb (Py.contains (fst kv') (fst kv))) m) m
  && forallb (fun kv => key_free m (snd kv)) m.

(** No separator of the text occurs in a key, and every segment is a
    key or holds no key. *)
Definition delimited (m : list (string * string)) (first : string)
  (rest : list (ascii * string)) : bool :=
  forallb (fun ds => forallb (fun kv => negb (Py.mem_char (fst ds) (fst kv))) m) rest
  && forallb (fun seg => is_key m seg || key_free m seg) (first :: map snd rest).

(** The claim's proviso: no key is a substring of another key's value. *)
Definition no_key_in_other_value (m : list (string * string)) : bool :=
  forallb (fun kv =>
             forallb (fun kv' => String.eqb (fst kv) (fst kv')
                                 || negb (Py.contains (snd kv') (fst kv))) m) m.

(** A segment after the rewrite: the value of its key, or itself. *)
Definition subst (m : list (string * string)) (seg : string) : string :=
  match find (fun kv => String.eqb (fst kv) seg) m with
  | Some kv => snd kv
  | None => seg
  end.

Definition safe_char (c : ascii) : bool :=
  negb (Ascii.eqb c (ascii_of_nat 9)) && negb (Ascii.eqb c (ascii_of_nat 13))
  && negb (Ascii.eqb c (ascii_of_nat 10)).

(** ** The loop and its log *)

(** The links that pass [if link not in visited and is_in_snapshot(link)]. *)
Definition admitted (vis links : list string) : list string :=
  filter (fun link => negb (mem link vis) && is_in_snapshot link) links.

(** The addresses fetched, marked visited and put on the queue, as the
    log has them, the latest first. *)
Fixpoint fetches (log : list event) : list string :=
  match log with
  | [] => []
  | Fetch u :: log' => u :: fetches log'
  | _ :: log' => fetches log'
  end.

Fixpoint visits (log : list event) : list string :=
  match log with
  | [] => []
  | Visit u :: log' => u :: visits log'
  | _ :: log' => visits log'
  end.

Fixpoint puts (log : list event) : list string :=
  match log with
  | [] => []
  | Put u :: log' => u :: puts log'
  | _ :: log' => puts log'
  end.

(** Every fetch comes right after the address was marked visited, which
    comes right after it left the queue, and the address was not marked
    before. *)
Fixpoint fetch_after_visit (log : list event) : bool :=
  match log with
  | [] => true
  | Fetch u :: log' =>
      match log' with
      | Visit v :: Get w :: log'' =>
          String.eqb u v && String.eqb u w && negb (mem u (visits log''))
      | _ => false
      end && fetch_after_visit log'
  | _ :: log' => fetch_after_visit log'
  end.

(** An event of writing, sleeping or printing. *)
Definition quiet (e : event) : bool :=
  match e with
  | Wrote _ | Sleep | Stderr _ => true
  | _ => false
  end.

Section Run.

Variable bracketed_host_ok : string -> bool.
Variable iter_order : list string -> list string.
Variable session : session_t.
Variable out_dir : string.

(** The loop from one state to a later one. *)
Inductive reaches : state -> state -> Prop :=
| reaches_here (s : state) : reaches s s
| reaches_turn (s s1 s2 : state) (current : string) :
    hd_error (q s) = Some current ->
    iteration bracketed_host_ok iter_order session out_dir current s = (s1, None) ->
    reaches s1 s2 -> reaches s s2
| reaches_raise (s s1 : state) (current : string) (e : exn) :
    hd_error (q s) = Some current ->
    iteration bracketed_host_ok iter_order session out_dir current s = (s1, Some e) ->
    reaches s s1.

(** The links of the document at [u], in the order the loop takes them. *)
Definition links_of (u : string) : list string :=
  match fetch u session with
  | (Some content, content_type) =>
      if is_html content_type
      then iter_order (find_links_to_follow (Utf8.decode_ignore content))
      else []
  | (None, _) => []
  end.

End Run.

(** What holds of every state of the loop. *)
Definition inv (s : state) : Prop :=
  Forall (fun u => is_in_snapshot u = true) (q s)
  /\ Forall (fun u => is_in_snapshot u = true) (puts (log s))
  /\ fetch_after_visit (log s) = true
  /\ visits (log s) = visited s
  /\ fetches (log s) = visited s
  /\ NoDup (visited s)
  /\ (forall u, In u (puts (log s)) -> In u (q s) \/ In u (visited s)).

(** The addresses of [U] not yet visited, and the measure that every
    turn of the loop decreases. *)
Definition unvisited (U : list string) (s : state) : list string :=
  filter (fun u => negb (mem u (visited s))) U.

Definition measure (U : list string) (s : state) : nat :=
  length (q s) + length U * length (unvisited U s).


(** ** Predicates of the further properties *)

(** The addresses taken from the queue, as the log has them, the latest
    first. *)
Fixpoint gets (log : list event) : list string :=
  match log with
  | [] => []
  | Get u :: log' => u :: gets log'
  | _ :: log' => gets log'
  end.

(** The queue is what was put and not yet taken, in the order of the
    puts; whatever was marked visited had been taken from the queue. *)
Definition fifo (s : state) : Prop :=
  rev (puts (log s)) = (rev (gets (log s)) ++ q s)%list
  /\ incl (visited s) (gets (log s)).

(** An in-snapshot address that normalization leaves as it is. *)
Definition canonical (u : string) : Prop :=
  is_in_snapshot u = true /\ normalize_archived_url u = Some u.

(** [if not orig: continue] does not skip [link]. *)
Definition recoverable (link : string) : bool := Py.truthy (extract_original_url link).

(** [v] is what lines 171 to 174 compute for [link]: the path of the
    original address of [link] under [out_dir], relative to
    [current_dir], with forward slashes. *)
Definition entry_of (bracketed_host_ok : string -> bool) (cwd out_dir current_dir : string)
  (link v : string) : Prop :=
  exists orig target rel,
    extract_original_url link = Some orig
    /\ guess_local_path bracketed_host_ok out_dir orig None = Ok target
    /\ OsPath.relpath cwd target current_dir = Ok rel
    /\ v = Py.replace backslash "/" rel.

Definition same_kind (n n' : Fs.node) : bool :=
  match n, n' with
  | Fs.Dir, Fs.Dir => true
  | Fs.File _, Fs.File _ => true
  | _, _ => false
  end.

(** Nothing of [fs] is missing in [fs'] or has changed its kind there,
    and the working directory is the same. *)
Definition keeps (fs fs' : Fs.t) : Prop :=
  Fs.cwd fs' = Fs.cwd fs
  /\ forall k n, Fs.lookup fs k = Some n ->
                 exists n', Fs.lookup fs' k = Some n' /\ same_kind n n' = true.

(** Every path the log reports as written holds a regular file. *)
Definition written_files_exist (s : state) : Prop :=
  forall p, In (Wrote p) (log s) -> exists c, Fs.read_file (fs s) p = Some c.

(** The matcher went from [s] to [s'] over the text [w], setting no
    group. *)
Definition consumed (s s' : Re.mstate) (w : string) : Prop :=
  Re.rest s = w ++ Re.rest s' /\ Re.caps s' = Re.caps s.

(** The texts the archived-address pattern is written for: [http] or
    [https], the archive's host and [/web/], fourteen digits, a
    modifier of the characters [a-z], [_] and [-], a slash and the
    original address [O], then the end or one line feed. *)
Definition archived (a O : string) : Prop :=
  exists s ts m nl,
    a = "http" ++ s ++ "://web.archive.org/web/" ++ ts ++ m ++ "/" ++ O ++ nl
    /\ (s = "" \/ s = "s")
    /\ String.length ts = 14 /\ all_chars Py.isdigit ts = true
    /\ all_chars modifier_char m = true
    /\ (nl = "" \/ nl = UrlParse.lf).

(** [w] stands somewhere in [s]. *)
Definition within (w s : string) : Prop := exists a b, s = a ++ w ++ b.

(** The matcher went from [s] to a later position [s'], and the groups
    set on the way are pieces of the text that was left at [s]. *)
Definition advance (s s' : Re.mstate) : Prop :=
  (exists a, Re.rest s = a ++ Re.rest s')
  /\ forall n g, In (n, g) (Re.caps s') -> In (n, g) (Re.caps s) \/ within g (Re.rest s).

(** Every file the log reports as written is the file of a resource
    that was fetched: it is at the path of the mapper for the origin of
    a fetched address and the content type of its response. *)
Definition writes_are_of_fetches (bracketed_host_ok : string -> bool) (session : session_t)
  (out_dir : string) (s : state) : Prop :=
  forall p, In (Wrote p) (log s) ->
    exists u content content_type,
      In u (fetches (log s))
      /\ fetch u session = (Some content, content_type)
      /\ guess_local_path bracketed_host_ok out_dir (origin_of u) content_type = Ok p.

(** Every fetch that gave a resource was followed by the write of its
    file. *)
Definition fetches_are_written (bracketed_host_ok : string -> bool) (session : session_t)
  (out_dir : string) (s : state) : Prop :=
  forall u content content_type,
    In u (fetches (log s)) ->
    fetch u session = (Some content, content_type) ->
    exists p,
      guess_local_path bracketed_host_ok out_dir (origin_of u) content_type = Ok p
      /\ In (Wrote p) (log s).

(** A component of a normalized absolute path: a name. *)
Definition plain (x : string) : Prop :=
  x <> "" /\ x <> "." /\ x <> ".." /\ Py.mem_char "/" x = false.

(** A component of a relative path: a name or [..]. *)
Definition part (x : string) : Prop := x <> "" /\ x <> "." /\ Py.mem_char "/" x = false.

(** The components of a path, resolved from the root. *)
Definition resolved (p : string) : list string :=
  fold_left (OsPath.norm_step 1) (Py.split "/" p) [].

(** The path [os.path.abspath] normalizes. *)
Definition anchored (cwd x : string) : string :=
  if OsPath.isabs x then x else OsPath.join cwd [x].

(** What [os.path.join] puts between a path and a relative one. *)
Definition joint (X : string) : string := if Py.endswith_char X "/" then "" else "/".

(** In a log (the latest event first), every pause comes right after a
    write and every write is followed at once by a pause. *)
Fixpoint pauses_follow_writes (log : list event) : bool :=
  match log with
  | [] => true
  | Sleep :: Wrote _ :: log' => pauses_follow_writes log'
  | Sleep :: _ => false
  | Wrote _ :: _ => false
  | _ :: log' => pauses_follow_writes log'
  end.

Fixpoint count_sleeps (log : list event) : nat :=
  match log with
  | [] => 0
  | Sleep :: log' => S (count_sleeps log')
  | _ :: log' => count_sleeps log'
  end.

Fixpoint count_writes (log : list event) : nat :=
  match log with
  | [] => 0
  | Wrote _ :: log' => S (count_writes log')
  | _ :: log' => count_writes log'
  end.

(** The pauses of a log are as many as its writes, and in the right
    places. *)
Definition paced (log : list event) : Prop :=
  pauses_follow_writes log = true /\ count_sleeps log = count_writes log.

(** A path the operating system resolves as [os.path.normpath] reads
    it: no component is [.] or [..], and it does not end in a separator
    unless it is made of separators only. *)
Definition literal (p : string) : bool :=
  forallb (fun c => negb (String.eqb c ".") && negb (String.eqb c ".."))
    (Py.split "/" p)
  && (negb (Py.endswith_char p "/") || String.eqb (Py.lstrip "/" p) "").

(** A file name without extension, as [os.path.splitext] sees it: every
    dot it holds is one of its leading dots. *)
Definition extensionless (name : string) : Prop :=
  exists dots stem,
    name = dots ++ stem /\ OsPath.all_dots dots = true /\ Py.mem_char "." stem = false.

(** A file name with an extension: a dot that something other than a
    dot stands before, and no dot after it. *)
Definition with_extension (name : string) : Prop :=
  exists pre suf,
    name = pre ++ "." ++ suf /\ OsPath.all_dots pre = false /\ Py.mem_char "." suf = false.

(** ** Scenarios

    The inputs the statements below are evaluated at: a seed address, a
    site (what the archive answers) and an empty disk. *)

Module Scenario.

Definition seed : string :=
  "https://web.archive.org/web/20250408214013/https://example.com/".
Definition about : string :=
  "https://web.archive.org/web/20250408214013/https://example.com/about".

(** The seed's markup, [<a href=(about)>About</a>] with the address in
    double quotes. *)
Definition home_page : string := "<a href=" ++ dq ++ about ++ dq ++ ">About</a>".
Definition about_page : string := "<h1>About</h1>".

Definition not_found : http_result := Response 404 "" None.

(** Both addresses are served as HTML. *)
Definition site : session_t :=
  fun url =>
    if String.eqb url seed then Response 200 home_page (Some "text/html")
    else if String.eqb url about then Response 200 about_page (Some "text/html")
    else not_found.

(** A link whose original address has an unclosed bracket in its host. *)
Definition trap : string := "https://web.archive.org/web/20250408214013/http://[/".
Definition trap_page : string := "<a href='/web/20250408214013/http://[/'>x</a>".
Definition trap_site : session_t :=
  fun url =>
    if String.eqb url seed then Response 200 trap_page (Some "text/html")
    else not_found.

(** A resource without extension and one below it, both images. *)
Definition asset : string :=
  "https://web.archive.org/web/20250408214013/https://example.com/a".
Definition asset_below : string :=
  "https://web.archive.org/web/20250408214013/https://example.com/a/b.png".
Definition asset_site : session_t :=
  fun url =>
    if String.eqb url seed
    then Response 200 ("<img src='" ++ asset ++ "'><img src='" ++ asset_below ++ "'>")
           (Some "text/html")
    else if String.eqb url asset then Response 200 "PNG" (Some "image/png")
    else if String.eqb url asset_below then Response 200 "PNG" (Some "image/png")
    else not_found.

(** A cycle: [page_a] links to [page_b] and [page_b] links back. *)
Definition page_a : string := "https://web.archive.org/web/20250408214013/https://example.com/a.html".
Definition page_b : string := "https://web.archive.org/web/20250408214013/https://example.com/b.html".
Definition cycle_site : session_t :=
  fun url =>
    if String.eqb url page_a
    then Response 200 ("<a href='" ++ page_b ++ "'>b</a>") (Some "text/html")
    else if String.eqb url page_b
    then Response 200 ("<a href='" ++ page_a ++ "'>a</a>") (Some "text/html")
    else not_found.

(** An in-snapshot address whose original address has no scheme. *)
Definition bare : string :=
  "https://web.archive.org/web/20250408214013/example.com/about".

Definition contact : string :=
  "https://web.archive.org/web/20250408214013/https://example.com/contact".

Definition empty_disk : Fs.t := {| Fs.cwd := "/"; Fs.nodes := [] |}.

(** A set iterated in the order of insertion. *)
Definition insertion_order : list string -> list string := fun l => l.

End Scenario.

(** * Properties *)

(** ** The embedding on the examples of the source's comments *)

Example extract_plain :
  extract_original_url "https://web.archive.org/web/20250408214013/https://jamstash.io/"
  = Some "https://jamstash.io/".
Proof. reflexivity. Qed.

Example extract_modifier :
  extract_original_url
    "https://web.archive.org/web/20250408214013im_/https://jamstash.io/assets/logo.png"
  = Some "https://jamstash.io/assets/logo.png".
Proof. reflexivity. Qed.

Example extract_foreign :
  extract_original_url "https://example.com/" = None.
Proof. reflexivity. Qed.

Example local_path_root :
  guess_local_path any_host "out" "https://example.com/" (Some "text/html")
  = Ok "out/example.com/index.html".
Proof. reflexivity. Qed.

Example local_path_asset :
  guess_local_path any_host "out" "https://jamstash.io/assets/logo.png?v=2#x" None
  = Ok "out/jamstash.io/assets/logo.png".
Proof. reflexivity. Qed.

Example local_path_bad_bracket :
  guess_local_path any_host "out" "http://[/" None
  = Raise (ValueError "Invalid IPv6 URL").
Proof. reflexivity. Qed.

Example relpath_sibling :
  OsPath.relpath "/" "out/example.com/a/b.html" "out/example.com/c"
  = Ok "../a/b.html".
Proof. reflexivity. Qed.

Example links_example :
  find_links_to_follow
    ("<a HREF = '/web/20250408214013/https://e.com/a'>" ++
     "<img src=" ++ dq ++ "//web.archive.org/web/20250408214013im_/https://e.com/i.png" ++ dq ++
     " srcset='/web/20250408214013/https://e.com/1.png 1x, /web/2019/https://e.com/2.png 2x'>" ++
     "<p style='background: url( /web/20250408214013/https://e.com/bg.gif )'>" ++
     "<a href='https://e.com/b'><a href='mailto:x@e.com'>")
  = [ "https://web.archive.org/web/20250408214013/https://e.com/a";
      "https://web.archive.org/web/20250408214013im_/https://e.com/i.png";
      "https://web.archive.org/web/20250408214013/https://e.com/1.png";
      "https://web.archive.org/web/20250408214013/https://e.com/bg.gif" ].
Proof. vm_compute. reflexivity. Qed.

(** ** Strings *)

Lemma append_nil_r (s : string) : s ++ "" = s.
Proof. induction s as [|c s IH]; simpl; [reflexivity | now rewrite IH]. Qed.

Lemma append_assoc (a b c : string) : (a ++ b) ++ c = a ++ (b ++ c).
Proof. induction a as [|x a IH]; simpl; [reflexivity | now rewrite IH]. Qed.

Lemma length_append (a b : string) :
  String.length (a ++ b) = String.length a + String.length b.
Proof. induction a as [|x a IH]; simpl; [reflexivity | now rewrite IH]. Qed.

Lemma prefix_append (p r : string) : String.prefix p (p ++ r) = true.
Proof.
  induction p as [|c p IH]; simpl; [now destruct r |].
  destruct (ascii_dec c c) as [_|n]; [exact IH | now elim n].
Qed.

Lemma prefix_inv (p s : string) :
  String.prefix p s = true -> exists r, s = p ++ r.
Proof.
  revert s. induction p as [|c p IH]; intros s H.
  - exists s. reflexivity.
  - destruct s as [|d s]; simpl in H; [discriminate |].
    destruct (ascii_dec c d) as [->|]; [| discriminate].
    destruct (IH s H) as [r ->]. exists r. reflexivity.
Qed.

Lemma drop_append (p r : string) : Py.drop (String.length p) (p ++ r) = r.
Proof. induction p as [|c p IH]; simpl; [now destruct r | exact IH]. Qed.

Lemma take_append (p r : string) : Py.take (String.length p) (p ++ r) = p.
Proof. induction p as [|c p IH]; simpl; [now destruct r | now rewrite IH]. Qed.

Lemma take_all (s : string) : Py.take (String.length s) s = s.
Proof. rewrite <- (append_nil_r s) at 2. apply take_append. Qed.

Lemma in_snapshot_inv (u : string) :
  is_in_snapshot u = true -> exists r, u = WAYBACK_PREFIX ++ r.
Proof. apply prefix_inv. Qed.

(** ** Local path mapper and content type (C1) *)

(** C1 as stated fails: for the extensionless address
    [https://example.com/about] the mapper gives a different path with
    the content type [text/html] (the fetch destination) than with none
    (the rewrite target of a link to it). *)
Lemma content_type_changes_path :
  extract_original_url
    "https://web.archive.org/web/20250408214013/https://example.com/about"
  = Some "https://example.com/about"
  /\ guess_local_path any_host "out" "https://example.com/about" (Some "text/html")
     = Ok "out/example.com/about.html"
  /\ guess_local_path any_host "out" "https://example.com/about" None
     = Ok "out/example.com/about".
Proof. repeat split; reflexivity. Qed.

(** ** Fetch collaborator (C5) *)

(** C5 as stated fails: a response with status 204, which is in the 2xx
    range, is a failure for [fetch]. *)
Lemma fetch_fails_on_204 :
  (200 <= 204 < 300)%Z
  /\ fetch "https://web.archive.org/web/20250408214013/https://example.com/"
       (fun _ => Response 204 "" (Some "text/html"))
     = (None, None).
Proof. split; [lia | reflexivity]. Qed.

(** C5 (amended).  [fetch] returns failure (no bytes, no content type)
    if and only if the request raised or the response status is not
    exactly 200; for every response with status 200 it returns the
    response bytes together with the content-type header, which may be
    absent. *)
Theorem fetch_fails_iff_not_200 :
  forall (archived_url : string) (session : session_t),
    (fetch archived_url session = (None, None) <->
     session archived_url = RequestException \/
     exists status_code content content_type,
       session archived_url = Response status_code content content_type
       /\ status_code <> 200%Z)
    /\ (forall content content_type,
          session archived_url = Response 200 content content_type ->
          fetch archived_url session = (Some content, content_type)).
Proof.
  intros archived_url session. unfold fetch. split.
  - destruct (session archived_url) as [st c ct|] eqn:E.
    + destruct (Z.eqb_spec st 200) as [->|Hne].
      * split; [discriminate |].
        intros [H|(st' & c' & ct' & H & Hne)]; [discriminate |].
        injection H as <- _ _. now elim Hne.
      * split; [| reflexivity].
        intros _. right. now exists st, c, ct.
    + split; [now left | reflexivity].
  - intros content content_type ->. reflexivity.
Qed.

(** ** The end-to-end scenario (C2) *)

Lemma small_sets_iterate_alike (iter_order : list string -> list string) :
  (forall l, Permutation (iter_order l) l) ->
  iter_order
  = fun l => match l with
             | [] => []
             | [x] => [x]
             | _ => iter_order l
             end.
Proof.
  intros H. apply functional_extensionality. intros [|x [|y l]].
  - apply Permutation_nil, Permutation_sym, H.
  - apply Permutation_length_1_inv, Permutation_sym, H.
  - reflexivity.
Qed.

(** C2 as stated fails: after the crawl of the scenario's site the
    document of the seed holds [href=about] (quoted), not
    [href=about/index.html], and the page of the link is written to
    [outputDir/example.com/about.html]; there is no
    [outputDir/example.com/about/index.html]. *)
Lemma about_is_not_written_as_index :
  exists final,
    crawl any_host Scenario.insertion_order Scenario.site 4
      Scenario.seed "outputDir" Scenario.empty_disk = Some (Finished, final)
    /\ Fs.read_file (fs final) "outputDir/example.com/index.html"
       = Some ("<a href=" ++ dq ++ "about" ++ dq ++ ">About</a>")
    /\ Py.contains ("<a href=" ++ dq ++ "about" ++ dq ++ ">About</a>")
         ("href=" ++ dq ++ "about/index.html" ++ dq) = false
    /\ Fs.exists_ (fs final) "outputDir/example.com/about/index.html" = false
    /\ Fs.read_file (fs final) "outputDir/example.com/about.html"
       = Some Scenario.about_page.
Proof. eexists. split; [vm_compute; reflexivity |]. repeat split. Qed.

(** C2 (amended).  For the seed address
    [https://web.archive.org/web/20250408214013/https://example.com/]
    whose markup holds a double-quoted [href] to the archived address of
    [https://example.com/about], that link also served as HTML, the crawl
    returns having written [outputDir/example.com/index.html], in which a
    relative path stands in the place of the archived address, and
    [outputDir/example.com/about.html], whatever the order in which the
    sets of links are iterated. *)
Theorem scenario_mirror :
  forall (bracketed_host_ok : string -> bool) (iter_order : list string -> list string),
    (forall l, Permutation (iter_order l) l) ->
    exists final rel,
      crawl bracketed_host_ok iter_order Scenario.site 4
        Scenario.seed "outputDir" Scenario.empty_disk = Some (Finished, final)
      /\ Fs.read_file (fs final) "outputDir/example.com/index.html"
         = Some ("<a href=" ++ dq ++ rel ++ dq ++ ">About</a>")
      /\ OsPath.isabs rel = false
      /\ Py.contains rel "://" = false
      /\ Fs.read_file (fs final) "outputDir/example.com/about.html"
         = Some Scenario.about_page.
Proof.
  intros bho iter_order H.
  rewrite (small_sets_iterate_alike iter_order H).
  eexists. exists "about".
  split; [vm_compute; reflexivity |]. repeat split.
Qed.

Lemma scenario_mirror_witness :
  exists final rel,
    crawl any_host Scenario.insertion_order Scenario.site 4
      Scenario.seed "outputDir" Scenario.empty_disk = Some (Finished, final)
    /\ Fs.read_file (fs final) "outputDir/example.com/index.html"
       = Some ("<a href=" ++ dq ++ rel ++ dq ++ ">About</a>")
    /\ OsPath.isabs rel = false
    /\ Py.contains rel "://" = false
    /\ Fs.read_file (fs final) "outputDir/example.com/about.html"
       = Some Scenario.about_page.
Proof.
  apply (scenario_mirror any_host Scenario.insertion_order).
  intros l. apply Permutation_refl.
Defined.

(** ** Containment of failures (C4) *)

(** C4, the failing input.  The seed's markup holds a link whose
    original address has an unclosed bracket in its host; building the
    replacement map, [urlparse] raises [ValueError] and nothing catches
    it: the run ends there, the seed's document unwritten and the link
    still on the frontier. *)
Theorem malformed_link_aborts_crawl :
  exists final,
    crawl any_host Scenario.insertion_order Scenario.trap_site 4
      Scenario.seed "outputDir" Scenario.empty_disk
    = Some (Uncaught (ValueError "Invalid IPv6 URL"), final)
    /\ is_in_snapshot Scenario.seed = true
    /\ q final = [Scenario.trap]
    /\ Fs.exists_ (fs final) "outputDir/example.com/index.html" = false.
Proof. eexists. split; [vm_compute; reflexivity |]. repeat split. Qed.

(** ** The matcher on the archived-address pattern (C8) *)

Lemma last_char_cons c lit : exists d, Py.last_char (String c lit) = Some d.
Proof.
  revert c. induction lit as [|a lit IH]; intros c; [now exists c |].
  destruct (IH a) as [d Hd]. exists d. exact Hd.
Qed.

Lemma last_or_cons p c lit : last_or p (String c lit) = last_or (Some c) lit.
Proof.
  unfold last_or. destruct lit as [|a lit]; [reflexivity |].
  destruct (last_char_cons a lit) as [d Hd].
  change (Py.last_char (String c (String a lit))) with (Py.last_char (String a lit)).
  now rewrite Hd.
Qed.

Lemma rmatch_str fl lit k p r cs :
  Re.ignorecase fl = false ->
  Re.rmatch fl (Re.Str lit) k {| Re.prev := p; Re.rest := lit ++ r; Re.caps := cs |}
  = k {| Re.prev := last_or p lit; Re.rest := r; Re.caps := cs |}.
Proof.
  intros Hfl. revert p. induction lit as [|c lit IH]; intros p.
  - reflexivity.
  - simpl. unfold Re.step. simpl. unfold Re.chr_eq. rewrite Hfl, Ascii.eqb_refl.
    rewrite IH, last_or_cons. reflexivity.
Qed.

Lemma star_loop_greedy (p : ascii -> bool) k l r cs x :
  all_chars p l = true -> stops p r ->
  forall n pv,
    String.length l <= n ->
    k {| Re.prev := last_or pv l; Re.rest := r; Re.caps := cs |} = Some x ->
    Re.star_loop (Re.step p) true k n {| Re.prev := pv; Re.rest := l ++ r; Re.caps := cs |}
    = Some x.
Proof.
  intros Hl Hr. induction l as [|c l IH]; intros n pv Hn Hk.
  - destruct n as [|n]; simpl; [exact Hk |].
    unfold Re.step. simpl. destruct r as [|d r]; [exact Hk |].
    simpl in Hr. rewrite Hr. exact Hk.
  - destruct n as [|n]; [simpl in Hn; lia |].
    simpl in Hl. apply andb_prop in Hl as [Hc Hl].
    simpl. unfold Re.step at 1. simpl. rewrite Hc.
    replace (String.length (l ++ r) <? S (String.length (l ++ r))) with true
      by (symmetry; apply Nat.ltb_lt; lia).
    rewrite (IH Hl n (Some c)); [reflexivity | simpl in Hn; lia |].
    now rewrite <- (last_or_cons pv).
Qed.


Lemma rmatch_cat fl r1 r2 k s :
  Re.rmatch fl (Re.Cat r1 r2) k s = Re.rmatch fl r1 (Re.rmatch fl r2 k) s.
Proof. reflexivity. Qed.

Lemma rmatch_chr fl c k p r cs :
  Re.ignorecase fl = false ->
  Re.rmatch fl (Re.Chr c) k {| Re.prev := p; Re.rest := String c r; Re.caps := cs |}
  = k {| Re.prev := Some c; Re.rest := r; Re.caps := cs |}.
Proof.
  intros Hfl. simpl. unfold Re.step, Re.chr_eq. simpl. now rewrite Hfl, Ascii.eqb_refl.
Qed.

Lemma rmatch_opt_taken fl c k p r cs x :
  Re.ignorecase fl = false ->
  k {| Re.prev := Some c; Re.rest := r; Re.caps := cs |} = Some x ->
  Re.rmatch fl (Re.Opt true (Re.Chr c)) k
    {| Re.prev := p; Re.rest := String c r; Re.caps := cs |} = Some x.
Proof.
  intros Hfl Hk. unfold Re.Opt.
  change (match Re.rmatch fl (Re.Chr c) k
                  {| Re.prev := p; Re.rest := String c r; Re.caps := cs |} with
          | Some s' => Some s'
          | None => Re.rmatch fl Re.Eps k
                      {| Re.prev := p; Re.rest := String c r; Re.caps := cs |}
          end = Some x).
  now rewrite rmatch_chr, Hk.
Qed.

Lemma rmatch_opt_skipped fl c k p d r cs :
  Re.ignorecase fl = false -> d <> c ->
  Re.rmatch fl (Re.Opt true (Re.Chr c)) k
    {| Re.prev := p; Re.rest := String d r; Re.caps := cs |}
  = k {| Re.prev := p; Re.rest := String d r; Re.caps := cs |}.
Proof.
  intros Hfl Hd. simpl. unfold Re.step, Re.chr_eq. simpl. rewrite Hfl.
  destruct (Ascii.eqb_spec c d) as [->|_]; [now elim Hd | reflexivity].
Qed.

Lemma rmatch_times fl p l :
  all_chars p l = true ->
  forall k pv r cs,
    Re.rmatch fl (Re.Times (String.length l) (Re.Cls p)) k
      {| Re.prev := pv; Re.rest := l ++ r; Re.caps := cs |}
    = k {| Re.prev := last_or pv l; Re.rest := r; Re.caps := cs |}.
Proof.
  induction l as [|c l IH]; intros Hl k pv r cs; [reflexivity |].
  simpl in Hl. apply andb_prop in Hl as [Hc Hl].
  simpl. unfold Re.step at 1. simpl. rewrite Hc.
  rewrite (IH Hl), (last_or_cons pv). reflexivity.
Qed.

Lemma rmatch_star_class fl p k l r cs x pv :
  all_chars p l = true -> stops p r ->
  k {| Re.prev := last_or pv l; Re.rest := r; Re.caps := cs |} = Some x ->
  Re.rmatch fl (Re.Star true (Re.Cls p)) k
    {| Re.prev := pv; Re.rest := l ++ r; Re.caps := cs |} = Some x.
Proof.
  intros Hl Hr Hk.
  change (Re.star_loop (Re.step p) true k (String.length (l ++ r))
            {| Re.prev := pv; Re.rest := l ++ r; Re.caps := cs |} = Some x).
  apply star_loop_greedy; try assumption.
  rewrite length_append. lia.
Qed.

Lemma rmatch_plus_any fl k c l cs x pv :
  all_chars not_newline (String c l) = true ->
  k {| Re.prev := last_or (Some c) l; Re.rest := ""; Re.caps := cs |} = Some x ->
  Re.rmatch fl (Re.Plus true Re.Any) k
    {| Re.prev := pv; Re.rest := String c l; Re.caps := cs |} = Some x.
Proof.
  intros Hl Hk. simpl in Hl. apply andb_prop in Hl as [Hc Hl].
  unfold Re.Plus. rewrite rmatch_cat.
  change (Re.rmatch fl Re.Any) with (Re.step (fun d => Re.dotall fl || negb (Ascii.eqb d Re.newline))).
  unfold Re.step at 1. simpl.
  unfold not_newline in Hc. rewrite Hc, orb_true_r.
  change (Re.star_loop (Re.step (fun d => Re.dotall fl || negb (Ascii.eqb d Re.newline)))
            true k (String.length l)
            {| Re.prev := Some c; Re.rest := l; Re.caps := cs |} = Some x).
  rewrite <- (append_nil_r l) at 2.
  apply star_loop_greedy; try assumption.
  - clear -Hl. induction l as [|a l IH]; [reflexivity |].
    simpl in *. apply andb_prop in Hl as [Ha Hl]. unfold not_newline in Ha.
    now rewrite Ha, orb_true_r, IH.
  - exact I.
  - lia.
Qed.

Lemma web_address_inv O :
  web_address O = true ->
  exists c tail, O = "http://" ++ String c tail \/ O = "https://" ++ String c tail.
Proof.
  unfold web_address. intros H.
  apply orb_prop in H as [H|H]; apply andb_prop in H as [Hp Hl];
    apply prefix_inv in Hp as [r ->]; apply Nat.ltb_lt in Hl;
    rewrite length_append in Hl; simpl in Hl;
    (destruct r as [|c tail]; [simpl in Hl; lia |]); exists c, tail; [now left | now right].
Qed.

Lemma last_char_last_or c tail : Py.last_char (String c tail) = last_or (Some c) tail.
Proof.
  unfold last_or. destruct tail as [|a tail]; [reflexivity |].
  destruct (last_char_cons a tail) as [d Hd].
  change (Py.last_char (String c (String a tail))) with (Py.last_char (String a tail)).
  now rewrite Hd.
Qed.

Lemma rmatch_tail O k pv cs x :
  web_address O = true ->
  all_chars not_newline O = true ->
  k {| Re.prev := Py.last_char O; Re.rest := ""; Re.caps := cs |} = Some x ->
  Re.rmatch no_flags original_tail k {| Re.prev := pv; Re.rest := O; Re.caps := cs |} = Some x.
Proof.
  intros HO Hnl Hk. unfold original_tail.
  destruct (web_address_inv O HO) as (c & tail & [-> | ->]).
  - change ("http://" ++ String c tail) with ("http" ++ ("://" ++ String c tail)).
    rewrite rmatch_cat, (rmatch_str no_flags "http") by reflexivity.
    rewrite rmatch_cat. cbn [append].
    rewrite rmatch_opt_skipped by (reflexivity || discriminate).
    rewrite rmatch_cat, (rmatch_str no_flags "://" _ _ (String c tail)) by reflexivity.
    apply rmatch_plus_any; [exact Hnl | rewrite <- last_char_last_or; exact Hk].
  - change ("https://" ++ String c tail) with ("http" ++ String "s" ("://" ++ String c tail)).
    rewrite rmatch_cat, (rmatch_str no_flags "http") by reflexivity.
    rewrite rmatch_cat. apply rmatch_opt_taken; [reflexivity |].
    rewrite rmatch_cat, (rmatch_str no_flags "://") by reflexivity.
    apply rmatch_plus_any; [exact Hnl | rewrite <- last_char_last_or; exact Hk].
Qed.

(** C8 as stated fails: an original address with another scheme is not
    recovered, and one that ends in a line feed comes back without it. *)
Lemma other_addresses_do_not_round_trip :
  extract_original_url
    ("https://web.archive.org/web/" ++ SNAPSHOT_TIMESTAMP ++ "" ++ "/"
     ++ "ftp://example.com/pub/readme.txt") = None
  /\ extract_original_url
       ("https://web.archive.org/web/" ++ SNAPSHOT_TIMESTAMP ++ "im_" ++ "/"
        ++ "https://example.com/" ++ UrlParse.lf) = Some "https://example.com/".
Proof. split; reflexivity. Qed.

(** C8 (amended).  [extract_original_url] round-trips on web addresses:
    for every original address [O] that starts with [http://] or
    [https://] in lower case, has at least one character after that and
    holds no line feed, and for every modifier [m] made of the
    characters [a-z], [_] and [-] (the empty one included), the archived
    address ['https://web.archive.org/web/' + 20250408214013 + m + '/' + O]
    is mapped back to exactly [O]. *)
Theorem extract_original_url_round_trip :
  forall O m : string,
    web_address O = true ->
    all_chars not_newline O = true ->
    all_chars modifier_char m = true ->
    extract_original_url
      ("https://web.archive.org/web/" ++ SNAPSHOT_TIMESTAMP ++ m ++ "/" ++ O) = Some O.
Proof.
  intros O m HO Hnl Hm.
  assert (Hgoal :
    Re.rmatch no_flags archived_pattern Some
      {| Re.prev := None;
         Re.rest := "https://web.archive.org/web/" ++ SNAPSHOT_TIMESTAMP ++ m ++ "/" ++ O;
         Re.caps := [] |}
    = Some {| Re.prev := Py.last_char O; Re.rest := ""; Re.caps := [(1, O)] |}).
  2: { unfold extract_original_url, Re.match_. rewrite Hgoal. reflexivity. }
  unfold archived_pattern.
  rewrite rmatch_cat. change (Re.rmatch no_flags Re.Bos ?k ?s) with (k s).
  change ("https://web.archive.org/web/" ++ SNAPSHOT_TIMESTAMP ++ m ++ "/" ++ O)
    with ("http" ++ String "s" ("://web.archive.org/web/"
                                ++ ("20250408214013" ++ (m ++ String "/" O)))).
  rewrite rmatch_cat, (rmatch_str no_flags "http") by reflexivity.
  rewrite rmatch_cat. apply rmatch_opt_taken; [reflexivity |].
  rewrite rmatch_cat, (rmatch_str no_flags "://web.archive.org/web/") by reflexivity.
  rewrite rmatch_cat. change 14 with (String.length "20250408214013").
  rewrite rmatch_times by reflexivity.
  rewrite rmatch_cat. apply rmatch_star_class; [exact Hm | reflexivity |].
  rewrite rmatch_cat, rmatch_chr by reflexivity.
  rewrite rmatch_cat.
  change (Re.rmatch no_flags (Re.Grp 1 original_tail) ?k ?s)
    with (Re.rmatch no_flags original_tail
            (fun s1 =>
               k {| Re.prev := Re.prev s1; Re.rest := Re.rest s1;
                    Re.caps :=
                      (1, Py.take (String.length (Re.rest s) - String.length (Re.rest s1))
                            (Re.rest s)) :: Re.caps s1 |}) s).
  apply rmatch_tail; [exact HO | exact Hnl |].
  simpl. rewrite Nat.sub_0_r, take_all. reflexivity.
Qed.

Lemma extract_original_url_round_trip_witness :
  web_address "https://jamstash.io/assets/logo.png" = true
  /\ all_chars not_newline "https://jamstash.io/assets/logo.png" = true
  /\ all_chars modifier_char "im_" = true
  /\ extract_original_url
       ("https://web.archive.org/web/" ++ SNAPSHOT_TIMESTAMP ++ "im_" ++ "/"
        ++ "https://jamstash.io/assets/logo.png")
     = Some "https://jamstash.io/assets/logo.png".
Proof.
  repeat (split; [reflexivity |]).
  apply (extract_original_url_round_trip "https://jamstash.io/assets/logo.png" "im_");
    reflexivity.
Defined.

(** ** [str.replace] *)

Lemma drop_length k t : String.length (Py.drop k t) <= String.length t.
Proof.
  revert t. induction k as [|k IH]; intros [|x t]; simpl; auto.
Qed.

Lemma replace_scan_fuel old new : old <> "" ->
  forall n m s, String.length s <= n -> String.length s <= m ->
    Py.replace_scan n old new s = Py.replace_scan m old new s.
Proof.
  intros Hold. induction n as [|n IH]; intros m s Hn Hm.
  - destruct s; [now destruct m | simpl in Hn; lia].
  - destruct s as [|c s]; [now destruct m |].
    destruct m as [|m]; [simpl in Hm; lia |].
    simpl in Hn, Hm. cbn [Py.replace_scan].
    destruct (String.prefix old (String c s)).
    + destruct old as [|o old]; [now elim Hold |].
      cbn [String.length Py.drop].
      pose proof (drop_length (String.length old) s) as Hd.
      f_equal. apply IH; lia.
    + f_equal. apply IH; lia.
Qed.

Lemma replace_cons old new c s : old <> "" ->
  Py.replace old new (String c s)
  = if String.prefix old (String c s)
    then new ++ Py.replace old new (Py.drop (String.length old) (String c s))
    else String c (Py.replace old new s).
Proof.
  intros Hold. destruct old as [|o old]; [now elim Hold |].
  unfold Py.replace. cbn [String.length Py.replace_scan Py.drop].
  pose proof (drop_length (String.length old) s) as Hd.
  destruct (String.prefix (String o old) (String c s)); f_equal.
  apply replace_scan_fuel; [discriminate | lia | lia].
Qed.

Lemma replace_nil old new : old <> "" -> Py.replace old new "" = "".
Proof. destruct old; [intros H; now elim H | reflexivity]. Qed.

(** ** Path mapping of an address without a recoverable original (C6) *)

Lemma remove_one_cons c d s : Ascii.eqb d c = false ->
  Py.replace (String c "") "" (String d s) = String d (Py.replace (String c "") "" s).
Proof.
  intros H. rewrite replace_cons by discriminate. simpl.
  destruct (ascii_dec c d) as [->|_]; [now rewrite Ascii.eqb_refl in H | reflexivity].
Qed.

Lemma remove_unsafe_cons d s : safe_char d = true ->
  UrlParse.remove_unsafe (String d s) = String d (UrlParse.remove_unsafe s).
Proof.
  unfold safe_char. intros H.
  apply andb_prop in H as [H H3]. apply andb_prop in H as [H1 H2].
  apply negb_true_iff in H1, H2, H3.
  unfold UrlParse.remove_unsafe, UrlParse.tab, UrlParse.cr, UrlParse.lf.
  now rewrite !remove_one_cons.
Qed.

Lemma remove_unsafe_app p r : all_chars safe_char p = true ->
  UrlParse.remove_unsafe (p ++ r) = p ++ UrlParse.remove_unsafe r.
Proof.
  induction p as [|c p IH]; intros H; [reflexivity |].
  simpl in H. apply andb_prop in H as [Hc Hp].
  simpl. now rewrite remove_unsafe_cons, IH.
Qed.

Lemma index_from_bounds c s i :
  Py.index_from c s i = (-1)%Z \/ (i <= Py.index_from c s i)%Z.
Proof.
  revert i. induction s as [|d s IH]; intros i; simpl; [now left |].
  destruct (Ascii.eqb d c); [right; lia |].
  destruct (IH (i + 1)%Z) as [H|H]; [now left | right; lia].
Qed.


Lemma splitnetloc_host r :
  UrlParse.splitnetloc ("//web.archive.org/web/20250408214013" ++ r) 2
  = ("web.archive.org", "/web/20250408214013" ++ r).
Proof.
  unfold UrlParse.splitnetloc.
  set (url := "//web.archive.org/web/20250408214013" ++ r).
  assert (Hlen : (36 <= Z.of_nat (String.length url))%Z).
  { subst url. rewrite length_append. simpl String.length. lia. }
  replace (Py.find_from "/" url 2) with 17%Z by reflexivity.
  replace (Py.find_from "?" url 2) with (Py.index_from "?" r 36) by reflexivity.
  replace (Py.find_from "#" url 2) with (Py.index_from "#" r 36) by reflexivity.
  assert (Hd : (if (0 <=? Py.index_from "#" r 36)%Z
                then Z.min (if (0 <=? Py.index_from "?" r 36)%Z
                            then Z.min (if (0 <=? 17)%Z then Z.min (Z.of_nat (String.length url)) 17
                                        else Z.of_nat (String.length url))
                                   (Py.index_from "?" r 36)
                            else if (0 <=? 17)%Z then Z.min (Z.of_nat (String.length url)) 17
                                 else Z.of_nat (String.length url))
                       (Py.index_from "#" r 36)
                else if (0 <=? Py.index_from "?" r 36)%Z
                     then Z.min (if (0 <=? 17)%Z then Z.min (Z.of_nat (String.length url)) 17
                                 else Z.of_nat (String.length url))
                            (Py.index_from "?" r 36)
                     else if (0 <=? 17)%Z then Z.min (Z.of_nat (String.length url)) 17
                          else Z.of_nat (String.length url)) = 17%Z).
  { change (0 <=? 17)%Z with true. cbv iota.
    destruct (index_from_bounds "?" r 36) as [-> | H1];
    destruct (index_from_bounds "#" r 36) as [-> | H2];
    repeat match goal with
           | |- context [(0 <=? ?x)%Z] => destruct (Z.leb_spec 0 x)
           end; lia. }
  cbv zeta. rewrite Hd. reflexivity.
Qed.

Lemma urlsplit_in_snapshot bho r :
  exists p q f,
  UrlParse.urlsplit bho (WAYBACK_PREFIX ++ r)
  = Ok {| UrlParse.scheme := "https"; UrlParse.netloc := "web.archive.org";
          UrlParse.path := p; UrlParse.params := ""; UrlParse.query := q; UrlParse.fragment := f |}.
Proof.
  unfold UrlParse.urlsplit.
  change (UrlParse.lstrip_c0 (WAYBACK_PREFIX ++ r)) with (WAYBACK_PREFIX ++ r).
  rewrite remove_unsafe_app by reflexivity.
  set (r' := UrlParse.remove_unsafe r).
  replace (Py.find ":" (WAYBACK_PREFIX ++ r')) with 5%Z by reflexivity.
  replace (UrlParse.first_char_ok (WAYBACK_PREFIX ++ r')) with true by reflexivity.
  replace (Py.slice_to (WAYBACK_PREFIX ++ r') 5) with "https" by reflexivity.
  replace (Py.slice_from (WAYBACK_PREFIX ++ r') (5 + 1))
    with ("//web.archive.org/web/20250408214013" ++ r') by reflexivity.
  replace ((0 <? 5)%Z && true && UrlParse.all_in "https" UrlParse.scheme_chars)
    with true by reflexivity.
  cbv iota beta zeta.
  replace (Py.slice_to ("//web.archive.org/web/20250408214013" ++ r') 2) with "//"
    by reflexivity.
  change ("//" =? "//")%string with true. cbv iota.
  rewrite splitnetloc_host.
  replace (Py.mem_char "[" "web.archive.org") with false by reflexivity.
  replace (Py.mem_char "]" "web.archive.org") with false by reflexivity.
  cbn [andb orb negb bind].
  destruct (Py.mem_char "#" ("/web/20250408214013" ++ r'));
    match goal with |- context [Py.mem_char "?" ?u] => destruct (Py.mem_char "?" u) end;
    do 3 eexists; reflexivity.
Qed.

Lemma urlparse_in_snapshot bho r :
  exists parsed,
    UrlParse.urlparse bho (WAYBACK_PREFIX ++ r) = Ok parsed
    /\ UrlParse.netloc parsed = "web.archive.org".
Proof.
  destruct (urlsplit_in_snapshot bho r) as (p & q & f & E).
  unfold UrlParse.urlparse. rewrite E. cbn [bind].
  match goal with |- context [if ?b then _ else _] => destruct b end;
    [destruct (UrlParse.splitparams _) as [u' p'] |]; eexists; split; reflexivity.
Qed.


(** ** Link rewriter (C7) *)

Lemma prefix_nil s : String.prefix "" s = true.
Proof. now destruct s. Qed.

Lemma prefix_sep old d a b :
  Py.mem_char d old = false ->
  String.prefix old (a ++ String d b) = String.prefix old a.
Proof.
  revert a. induction old as [|o old IH]; intros a H.
  - now rewrite !prefix_nil.
  - simpl in H. apply orb_false_elim in H as [Hd Ho].
    destruct a as [|c a]; simpl.
    + destruct (ascii_dec o d) as [->|_]; [now rewrite Ascii.eqb_refl in Hd | reflexivity].
    + destruct (ascii_dec o c); [now apply IH | reflexivity].
Qed.

Lemma prefix_at_sep old d b :
  old <> "" -> Py.mem_char d old = false -> String.prefix old (String d b) = false.
Proof.
  intros Hold Hd. destruct old as [|o old]; [now elim Hold |].
  simpl in *. apply orb_false_elim in Hd as [Hd _].
  destruct (ascii_dec o d) as [->|_]; [now rewrite Ascii.eqb_refl in Hd | reflexivity].
Qed.

Lemma prefix_length p s : String.prefix p s = true -> String.length p <= String.length s.
Proof. intros H. apply prefix_inv in H as [r ->]. rewrite length_append. lia. Qed.

Lemma drop_app_le n a b :
  n <= String.length a -> Py.drop n (a ++ b) = Py.drop n a ++ b.
Proof.
  revert a. induction n as [|n IH]; intros a H; [reflexivity |].
  destruct a as [|c a]; [simpl in H; lia |].
  simpl. apply IH. simpl in H. lia.
Qed.

Lemma replace_sep old new d : old <> "" -> Py.mem_char d old = false ->
  forall n a b, String.length a <= n ->
    Py.replace old new (a ++ String d b)
    = Py.replace old new a ++ String d (Py.replace old new b).
Proof.
  intros Hold Hd. induction n as [|n IH]; intros a b Hn.
  - destruct a as [|c a]; [| simpl in Hn; lia].
    simpl. rewrite replace_cons, (replace_nil _ _ Hold) by assumption.
    now rewrite prefix_at_sep.
  - destruct a as [|c a]; [apply (IH "" b); simpl; lia |].
    simpl in Hn.
    change (String c a ++ String d b) with (String c (a ++ String d b)).
    rewrite !replace_cons by assumption.
    change (String c (a ++ String d b)) with (String c a ++ String d b).
    rewrite (prefix_sep old d (String c a) b Hd).
    destruct (String.prefix old (String c a)) eqn:E.
    + pose proof (prefix_length _ _ E) as Hl.
      rewrite drop_app_le by exact Hl.
      rewrite IH, append_assoc; [reflexivity |].
      destruct old as [|o old]; [now elim Hold |].
      simpl. pose proof (drop_length (String.length old) a). lia.
    + simpl. now rewrite IH by lia.
Qed.

Lemma replace_absent old new s :
  old <> "" -> Py.contains s old = false -> Py.replace old new s = s.
Proof.
  intros Hold. induction s as [|c s IH]; intros H; [now apply replace_nil |].
  cbn [Py.contains] in H. apply orb_false_elim in H as [Hp Hc].
  now rewrite replace_cons, Hp, IH.
Qed.

Lemma replace_self old new : old <> "" -> Py.replace old new old = new.
Proof.
  intros Hold. destruct old as [|o old]; [now elim Hold |].
  pose proof (prefix_append (String o old) "") as Hp.
  pose proof (drop_append (String o old) "") as Hd.
  rewrite append_nil_r in Hp, Hd.
  rewrite replace_cons, Hp, Hd, replace_nil, append_nil_r by discriminate.
  reflexivity.
Qed.

Lemma contains_sep k d a b :
  k <> "" -> Py.mem_char d k = false ->
  Py.contains (a ++ String d b) k = Py.contains a k || Py.contains b k.
Proof.
  intros Hk Hd. induction a as [|c a IH].
  - cbn [append Py.contains]. rewrite prefix_at_sep by assumption.
    destruct k as [|o k]; [now elim Hk | reflexivity].
  - change (String c a ++ String d b) with (String c (a ++ String d b)).
    cbn [Py.contains].
    change (String c (a ++ String d b)) with (String c a ++ String d b).
    rewrite (prefix_sep k d (String c a) b Hd), IH. now rewrite orb_assoc.
Qed.

Lemma replace_doc old new first rest :
  old <> "" ->
  forallb (fun ds => negb (Py.mem_char (fst ds) old)) rest = true ->
  Py.replace old new (doc first rest)
  = doc (Py.replace old new first)
      (map (fun ds => (fst ds, Py.replace old new (snd ds))) rest).
Proof.
  intros Hold. revert first. induction rest as [|[d seg] rest IH]; intros first H.
  - reflexivity.
  - cbn [forallb fst] in H. apply andb_prop in H as [Hd Hr].
    apply negb_true_iff in Hd.
    cbn [doc map fst snd].
    rewrite (replace_sep old new d Hold Hd (String.length first)) by lia.
    now rewrite IH.
Qed.

Lemma contains_doc k first rest :
  k <> "" ->
  forallb (fun ds => negb (Py.mem_char (fst ds) k)) rest = true ->
  Py.contains (doc first rest) k
  = existsb (fun seg => Py.contains seg k) (first :: map snd rest).
Proof.
  intros Hk. revert first. induction rest as [|[d seg] rest IH]; intros first H.
  - cbn. now rewrite orb_false_r.
  - cbn [forallb fst] in H. apply andb_prop in H as [Hd Hr].
    apply negb_true_iff in Hd.
    cbn [doc map snd existsb]. rewrite contains_sep, IH by assumption. reflexivity.
Qed.

Lemma non_empty_ne s : OsPath.non_empty s = true -> s <> "".
Proof. now destruct s. Qed.

Lemma rewrite_cons s k v m : rewrite s ((k, v) :: m) = rewrite (Py.replace k v s) m.
Proof. reflexivity. Qed.

Lemma rewrite_doc m : forall first rest,
  forallb (fun kv => OsPath.non_empty (fst kv)) m = true ->
  forallb (fun ds => forallb (fun kv => negb (Py.mem_char (fst ds) (fst kv))) m) rest = true ->
  rewrite (doc first rest) m
  = doc (rewrite first m) (map (fun ds => (fst ds, rewrite (snd ds) m)) rest).
Proof.
  induction m as [|[k v] m IH]; intros first rest Hne Hsep.
  - cbn. f_equal. induction rest as [|[d s] rest IHr]; [reflexivity |].
    cbn. now rewrite <- IHr.
  - cbn [forallb fst] in Hne. apply andb_prop in Hne as [Hk Hne].
    rewrite rewrite_cons, replace_doc.
    + rewrite IH.
      * rewrite map_map. reflexivity.
      * exact Hne.
      * rewrite forallb_forall in *. intros ds Hds.
        apply in_map_iff in Hds as (ds0 & <- & Hds0).
        specialize (Hsep ds0 Hds0). cbn [forallb fst] in Hsep.
        apply andb_prop in Hsep as [_ Hsep]. exact Hsep.
    + now apply non_empty_ne.
    + rewrite forallb_forall in *. intros ds Hds.
      specialize (Hsep ds Hds). cbn [forallb fst] in Hsep.
      now apply andb_prop in Hsep as [Hsep _].
Qed.

Lemma rewrite_key_free m : forall s,
  forallb (fun kv => OsPath.non_empty (fst kv)) m = true ->
  key_free m s = true -> rewrite s m = s.
Proof.
  induction m as [|[k v] m IH]; intros s Hne Hs; [reflexivity |].
  cbn [forallb fst key_free] in Hne, Hs.
  apply andb_prop in Hne as [Hk Hne]. apply andb_prop in Hs as [Hks Hs].
  apply negb_true_iff in Hks.
  rewrite rewrite_cons, replace_absent; [now apply IH | now apply non_empty_ne | exact Hks].
Qed.

Lemma mem_In x l : mem x l = true <-> In x l.
Proof.
  unfold mem. rewrite existsb_exists. split.
  - intros (y & Hy & E). apply String.eqb_eq in E. now subst.
  - intros H. exists x. split; [exact H | apply String.eqb_refl].
Qed.

Lemma rewrite_key m : forall k v,
  In (k, v) m ->
  distinct (map fst m) = true ->
  forallb (fun kv => OsPath.non_empty (fst kv)) m = true ->
  forallb (fun kv => String.eqb (fst kv) k || negb (Py.contains k (fst kv))) m = true ->
  key_free m v = true ->
  rewrite k m = v.
Proof.
  induction m as [|[k1 v1] m IH]; intros k v Hin Hd Hne Hsub Hv; [now elim Hin |].
  cbn [map fst distinct forallb key_free] in Hd, Hne, Hsub, Hv.
  apply andb_prop in Hd as [Hk1 Hd]. apply andb_prop in Hne as [Hk1ne Hne].
  apply andb_prop in Hsub as [Hk1sub Hsub]. apply andb_prop in Hv as [Hk1v Hv].
  apply negb_true_iff in Hk1.
  rewrite rewrite_cons.
  destruct (String.eqb_spec k1 k) as [->|Hneq].
  - assert (v1 = v) as ->.
    { destruct Hin as [E|Hin]; [now injection E |].
      exfalso. apply (in_map fst) in Hin. apply mem_In in Hin. cbn in Hin. congruence. }
    rewrite replace_self by now apply non_empty_ne.
    apply rewrite_key_free; assumption.
  - destruct Hin as [E|Hin]; [injection E as -> _; now elim Hneq |].
    cbn [orb] in Hk1sub. apply negb_true_iff in Hk1sub.
    rewrite replace_absent; [| now apply non_empty_ne | exact Hk1sub].
    now apply IH.
Qed.

Lemma subst_rewrite m seg :
  nondegenerate m = true ->
  is_key m seg || key_free m seg = true ->
  rewrite seg m = subst m seg
  /\ key_free m (subst m seg) = true.
Proof.
  unfold nondegenerate. intros Hm Hseg.
  apply andb_prop in Hm as [Hm Hval]. apply andb_prop in Hm as [Hm Hsub].
  apply andb_prop in Hm as [Hd Hne].
  unfold subst.
  destruct (find (fun kv => String.eqb (fst kv) seg) m) as [[k v]|] eqn:E.
  - apply find_some in E as [Hin Hk]. cbn [fst snd] in *.
    apply String.eqb_eq in Hk. subst k.
    rewrite forallb_forall in Hval, Hsub.
    split; [| exact (Hval _ Hin)].
    apply rewrite_key; try assumption.
    + rewrite forallb_forall. intros kv Hkv.
      specialize (Hsub kv Hkv). rewrite forallb_forall in Hsub.
      exact (Hsub _ Hin).
    + exact (Hval _ Hin).
  - assert (Hnk : is_key m seg = false).
    { unfold is_key. apply not_true_is_false. intros H.
      apply existsb_exists in H as (kv & Hkv & Hk).
      now rewrite (find_none _ _ E kv Hkv) in Hk. }
    rewrite Hnk in Hseg. cbn [orb] in Hseg.
    split; [now apply rewrite_key_free | exact Hseg].
Qed.

Lemma rewrite_delimited (m : list (string * string)) (first : string)
  (rest : list (ascii * string)) :
  nondegenerate m = true ->
  delimited m first rest = true ->
  rewrite (doc first rest) m
  = doc (subst m first) (map (fun ds => (fst ds, subst m (snd ds))) rest)
  /\ key_free m (rewrite (doc first rest) m) = true.
Proof.
  intros Hm Hdel. unfold delimited in Hdel.
  apply andb_prop in Hdel as [Hsep Hseg].
  assert (Hne : forallb (fun kv => OsPath.non_empty (fst kv)) m = true).
  { unfold nondegenerate in Hm. apply andb_prop in Hm as [Hm _].
    apply andb_prop in Hm as [Hm _]. now apply andb_prop in Hm as [_ Hm]. }
  cbn [forallb] in Hseg. apply andb_prop in Hseg as [Hfirst Hrest].
  assert (E : rewrite (doc first rest) m
              = doc (subst m first) (map (fun ds => (fst ds, subst m (snd ds))) rest)).
  { rewrite rewrite_doc by assumption.
    rewrite (proj1 (subst_rewrite m first Hm Hfirst)). f_equal.
    apply map_ext_in. intros [d s] Hds. cbn [fst snd]. f_equal.
    apply subst_rewrite; [exact Hm |].
    rewrite forallb_forall in Hrest. apply Hrest.
    apply in_map_iff. now exists (d, s). }
  split; [exact E |].
  rewrite E. unfold key_free at 1. rewrite forallb_forall. intros [k v] Hkv. cbn [fst].
  apply negb_true_iff.
  rewrite contains_doc.
  - apply not_true_is_false. intros H.
    apply existsb_exists in H as (s' & Hs' & Hc).
    assert (Hfree : key_free m s' = true).
    { destruct Hs' as [<- | Hs'].
      - now apply subst_rewrite.
      - rewrite map_map in Hs'. cbn [snd] in Hs'.
        apply in_map_iff in Hs' as ([d s] & <- & Hds). cbn [snd].
        apply subst_rewrite; [exact Hm |].
        rewrite forallb_forall in Hrest. apply Hrest.
        apply in_map_iff. now exists (d, s). }
    unfold key_free in Hfree. rewrite forallb_forall in Hfree.
    specialize (Hfree _ Hkv). cbn [fst] in Hfree.
    now rewrite Hc in Hfree.
  - rewrite forallb_forall in Hne. apply non_empty_ne. exact (Hne _ Hkv).
  - rewrite forallb_forall in *. intros ds Hds.
    apply in_map_iff in Hds as (ds0 & <- & Hds0). cbn [fst].
    specialize (Hsep ds0 Hds0). rewrite forallb_forall in Hsep.
    exact (Hsep _ Hkv).
Qed.

Lemma replace_backslash s :
  Py.mem_char (ascii_of_nat 92) (Py.replace backslash "/" s) = false.
Proof.
  induction s as [|c s IH]; [reflexivity |].
  unfold backslash. rewrite replace_cons by discriminate.
  cbn [String.prefix String.length Py.drop].
  destruct (ascii_dec (ascii_of_nat 92) c) as [<-|Hne].
  - rewrite prefix_nil. cbn [append Py.mem_char]. exact IH.
  - cbn [Py.mem_char]. fold backslash. rewrite IH, orb_false_r.
    apply Ascii.eqb_neq. exact Hne.
Qed.

Lemma dict_set_forallb (P : string * string -> bool) d k v :
  forallb P d = true -> P (k, v) = true -> forallb P (dict_set d k v) = true.
Proof.
  intros Hd Hkv. induction d as [|[k' v'] d IH]; cbn [dict_set forallb].
  - now rewrite Hkv.
  - cbn [forallb] in Hd. apply andb_prop in Hd as [H1 H2].
    destruct (String.eqb k k'); cbn [forallb]; [now rewrite Hkv, H2 | now rewrite H1, IH].
Qed.

Lemma build_replacements_slashes bho cwd out_dir current_dir links :
  forall acc m,
    build_replacements bho cwd out_dir current_dir links acc = Ok m ->
    forallb (fun kv => negb (Py.mem_char (ascii_of_nat 92) (snd kv))) acc = true ->
    forallb (fun kv => negb (Py.mem_char (ascii_of_nat 92) (snd kv))) m = true.
Proof.
  induction links as [|link links IH]; intros acc m E Hacc; cbn [build_replacements] in E.
  - now injection E as <-.
  - destruct (extract_original_url link) as [orig|]; [| now apply (IH acc)].
    destruct (Py.truthy (Some orig)); [| now apply (IH acc)].
    destruct (guess_local_path bho out_dir orig None) as [target|e]; [| discriminate E].
    cbn [bind] in E.
    destruct (OsPath.relpath cwd target current_dir) as [rel|e]; [| discriminate E].
    cbn [bind] in E. apply (IH _ _ E).
    apply dict_set_forallb; [exact Hacc |].
    cbn [snd]. now rewrite replace_backslash.
Qed.

(** C7 as stated fails although no key is a substring of another key's
    value.  With the seed's address, a prefix of the address of [about],
    replaced first, the link to [about] becomes [index.htmlabout], not
    the relative path [about] of its entry; and a replacement can put a
    key together that was not in the text. *)
Lemma prefix_key_spoils_longer_key :
  build_replacements any_host "/" "out" "out/example.com"
    [Scenario.seed; Scenario.about] []
  = Ok [(Scenario.seed, "index.html"); (Scenario.about, "about")]
  /\ no_key_in_other_value
       [(Scenario.seed, "index.html"); (Scenario.about, "about")] = true
  /\ rewrite ("<a href='" ++ Scenario.about ++ "'>")
       [(Scenario.seed, "index.html"); (Scenario.about, "about")]
     = "<a href='index.htmlabout'>"
  /\ no_key_in_other_value [(Scenario.about, "about")] = true
  /\ Py.contains
       (rewrite ("https://web.archive.org/web/20250408214013/https://example.com/"
                 ++ Scenario.about)
          [(Scenario.about, "about")])
       Scenario.about = true.
Proof. repeat split; vm_compute; reflexivity. Qed.

(** C7 (amended).  Take a replacement map whose keys are distinct and not
    empty, no key being a substring of another key or of any value, and a
    text cut into segments by separator characters that occur in no key
    (the quotes around attribute values, say), every segment being a key
    or holding no key.  Then the rewritten text is the text with every
    segment that is a key replaced by the relative path of that key's
    entry, and it holds no occurrence of any key.  Moreover the relative
    paths of a map the scheduler builds hold no backslash. *)
Theorem rewrite_replaces_delimited_links :
  (forall (m : list (string * string)) (first : string) (rest : list (ascii * string)),
     nondegenerate m = true ->
     delimited m first rest = true ->
     rewrite (doc first rest) m
     = doc (subst m first) (map (fun ds => (fst ds, subst m (snd ds))) rest)
     /\ key_free m (rewrite (doc first rest) m) = true)
  /\ (forall bracketed_host_ok cwd out_dir current_dir links m,
        build_replacements bracketed_host_ok cwd out_dir current_dir links [] = Ok m ->
        forallb (fun kv => negb (Py.mem_char (ascii_of_nat 92) (snd kv))) m = true).
Proof.
  split.
  - exact rewrite_delimited.
  - intros bho cwd out_dir current_dir links m E.
    now apply (build_replacements_slashes bho cwd out_dir current_dir links [] m E).
Qed.

Lemma rewrite_replaces_delimited_links_witness :
  nondegenerate [(Scenario.about, "about"); (Scenario.contact, "contact")] = true
  /\ delimited [(Scenario.about, "about"); (Scenario.contact, "contact")]
       "<a href=" [(dquote, Scenario.about); (dquote, "><a href=");
                   (dquote, Scenario.contact); (dquote, ">")] = true
  /\ rewrite
       (doc "<a href=" [(dquote, Scenario.about); (dquote, "><a href=");
                        (dquote, Scenario.contact); (dquote, ">")])
       [(Scenario.about, "about"); (Scenario.contact, "contact")]
     = doc "<a href=" [(dquote, "about"); (dquote, "><a href=");
                       (dquote, "contact"); (dquote, ">")].
Proof.
  split; [vm_compute; reflexivity |]. split; [vm_compute; reflexivity |].
  refine (proj1 (proj1 rewrite_replaces_delimited_links
                   [(Scenario.about, "about"); (Scenario.contact, "contact")]
                   "<a href=" [(dquote, Scenario.about); (dquote, "><a href=");
                               (dquote, Scenario.contact); (dquote, ">")] _ _));
    vm_compute; reflexivity.
Defined.

(** ** The loop: what a turn changes *)

Section RunFacts.

Variable bracketed_host_ok : string -> bool.
Variable iter_order : list string -> list string.
Variable session : session_t.
Variable out_dir : string.

Local Notation "'turn'" := (iteration bracketed_host_ok iter_order session out_dir).
Local Notation "'handle'" := (process bracketed_host_ok iter_order out_dir).
Local Notation "'leads'" := (reaches bracketed_host_ok iter_order session out_dir).

Lemma enqueue_fold links : forall s,
  fold_left enqueue links s
  = {| fs := fs s; visited := visited s;
       q := (q s ++ admitted (visited s) links)%list;
       log := (map Put (rev (admitted (visited s) links)) ++ log s)%list |}.
Proof.
  induction links as [|link links IH]; intros s.
  - cbn. rewrite app_nil_r. now destruct s.
  - cbn [fold_left]. rewrite IH. unfold enqueue, admitted. cbn [filter].
    destruct (negb (mem link (visited s)) && is_in_snapshot link); cbn [fs visited q log].
    + f_equal.
      * now rewrite <- app_assoc.
      * cbn [rev]. rewrite map_app, <- app_assoc. reflexivity.
    + reflexivity.
Qed.

(** What the handling of a fetched resource changes. *)
Lemma process_effect current content content_type s s' e :
  handle current content content_type s = (s', e) ->
  visited s' = visited s
  /\ exists added extra,
       q s' = (q s ++ added)%list
       /\ log s' = (extra ++ map Put (rev added) ++ log s)%list
       /\ forallb quiet extra = true
       /\ (added = []
           \/ (is_html content_type = true
               /\ added = admitted (visited s)
                            (iter_order (find_links_to_follow (Utf8.decode_ignore content))))).
Proof.
  unfold process.
  destruct (guess_local_path _ _ _ _) as [local_path|e1].
  2: { intros E. injection E as <- <-. split; [reflexivity |].
       exists [], []. cbn. rewrite app_nil_r. auto. }
  destruct (ensure_directory_for_file _ _) as [fs1|e1].
  2: { intros E. injection E as <- <-. split; [reflexivity |].
       exists [], []. cbn. rewrite app_nil_r. auto. }
  destruct (is_html content_type) eqn:Hhtml.
  - rewrite enqueue_fold. cbn [fs visited q log].
    set (links := iter_order (find_links_to_follow (Utf8.decode_ignore content))).
    destruct (build_replacements _ _ _ _ _ _) as [replacements|e1].
    + unfold write. cbn [fs visited q log].
      destruct (Fs.write_file _ _ _) as [fs2|e2]; intros E; injection E as <- <-;
        cbn [fs visited q log emit]; (split; [reflexivity |]).
      * exists (admitted (visited s) links), [Sleep; Wrote local_path].
        repeat (split; [reflexivity |]). right. split; reflexivity.
      * exists (admitted (visited s) links), [].
        repeat (split; [reflexivity |]). right. split; reflexivity.
    + intros E. injection E as <- <-. cbn [fs visited q log]. split; [reflexivity |].
      exists (admitted (visited s) links), [].
      repeat (split; [reflexivity |]). right. split; reflexivity.
  - unfold write. cbn [fs visited q log].
    destruct (Fs.write_file _ _ _) as [fs2|e2]; intros E; injection E as <- <-;
      cbn [fs visited q log emit]; (split; [reflexivity |]).
    + exists [], [Sleep; Wrote local_path]. cbn. rewrite app_nil_r. auto.
    + exists [], []. cbn. rewrite app_nil_r. auto.
Qed.


Lemma iteration_effect current s s' e :
  turn current s = (s', e) ->
  (mem current (visited s) = true
   /\ fs s' = fs s /\ visited s' = visited s /\ q s' = tl (q s)
   /\ log s' = Get current :: log s /\ e = None)
  \/ (mem current (visited s) = false
      /\ visited s' = current :: visited s
      /\ exists added extra,
           q s' = (tl (q s) ++ added)%list
           /\ log s' = (extra ++ map Put (rev added)
                        ++ Fetch current :: Visit current :: Get current :: log s)%list
           /\ forallb quiet extra = true
           /\ (added = []
               \/ added = admitted (current :: visited s) (links_of iter_order session current))).
Proof.
  unfold iteration. cbn [fs visited q log].
  destruct (mem current (visited s)) eqn:Hmem.
  - intros E. injection E as <- <-. left. repeat split.
  - intros E. right. split; [reflexivity |].
    unfold links_of.
    destruct (fetch current session) as [[content|] content_type].
    + apply process_effect in E as (Hv & added & extra & Hq & Hl & Hx & Ha).
      cbn [fs visited q log] in *. split; [exact Hv |].
      exists added, extra. repeat (split; [assumption |]).
      destruct Ha as [-> | [Hh ->]]; [now left | right]. now rewrite Hh.
    + injection E as <- <-. cbn [fs visited q log]. split; [reflexivity |].
      exists [], []. cbn. rewrite app_nil_r. auto.
Qed.

Lemma admitted_In vis links u :
  In u (admitted vis links) ->
  is_in_snapshot u = true /\ In u links /\ mem u vis = false.
Proof.
  unfold admitted. rewrite filter_In. intros [Hin H].
  apply andb_prop in H as [H1 H2]. apply negb_true_iff in H1. auto.
Qed.

Lemma visits_silent extra added l :
  forallb quiet extra = true ->
  visits (extra ++ map Put added ++ l) = visits l.
Proof.
  intros Hx. induction extra as [|e extra IH].
  - cbn [app]. induction added as [|u added IHa]; [reflexivity | exact IHa].
  - cbn [forallb] in Hx. apply andb_prop in Hx as [He Hx].
    destruct e; try discriminate He; cbn [app visits]; now apply IH.
Qed.

Lemma fetches_silent extra added l :
  forallb quiet extra = true ->
  fetches (extra ++ map Put added ++ l) = fetches l.
Proof.
  intros Hx. induction extra as [|e extra IH].
  - cbn [app]. induction added as [|u added IHa]; [reflexivity | exact IHa].
  - cbn [forallb] in Hx. apply andb_prop in Hx as [He Hx].
    destruct e; try discriminate He; cbn [app fetches]; now apply IH.
Qed.

Lemma puts_silent extra added l :
  forallb quiet extra = true ->
  puts (extra ++ map Put added ++ l) = (added ++ puts l)%list.
Proof.
  intros Hx. induction extra as [|e extra IH].
  - cbn [app]. induction added as [|u added IHa]; [reflexivity |].
    cbn [map app puts]. now rewrite IHa.
  - cbn [forallb] in Hx. apply andb_prop in Hx as [He Hx].
    destruct e; try discriminate He; cbn [app puts]; now apply IH.
Qed.

Lemma fetch_after_visit_silent extra added l :
  forallb quiet extra = true ->
  fetch_after_visit (extra ++ map Put added ++ l) = fetch_after_visit l.
Proof.
  intros Hx. induction extra as [|e extra IH].
  - cbn [app]. induction added as [|u added IHa]; [reflexivity | exact IHa].
  - cbn [forallb] in Hx. apply andb_prop in Hx as [He Hx].
    destruct e; try discriminate He; cbn [app fetch_after_visit]; now apply IH.
Qed.

Lemma inv_seeded fs1 start :
  is_in_snapshot start = true -> inv (seeded fs1 start).
Proof.
  intros H. unfold inv, seeded. cbn.
  repeat split; auto using NoDup_nil.
Qed.

Lemma mem_false_not_In x l : mem x l = false -> ~ In x l.
Proof. intros H Hin. apply mem_In in Hin. congruence. Qed.

Lemma inv_iteration current s s' e :
  hd_error (q s) = Some current ->
  turn current s = (s', e) ->
  inv s -> inv s'.
Proof.
  intros Hhd E (Iq & Ip & If & Iv & Ife & Ind & Ipq).
  assert (Hq : q s = current :: tl (q s)).
  { destruct (q s) as [|x rest]; [discriminate |]. cbn in Hhd. injection Hhd as ->. reflexivity. }
  assert (Itl : Forall (fun u => is_in_snapshot u = true) (tl (q s))).
  { rewrite Hq in Iq. now inversion Iq. }
  apply iteration_effect in E
    as [(Hmem & _ & Hv & Hq' & Hl & _)
       |(Hmem & Hv & added & extra & Hq' & Hl & Hx & Ha)].
  - unfold inv. rewrite Hv, Hq', Hl. cbn [puts fetch_after_visit visits fetches].
    repeat split; try assumption.
    intros u Hu. destruct (Ipq u Hu) as [H|H]; [| now right].
    rewrite Hq in H. destruct H as [<-|H]; [right; now apply mem_In | now left].
  - assert (Hadd : forall u, In u added ->
               is_in_snapshot u = true /\ mem u (current :: visited s) = false).
    { intros u Hu. destruct Ha as [-> | ->]; [now elim Hu |].
      apply admitted_In in Hu. tauto. }
    unfold inv. rewrite Hv, Hq', Hl.
    rewrite puts_silent, fetch_after_visit_silent, visits_silent, fetches_silent
      by assumption.
    cbn [puts fetch_after_visit visits fetches].
    rewrite Iv, Ife, !String.eqb_refl, Hmem, If. cbn [andb negb].
    repeat split; try reflexivity.
    + apply Forall_app. split; [exact Itl |].
      apply Forall_forall. intros u Hu. now apply Hadd.
    + apply Forall_app. split; [| exact Ip].
      apply Forall_forall. intros u Hu. apply in_rev in Hu. now apply Hadd.
    + constructor; [now apply mem_false_not_In | exact Ind].
    + intros u Hu. apply in_app_or in Hu as [Hu|Hu].
      * left. apply in_or_app. right. now apply in_rev.
      * destruct (Ipq u Hu) as [H|H]; [| right; now right].
        rewrite Hq in H. destruct H as [<-|H]; [right; now left |].
        left. apply in_or_app. now left.
Qed.

Lemma inv_reaches s s' : leads s s' -> inv s -> inv s'.
Proof.
  induction 1 as [s | s s1 s2 current Hhd E _ IH | s s1 current e Hhd E]; intros I.
  - exact I.
  - apply IH. exact (inv_iteration _ _ _ _ Hhd E I).
  - exact (inv_iteration _ _ _ _ Hhd E I).
Qed.

Lemma visited_grows s s' :
  leads s s' -> exists more, visited s' = (more ++ visited s)%list.
Proof.
  assert (Hone : forall current s s' e, turn current s = (s', e) ->
                   exists more, visited s' = (more ++ visited s)%list).
  { intros current t t' e E.
    apply iteration_effect in E as [(_ & _ & Hv & _)|(_ & Hv & _)].
    - now exists [].
    - now exists [current]. }
  induction 1 as [s | s s1 s2 current Hhd E _ IH | s s1 current e Hhd E].
  - now exists [].
  - destruct IH as [m2 H2]. destruct (Hone _ _ _ _ E) as [m1 H1].
    exists (m2 ++ m1)%list. now rewrite H2, H1, app_assoc.
  - exact (Hone _ _ _ _ E).
Qed.

Lemma drain_reaches fuel : forall s o s',
  drain bracketed_host_ok iter_order session fuel out_dir s = Some (o, s') ->
  leads s s'.
Proof.
  induction fuel as [|fuel IH]; intros s o s' E; cbn [drain] in E.
  - destruct (q s); [| discriminate]. injection E as _ <-. constructor.
  - destruct (q s) as [|current rest] eqn:Hq.
    + injection E as _ <-. constructor.
    + destruct (turn current s) as [s1 [e|]] eqn:Et.
      * injection E as _ <-. eapply reaches_raise; [| exact Et]. now rewrite Hq.
      * eapply reaches_turn; [| exact Et | exact (IH _ _ _ E)]. now rewrite Hq.
Qed.

End RunFacts.

(** ** Termination and at-most-once fetch (C3, C9) *)

Lemma set_add_NoDup s x : NoDup s -> NoDup (set_add s x).
Proof.
  intros H. unfold set_add. destruct (mem x s) eqn:E; [exact H |].
  apply NoDup_app; [exact H | repeat constructor; intros [] |].
  intros y Hy [<-|[]]. apply mem_In in Hy. congruence.
Qed.

Lemma consider_NoDup found val : NoDup found -> NoDup (consider found val).
Proof.
  intros H. unfold consider. destruct (normalize_archived_url val) as [u|]; [| exact H].
  destruct (Py.truthy (Some u) && is_in_snapshot u); [now apply set_add_NoDup | exact H].
Qed.

Lemma fold_consider_NoDup vals : forall found,
  NoDup found -> NoDup (fold_left consider vals found).
Proof.
  induction vals as [|v vals IH]; intros found H; [exact H |].
  apply IH. now apply consider_NoDup.
Qed.

Lemma find_links_NoDup html : NoDup (find_links_to_follow html).
Proof.
  unfold find_links_to_follow.
  apply fold_consider_NoDup.
  generalize (map (Re.group_or_empty 2) (Re.findall srcset_flags srcset_pattern html)).
  intros vals.
  assert (H : NoDup (fold_left consider
                       (map (Re.group_or_empty 2) (Re.findall attr_flags attr_pattern html)) []))
    by (apply fold_consider_NoDup; constructor).
  revert H. generalize (fold_left consider
                       (map (Re.group_or_empty 2) (Re.findall attr_flags attr_pattern html)) []).
  induction vals as [|v vals IH]; intros found H; [exact H |].
  cbn [fold_left]. apply IH. now apply fold_consider_NoDup.
Qed.

Lemma mem_cons x y l : mem x (y :: l) = String.eqb x y || mem x l.
Proof. reflexivity. Qed.

Lemma unvisited_shrinks (l vis : list string) current :
  In current l -> mem current vis = false ->
  length (filter (fun u => negb (mem u (current :: vis))) l)
  < length (filter (fun u => negb (mem u vis)) l).
Proof.
  intros Hin Hmem.
  assert (Hle : forall l', length (filter (fun u => negb (mem u (current :: vis))) l')
                          <= length (filter (fun u => negb (mem u vis)) l')).
  { induction l' as [|y l' IHl]; [auto |]. cbn [filter]. rewrite mem_cons.
    destruct (String.eqb y current), (mem y vis); cbn [orb negb length]; lia. }
  induction l as [|x l IH]; [now elim Hin |].
  cbn [filter]. rewrite mem_cons. specialize (Hle l).
  destruct (String.eqb_spec x current) as [->|Hne].
  - cbn [orb negb]. rewrite Hmem. cbn [negb length]. lia.
  - destruct Hin as [E|Hin]; [now elim Hne |].
    specialize (IH Hin). cbn [orb].
    destruct (mem x vis); cbn [negb length]; lia.
Qed.

Section Termination.

Variable bracketed_host_ok : string -> bool.
Variable iter_order : list string -> list string.
Variable session : session_t.
Variable out_dir : string.

Hypothesis iter_order_perm : forall l, Permutation (iter_order l) l.

(** A finite set of addresses that holds the links of its documents. *)
Variable U : list string.
Hypothesis U_closed : forall u, In u U -> incl (links_of iter_order session u) U.

Local Notation "'turn'" := (iteration bracketed_host_ok iter_order session out_dir).

Lemma links_of_NoDup u : NoDup (links_of iter_order session u).
Proof.
  unfold links_of. destruct (fetch u session) as [[content|] ct]; [| constructor].
  destruct (is_html ct); [| constructor].
  eapply Permutation_NoDup; [apply Permutation_sym, iter_order_perm |].
  apply find_links_NoDup.
Qed.

Lemma links_of_bound u : In u U -> length (links_of iter_order session u) <= length U.
Proof.
  intros H. apply NoDup_incl_length; [apply links_of_NoDup | now apply U_closed].
Qed.

Lemma admitted_length vis links : length (admitted vis links) <= length links.
Proof. apply filter_length_le. Qed.

Lemma turn_measure current s s' e :
  incl (q s) U ->
  hd_error (q s) = Some current ->
  turn current s = (s', e) ->
  incl (q s') U /\ measure U s' < measure U s.
Proof.
  intros Hincl Hhd E.
  assert (Hq : q s = current :: tl (q s)).
  { destruct (q s) as [|x rest]; [discriminate |]. cbn in Hhd. injection Hhd as ->. reflexivity. }
  assert (Hlenq : length (q s) = S (length (tl (q s)))) by (now rewrite Hq at 1).
  assert (Hcur : In current U) by (apply Hincl; rewrite Hq; now left).
  assert (Htl : incl (tl (q s)) U).
  { intros u Hu. apply Hincl. rewrite Hq. now right. }
  apply (iteration_effect bracketed_host_ok iter_order session out_dir) in E
    as [(Hmem & _ & Hv & Hq' & Hl & _)
       |(Hmem & Hv & added & extra & Hq' & Hl & Hx & Ha)].
  - split; [now rewrite Hq' |].
    unfold measure, unvisited. rewrite Hv, Hq', Hlenq. lia.
  - assert (Hadd : incl added U /\ length added <= length U).
    { destruct Ha as [-> | ->].
      - split; [intros u [] | cbn; lia].
      - split.
        + intros u Hu. apply admitted_In in Hu as (_ & Hu & _). now apply (U_closed current).
        + etransitivity; [apply admitted_length | now apply links_of_bound]. }
    destruct Hadd as [Hadd Hlen].
    split.
    + rewrite Hq'. now apply incl_app.
    + unfold measure, unvisited. rewrite Hv, Hq', length_app, Hlenq.
      pose proof (unvisited_shrinks U (visited s) current Hcur Hmem) as Hlt.
      nia.
Qed.

Lemma drain_terminates fuel : forall s,
  incl (q s) U -> measure U s <= fuel ->
  exists o s', drain bracketed_host_ok iter_order session fuel out_dir s = Some (o, s').
Proof.
  induction fuel as [|fuel IH]; intros s Hincl Hm.
  - cbn [drain]. destruct (q s) as [|current rest] eqn:Hq; [now eexists; eexists |].
    unfold measure in Hm. rewrite Hq in Hm. cbn [length] in Hm. lia.
  - cbn [drain]. destruct (q s) as [|current rest] eqn:Hq; [now eexists; eexists |].
    destruct (turn current s) as [s1 [e|]] eqn:Et; [now eexists; eexists |].
    assert (Hhd : hd_error (q s) = Some current) by now rewrite Hq.
    rewrite <- Hq in Hincl.
    destruct (turn_measure _ _ _ _ Hincl Hhd Et) as [Hincl1 Hlt].
    apply IH; [exact Hincl1 | lia].
Qed.

(** More turns than needed change nothing. *)
Lemma drain_more fuel : forall s r extra,
  drain bracketed_host_ok iter_order session fuel out_dir s = Some r ->
  drain bracketed_host_ok iter_order session (fuel + extra) out_dir s = Some r.
Proof.
  induction fuel as [|fuel IH]; intros s r extra E; cbn [drain] in E.
  - destruct (q s) eqn:Hq; [| discriminate].
    destruct extra; cbn [Nat.add drain]; now rewrite Hq.
  - cbn [Nat.add drain]. destruct (q s) as [|current rest]; [exact E |].
    destruct (turn current s) as [s1 [e|]]; [exact E | now apply IH].
Qed.

End Termination.

Lemma drain_outcome bho iter_order session out_dir fuel : forall s o s',
  drain bho iter_order session fuel out_dir s = Some (o, s') ->
  (o = Finished /\ q s' = []) \/ exists e, o = Uncaught e.
Proof.
  induction fuel as [|fuel IH]; intros s o s' E; cbn [drain] in E.
  - destruct (q s) eqn:Hq; [| discriminate]. injection E as <- <-. now left.
  - destruct (q s) as [|current rest] eqn:Hq.
    + injection E as <- <-. now left.
    + destruct (iteration bho iter_order session out_dir current s) as [s1 [e|]].
      * injection E as <- _. right. now exists e.
      * exact (IH _ _ _ E).
Qed.

Lemma crawl_reaches bho iter_order session out_dir fuel start fs0 o final :
  crawl bho iter_order session fuel start out_dir fs0 = Some (o, final) ->
  (q final = [] /\ puts (log final) = [] /\ fetches (log final) = []
   /\ visits (log final) = [] /\ visited final = [])
  \/ (is_in_snapshot (normalized start) = true
      /\ exists fs1,
           reaches bho iter_order session out_dir (seeded fs1 (normalized start)) final
           /\ drain bho iter_order session fuel out_dir (seeded fs1 (normalized start))
              = Some (o, final)).
Proof.
  unfold crawl.
  destruct (if Fs.exists_ fs0 out_dir then Ok fs0 else Fs.makedirs fs0 out_dir)
    as [fs1|e].
  - destruct (is_in_snapshot (normalized start)) eqn:Hs; cbn [negb].
    + intros E. right. split; [reflexivity |]. exists fs1. split; [| exact E].
      exact (drain_reaches _ _ _ _ _ _ _ _ E).
    + intros E. injection E as <- <-. left. repeat split.
  - intros E. injection E as <- <-. left. repeat split.
Qed.

(** The crawl on a finite link graph.  Let [U] be a finite set of
    addresses that holds the normalized seed and, for each of its
    addresses, the links of the document fetched there.  Then the crawl
    ends (with enough turns, and more change nothing), no address is
    fetched twice, and unless an uncaught exception ended the run, the
    frontier is empty and every address that was put on it has been
    fetched exactly once. *)
Theorem crawl_terminates_each_address_once :
  forall (bracketed_host_ok : string -> bool) (iter_order : list string -> list string)
         (session : session_t) (out_dir start : string) (fs0 : Fs.t) (U : list string),
    (forall l, Permutation (iter_order l) l) ->
    In (normalized start) U ->
    (forall u, In u U -> incl (links_of iter_order session u) U) ->
    exists fuel o final,
      (forall extra,
         crawl bracketed_host_ok iter_order session (fuel + extra) start out_dir fs0
         = Some (o, final))
      /\ NoDup (fetches (log final))
      /\ ((forall e, o <> Uncaught e) ->
          q final = []
          /\ forall u, In u (puts (log final)) ->
                       count_occ string_dec (fetches (log final)) u = 1).
Proof.
  intros bho iter_order session out_dir start fs0 U Hperm Hstart Hclosed.
  assert (Hcrawl : exists fuel o final, forall extra,
            crawl bho iter_order session (fuel + extra) start out_dir fs0 = Some (o, final)).
  { unfold crawl.
    destruct (if Fs.exists_ fs0 out_dir then Ok fs0 else Fs.makedirs fs0 out_dir)
      as [fs1|e]; [| now exists 0; eexists; eexists].
    destruct (is_in_snapshot (normalized start)); cbn [negb];
      [| now exists 0; eexists; eexists].
    set (s0 := seeded fs1 (normalized start)).
    destruct (drain_terminates bho iter_order session out_dir Hperm U Hclosed
                (measure U s0) s0) as (o & final & E).
    - intros u [<-|[]]. exact Hstart.
    - apply Nat.le_refl.
    - exists (measure U s0), o, final. intros extra.
      now apply drain_more. }
  destruct Hcrawl as (fuel & o & final & Hcrawl).
  exists fuel, o, final. split; [exact Hcrawl |].
  specialize (Hcrawl 0).
  apply crawl_reaches in Hcrawl as [(Hq & Hp & Hf & _)|(Hs & fs1 & Hr & Hd)].
  - rewrite Hf, Hp. split; [constructor |]. split; [exact Hq | intros u []].
  - apply inv_reaches in Hr; [| now apply inv_seeded].
    destruct Hr as (_ & _ & _ & _ & Ife & Ind & Ipq).
    rewrite Ife. split; [exact Ind |]. intros Ho.
    apply drain_outcome in Hd as [[_ Hq]|[e He]]; [| now elim (Ho e)].
    split; [exact Hq |]. intros u Hu.
    destruct (Ipq u Hu) as [H|H]; [rewrite Hq in H; now elim H |].
    apply NoDup_count_occ'; assumption.
Qed.

(** C9.  In every state of the loop of a crawl run, every address on the
    frontier and every address ever put on it (the seed and the links
    enqueued) is in-snapshot; every fetch in the log comes right after
    the marking of its address as visited, which comes right after the
    address left the queue, and the address was not in the visited set
    before; the visited set is the set of the addresses so marked (and
    so fetched), and it only grows from there on.  The states [crawl]
    ends in are such states. *)
Theorem frontier_admits_snapshot_addresses_only :
  forall (bracketed_host_ok : string -> bool) (iter_order : list string -> list string)
         (session : session_t) (out_dir start : string) (fs1 : Fs.t) (s : state),
    is_in_snapshot (normalized start) = true ->
    reaches bracketed_host_ok iter_order session out_dir
      (seeded fs1 (normalized start)) s ->
    Forall (fun u => is_in_snapshot u = true) (q s)
    /\ Forall (fun u => is_in_snapshot u = true) (puts (log s))
    /\ fetch_after_visit (log s) = true
    /\ visits (log s) = visited s
    /\ fetches (log s) = visited s
    /\ (forall s', reaches bracketed_host_ok iter_order session out_dir s s' ->
                   exists more, visited s' = (more ++ visited s)%list)
    /\ (forall fuel fs0 o final,
          crawl bracketed_host_ok iter_order session fuel start out_dir fs0
          = Some (o, final) ->
          final = start_state fs0
          \/ exists fs1',
               reaches bracketed_host_ok iter_order session out_dir
                 (seeded fs1' (normalized start)) final).
Proof.
  intros bho iter_order session out_dir start fs1 s Hs Hr.
  apply inv_reaches in Hr; [| now apply inv_seeded].
  destruct Hr as (Iq & Ip & If & Iv & Ife & _ & _).
  repeat (split; [assumption |]). split.
  - intros s'. apply visited_grows.
  - intros fuel fs0 o final. unfold crawl.
    destruct (if Fs.exists_ fs0 out_dir then Ok fs0 else Fs.makedirs fs0 out_dir)
      as [fs1'|e].
    + rewrite Hs. cbn [negb]. intros E. right. exists fs1'.
      exact (drain_reaches _ _ _ _ _ _ _ _ E).
    + intros E. injection E as _ <-. now left.
Qed.

Lemma frontier_admits_snapshot_addresses_only_witness :
  exists final,
    crawl any_host Scenario.insertion_order Scenario.site 4
      Scenario.seed "outputDir" Scenario.empty_disk = Some (Finished, final)
    /\ is_in_snapshot (normalized Scenario.seed) = true
    /\ Forall (fun u => is_in_snapshot u = true) (puts (log final))
    /\ fetch_after_visit (log final) = true
    /\ fetches (log final) = visited final.
Proof.
  pose (fs1 := {| Fs.cwd := "/"; Fs.nodes := [(["outputDir"], Fs.Dir)] |}).
  destruct (drain any_host Scenario.insertion_order Scenario.site 4 "outputDir"
              (seeded fs1 (normalized Scenario.seed))) as [[o final]|] eqn:E;
    [| vm_compute in E; discriminate E].
  exists final.
  split; [vm_compute; vm_compute in E; injection E as _ <-; reflexivity |].
  split; [reflexivity |].
  destruct (frontier_admits_snapshot_addresses_only any_host Scenario.insertion_order
              Scenario.site "outputDir" Scenario.seed fs1 final eq_refl
              (drain_reaches _ _ _ _ _ _ _ _ E))
    as (_ & Hp & Hf & _ & Hfe & _).
  repeat split; assumption.
Defined.

(** The cycle of the specification: [page_a] links to [page_b], which
    links back; each is fetched once and the frontier ends empty. *)
Example cycle_is_crawled_once :
  exists final,
    crawl any_host Scenario.insertion_order Scenario.cycle_site 4
      Scenario.page_a "out" Scenario.empty_disk = Some (Finished, final)
    /\ q final = []
    /\ fetches (log final) = [Scenario.page_b; Scenario.page_a].
Proof. eexists. split; [vm_compute; reflexivity |]. split; reflexivity. Qed.

Lemma crawl_terminates_each_address_once_witness :
  exists fuel o final,
    (forall extra,
       crawl any_host Scenario.insertion_order Scenario.cycle_site (fuel + extra)
         Scenario.page_a "out" Scenario.empty_disk = Some (o, final))
    /\ NoDup (fetches (log final))
    /\ ((forall e, o <> Uncaught e) ->
        q final = []
        /\ forall u, In u (puts (log final)) ->
                     count_occ string_dec (fetches (log final)) u = 1).
Proof.
  apply (crawl_terminates_each_address_once any_host Scenario.insertion_order
           Scenario.cycle_site "out" Scenario.page_a Scenario.empty_disk
           [Scenario.page_a; Scenario.page_b]).
  - intros l. apply Permutation_refl.
  - left. reflexivity.
  - intros u [<- | [<- | []]] x Hx; vm_compute in Hx;
      destruct Hx as [<- | []]; vm_compute; tauto.
Defined.

(** C3, the failing input.  The crawl of the site whose seed links to an
    address with an unclosed bracket ends by an uncaught exception: the
    link was discovered and put on the frontier, the frontier is not
    empty at the end, and the link was never fetched. *)
Theorem trap_link_is_never_fetched :
  exists final e,
    crawl any_host Scenario.insertion_order Scenario.trap_site 4
      Scenario.seed "outputDir" Scenario.empty_disk = Some (Uncaught e, final)
    /\ is_in_snapshot Scenario.trap = true
    /\ puts (log final) = [Scenario.trap; Scenario.seed]
    /\ q final = [Scenario.trap]
    /\ fetches (log final) = [Scenario.seed]
    /\ count_occ string_dec (fetches (log final)) Scenario.trap = 0.
Proof. eexists. eexists. split; [vm_compute; reflexivity |]. repeat split. Qed.

(** Another run an exception ends: a resource is written to the file
    [a], and the one at [a/b.png] then finds a file where its directory
    has to be. *)
Example file_in_the_way_aborts_crawl :
  exists final,
    crawl any_host Scenario.insertion_order Scenario.asset_site 4
      Scenario.seed "outputDir" Scenario.empty_disk
    = Some (Uncaught (NotADirectoryError "outputDir/example.com/a/b.png"), final)
    /\ Fs.read_file (fs final) "outputDir/example.com/a" = Some "PNG"
    /\ fetches (log final) = [Scenario.asset_below; Scenario.asset; Scenario.seed].
Proof. eexists. split; [vm_compute; reflexivity |]. split; reflexivity. Qed.

(** ** The seed check (C4, C10) *)

(** The fatal precondition.  If the seed, normalized, is not in-snapshot,
    [crawl] fetches nothing: it prints one line on the diagnostic stream
    and exits with status 1, unless making the output directory had
    already raised. *)
Theorem seed_outside_snapshot_exits :
  forall (bracketed_host_ok : string -> bool) (iter_order : list string -> list string)
         (session : session_t) (fuel : nat) (start out_dir : string) (fs0 : Fs.t),
    is_in_snapshot (normalized start) = false ->
    exists o final,
      crawl bracketed_host_ok iter_order session fuel start out_dir fs0 = Some (o, final)
      /\ fetches (log final) = []
      /\ puts (log final) = []
      /\ ((o = Exited 1
           /\ log final
              = [Stderr "Start URL is not within the required snapshot timestamp."])
          \/ (exists e, o = Uncaught e /\ Fs.exists_ fs0 out_dir = false
                        /\ Fs.makedirs fs0 out_dir = Raise e)).
Proof.
  intros bho iter_order session fuel start out_dir fs0 Hs. unfold crawl.
  destruct (Fs.exists_ fs0 out_dir) eqn:Hex.
  - rewrite Hs. cbn [negb]. eexists. eexists. split; [reflexivity |].
    repeat split. now left.
  - destruct (Fs.makedirs fs0 out_dir) as [fs1|e] eqn:Hmk.
    + rewrite Hs. cbn [negb]. eexists. eexists. split; [reflexivity |].
      repeat split. now left.
    + eexists. eexists. split; [reflexivity |]. repeat split.
      right. now exists e.
Qed.

Lemma seed_outside_snapshot_exits_witness :
  is_in_snapshot (normalized "https://example.com/") = false
  /\ exists o final,
       crawl any_host Scenario.insertion_order Scenario.site 4
         "https://example.com/" "outputDir" Scenario.empty_disk = Some (o, final)
       /\ fetches (log final) = []
       /\ puts (log final) = []
       /\ ((o = Exited 1
            /\ log final
               = [Stderr "Start URL is not within the required snapshot timestamp."])
           \/ (exists e, o = Uncaught e
                         /\ Fs.exists_ Scenario.empty_disk "outputDir" = false
                         /\ Fs.makedirs Scenario.empty_disk "outputDir" = Raise e)).
Proof.
  split; [reflexivity |].
  apply (seed_outside_snapshot_exits any_host Scenario.insertion_order Scenario.site 4
           "https://example.com/" "outputDir" Scenario.empty_disk).
  reflexivity.
Defined.

Lemma lookup_nodes_cons k k' n l :
  Fs.lookup_nodes k ((k', n) :: l) = if list_eq_dec string_dec k k' then Some n else Fs.lookup_nodes k l.
Proof. reflexivity. Qed.

(** What [mkdirs] leaves: the old bindings, and directories at the
    paths from [done] down to [done ++ todo]. *)
Lemma mkdirs_spec p : forall todo l done l',
  Fs.mkdirs p l done todo = Ok l' ->
  (forall k n, Fs.lookup_nodes k l = Some n -> Fs.lookup_nodes k l' = Some n)
  /\ (forall k n, Fs.lookup_nodes k l' = Some n ->
        Fs.lookup_nodes k l = Some n
        \/ (n = Fs.Dir /\ exists a b, todo = (a ++ b)%list /\ a <> [] /\ k = (done ++ a)%list))
  /\ (todo <> [] -> Fs.lookup_nodes (done ++ todo) l' = Some Fs.Dir).
Proof.
  induction todo as [|x todo IH]; intros l done l' E; cbn [Fs.mkdirs] in E.
  - injection E as <-. repeat split; auto. intros H; now elim H.
  - set (here := (done ++ [x])%list) in *.
    assert (Hassoc : forall a, (here ++ a = done ++ x :: a)%list).
    { intros a. subst here. now rewrite <- app_assoc. }
    destruct (Fs.lookup_nodes here l) as [[|c]|] eqn:El.
    + destruct (IH _ _ _ E) as (H1 & H2 & H3). repeat split.
      * exact H1.
      * intros k n Hk. destruct (H2 k n Hk) as [H|(-> & a & b & -> & Ha & ->)]; [now left |].
        right. split; [reflexivity |]. exists (x :: a), b. repeat split; [discriminate |].
        apply Hassoc.
      * intros _. destruct todo as [|y todo].
        -- rewrite <- Hassoc, app_nil_r. apply H1. exact El.
        -- rewrite <- Hassoc. apply H3. discriminate.
    + destruct todo; discriminate E.
    + destruct (IH _ _ _ E) as (H1 & H2 & H3). repeat split.
      * intros k n Hk. apply H1. rewrite lookup_nodes_cons.
        destruct (list_eq_dec string_dec k here) as [->|_]; [congruence | exact Hk].
      * intros k n Hk. destruct (H2 k n Hk) as [H|(-> & a & b & -> & Ha & ->)].
        -- rewrite lookup_nodes_cons in H.
           destruct (list_eq_dec string_dec k here) as [->|_]; [| now left].
           injection H as <-. right. split; [reflexivity |].
           exists [x], todo. repeat split; discriminate.
        -- right. split; [reflexivity |]. exists (x :: a), b. repeat split; [discriminate |].
           apply Hassoc.
      * intros _. destruct todo as [|y todo].
        -- rewrite <- Hassoc, app_nil_r. apply H1. rewrite lookup_nodes_cons.
           destruct (list_eq_dec string_dec here here) as [_|n]; [reflexivity | now elim n].
        -- rewrite <- Hassoc. apply H3. discriminate.
Qed.

Lemma makedirs_inv fs0 out_dir fs1 :
  Fs.makedirs fs0 out_dir = Ok fs1 ->
  out_dir <> ""
  /\ Fs.cwd fs1 = Fs.cwd fs0
  /\ Fs.mkdirs out_dir (Fs.nodes fs0) [] (Fs.components fs0 out_dir) = Ok (Fs.nodes fs1).
Proof.
  unfold Fs.makedirs. destruct out_dir as [|c out_dir]; [discriminate |].
  destruct (Fs.mkdirs _ _ _ _) as [l|e]; [| discriminate].
  cbn [bind]. intros E. injection E as <-. repeat split. discriminate.
Qed.





Section SeedCheck.

Variable bracketed_host_ok : string -> bool.
Variable iter_order : list string -> list string.
Variable session : session_t.


End SeedCheck.



(** * Further properties *)

(** ** URL normaliser and link extractor *)

Lemma startswith_append p r : Py.startswith (p ++ r) p = true.
Proof. apply prefix_append. Qed.

Lemma in_snapshot_fixed_point u :
  is_in_snapshot u = true -> normalize_archived_url u = Some u.
Proof.
  intros H. apply in_snapshot_inv in H as [r ->].
  unfold normalize_archived_url, Py.startswith.
  change (WAYBACK_PREFIX ++ r)
    with ("https://web.archive.org/web/" ++ (SNAPSHOT_TIMESTAMP ++ r)).
  now rewrite (prefix_append "https://web.archive.org/web/").
Qed.

(** What is returned is the argument, or the argument with the scheme
    or the scheme and the host put before it. *)
Lemma normalize_archived_url_inv url v :
  normalize_archived_url url = Some v ->
  Py.startswith v "https://web.archive.org/" = true
  /\ (v = url \/ v = "https:" ++ url \/ v = "https://web.archive.org" ++ url).
Proof.
  unfold normalize_archived_url.
  destruct url as [|c url]; [discriminate |].
  destruct (Py.startswith (String c url) "//web.archive.org/") eqn:E1.
  { intros H. injection H as <-. apply prefix_inv in E1 as [r ->].
    split; [exact (prefix_append "https://web.archive.org/" r) | right; now left]. }
  destruct (Py.startswith (String c url) "/web/") eqn:E2.
  { intros H. injection H as <-. apply prefix_inv in E2 as [r ->].
    split; [exact (prefix_append "https://web.archive.org/" ("web/" ++ r))
           | right; now right]. }
  destruct (Py.startswith (String c url) "https://web.archive.org/web/") eqn:E3.
  { intros H. injection H as <-. apply prefix_inv in E3 as [r E3]. rewrite E3.
    split; [exact (prefix_append "https://web.archive.org/" ("web/" ++ r))
           | now left]. }
  destruct (Py.startswith (String c url) WAYBACK_PREFIX) eqn:E4; [| discriminate].
  exfalso. apply prefix_inv in E4 as [r E4]. rewrite E4 in E3. discriminate E3.
Qed.

(** [normalize_archived_url] on the three spellings of an archive
    address.  A protocol-relative address [//web.archive.org/web/t], a
    site-relative one [/web/t] and the absolute one
    [https://web.archive.org/web/t] all give the absolute one; an
    in-snapshot address is a fixed point; and whatever is returned is
    the argument itself or the argument with [https:] or
    [https://web.archive.org] put before it, and starts with
    [https://web.archive.org/].  (The fourth test, on [WAYBACK_PREFIX],
    never decides: what passes it has passed the third.) *)
Theorem normalize_archived_url_canonical :
  (forall t : string,
     normalize_archived_url ("//web.archive.org/web/" ++ t)
     = Some ("https://web.archive.org/web/" ++ t)
     /\ normalize_archived_url ("/web/" ++ t)
        = Some ("https://web.archive.org/web/" ++ t)
     /\ normalize_archived_url ("https://web.archive.org/web/" ++ t)
        = Some ("https://web.archive.org/web/" ++ t))
  /\ (forall u : string, is_in_snapshot u = true -> normalize_archived_url u = Some u)
  /\ (forall url v : string,
        normalize_archived_url url = Some v ->
        Py.startswith v "https://web.archive.org/" = true
        /\ (v = url \/ v = "https:" ++ url \/ v = "https://web.archive.org" ++ url)).
Proof.
  split; [| split].
  - intros t. split; [reflexivity |]. split.
    + unfold normalize_archived_url, Py.startswith.
      now rewrite (prefix_append "/web/" t).
    + unfold normalize_archived_url, Py.startswith.
      now rewrite (prefix_append "https://web.archive.org/web/" t).
  - exact in_snapshot_fixed_point.
  - exact normalize_archived_url_inv.
Qed.

Lemma normalize_archived_url_canonical_witness :
  is_in_snapshot Scenario.about = true
  /\ normalize_archived_url Scenario.about = Some Scenario.about
  /\ normalize_archived_url "/web/20250408214013/https://example.com/about"
     = Some Scenario.about.
Proof.
  destruct normalize_archived_url_canonical as (Hspell & Hfix & _).
  split; [reflexivity |]. split; [apply Hfix; reflexivity |].
  exact (proj1 (proj2 (Hspell "20250408214013/https://example.com/about"))).
Defined.

Lemma consider_canonical found val :
  Forall canonical found -> Forall canonical (consider found val).
Proof.
  intros H. unfold consider. destruct (normalize_archived_url val) as [u|]; [| exact H].
  destruct (Py.truthy (Some u) && is_in_snapshot u) eqn:E; [| exact H].
  apply andb_prop in E as [_ E]. unfold set_add.
  destruct (mem u found); [exact H |].
  apply Forall_app. split; [exact H |]. constructor; [| constructor].
  split; [exact E | now apply in_snapshot_fixed_point].
Qed.

Lemma fold_consider_canonical vals : forall found,
  Forall canonical found -> Forall canonical (fold_left consider vals found).
Proof.
  induction vals as [|v vals IH]; intros found H; [exact H |].
  apply IH. now apply consider_canonical.
Qed.

Lemma find_links_canonical html : Forall canonical (find_links_to_follow html).
Proof.
  unfold find_links_to_follow.
  apply fold_consider_canonical.
  generalize (map (Re.group_or_empty 2) (Re.findall srcset_flags srcset_pattern html)).
  intros vals.
  assert (H : Forall canonical
                (fold_left consider
                   (map (Re.group_or_empty 2) (Re.findall attr_flags attr_pattern html)) []))
    by (apply fold_consider_canonical; constructor).
  revert H. generalize (fold_left consider
                       (map (Re.group_or_empty 2) (Re.findall attr_flags attr_pattern html)) []).
  induction vals as [|v vals IH]; intros found H; [exact H |].
  cbn [fold_left]. apply IH. now apply fold_consider_canonical.
Qed.

(** What [find_links_to_follow] returns, for every text: no address
    twice, and only in-snapshot addresses in normal form.  So the test
    [is_in_snapshot(link)] the loop makes before it queues a link never
    fails, and a link is queued exactly when it is not yet visited. *)
Theorem find_links_to_follow_canonical :
  forall html : string,
    NoDup (find_links_to_follow html)
    /\ Forall (fun u => is_in_snapshot u = true /\ normalize_archived_url u = Some u)
         (find_links_to_follow html)
    /\ (forall vis : list string,
          admitted vis (find_links_to_follow html)
          = filter (fun link => negb (mem link vis)) (find_links_to_follow html)).
Proof.
  intros html. split; [apply find_links_NoDup |]. split; [apply find_links_canonical |].
  intros vis. unfold admitted. apply filter_ext_in. intros u Hu.
  pose proof (find_links_canonical html) as H. rewrite Forall_forall in H.
  destruct (H u Hu) as [Hs _]. now rewrite Hs, andb_true_r.
Qed.

(** ** The archived-address pattern, read backwards *)

Lemma consumed_refl s : consumed s s "".
Proof. split; reflexivity. Qed.

Lemma consumed_trans s1 s2 s3 w1 w2 :
  consumed s1 s2 w1 -> consumed s2 s3 w2 -> consumed s1 s3 (w1 ++ w2).
Proof.
  intros [R1 C1] [R2 C2]. split; [| congruence].
  now rewrite R1, R2, append_assoc.
Qed.

Lemma step_inv p k s x :
  Re.step p k s = Some x ->
  exists d s', consumed s s' (String d "") /\ p d = true /\ k s' = Some x.
Proof.
  unfold Re.step. destruct (Re.rest s) as [|d r] eqn:Er; [discriminate |].
  destruct (p d) eqn:Ep; [| discriminate]. intros Hk.
  exists d. eexists. split; [| split; [exact Ep | exact Hk]].
  split; [exact Er | reflexivity].
Qed.

Lemma chr_inv fl c k s x :
  Re.ignorecase fl = false ->
  Re.rmatch fl (Re.Chr c) k s = Some x ->
  exists s', consumed s s' (String c "") /\ k s' = Some x.
Proof.
  intros Hfl H. cbn [Re.rmatch] in H.
  apply step_inv in H as (d & s' & Hc & Hp & Hk).
  unfold Re.chr_eq in Hp. rewrite Hfl in Hp. apply Ascii.eqb_eq in Hp as <-.
  now exists s'.
Qed.

Lemma str_inv fl lit :
  Re.ignorecase fl = false ->
  forall k s x,
    Re.rmatch fl (Re.Str lit) k s = Some x ->
    exists s', consumed s s' lit /\ k s' = Some x.
Proof.
  intros Hfl. induction lit as [|c lit IH]; intros k s x H.
  - exists s. split; [apply consumed_refl | exact H].
  - cbn [Re.Str] in H. rewrite rmatch_cat in H.
    apply (chr_inv fl c _ s x Hfl) in H as (s1 & H1 & H).
    apply IH in H as (s2 & H2 & H).
    exists s2. split; [exact (consumed_trans _ _ _ _ _ H1 H2) | exact H].
Qed.

Lemma opt_inv fl c k s x :
  Re.ignorecase fl = false ->
  Re.rmatch fl (Re.Opt true (Re.Chr c)) k s = Some x ->
  exists w s', consumed s s' w /\ (w = "" \/ w = String c "") /\ k s' = Some x.
Proof.
  intros Hfl H. unfold Re.Opt in H.
  change (match Re.rmatch fl (Re.Chr c) k s with
          | Some s' => Some s'
          | None => k s
          end = Some x) in H.
  destruct (Re.rmatch fl (Re.Chr c) k s) as [y|] eqn:E.
  - injection H as ->. apply (chr_inv fl c k s x Hfl) in E as (s' & Hc & Hk).
    exists (String c ""), s'. auto.
  - exists "", s. split; [apply consumed_refl | auto].
Qed.

Lemma times_inv fl p n :
  forall k s x,
    Re.rmatch fl (Re.Times n (Re.Cls p)) k s = Some x ->
    exists w s',
      consumed s s' w /\ String.length w = n /\ all_chars p w = true /\ k s' = Some x.
Proof.
  induction n as [|n IH]; intros k s x H.
  - exists "", s. split; [apply consumed_refl | auto].
  - cbn [Re.Times] in H. rewrite rmatch_cat in H.
    change (Re.rmatch fl (Re.Cls p)) with (Re.step p) in H.
    apply step_inv in H as (d & s1 & H1 & Hp & H).
    apply IH in H as (w & s2 & H2 & Hl & Hw & H).
    exists (String d w), s2. split; [exact (consumed_trans _ _ _ _ _ H1 H2) |].
    cbn [String.length all_chars]. rewrite Hp, Hw, Hl. auto.
Qed.

Lemma star_loop_inv p k n :
  forall s x,
    Re.star_loop (Re.step p) true k n s = Some x ->
    exists w s', consumed s s' w /\ all_chars p w = true /\ k s' = Some x.
Proof.
  induction n as [|n IH]; intros s x H; cbn [Re.star_loop] in H.
  - exists "", s. split; [apply consumed_refl | auto].
  - match type of H with
    | match ?b with _ => _ end = _ => destruct b as [y|] eqn:E
    end.
    + injection H as ->. apply step_inv in E as (d & s1 & H1 & Hp & H).
      destruct (String.length (Re.rest s1) <? String.length (Re.rest s)); [| discriminate].
      apply IH in H as (w & s2 & H2 & Hw & H).
      exists (String d w), s2. split; [exact (consumed_trans _ _ _ _ _ H1 H2) |].
      cbn [all_chars]. rewrite Hp, Hw. auto.
    + exists "", s. split; [apply consumed_refl | auto].
Qed.

Lemma star_inv fl p k s x :
  Re.rmatch fl (Re.Star true (Re.Cls p)) k s = Some x ->
  exists w s', consumed s s' w /\ all_chars p w = true /\ k s' = Some x.
Proof. apply star_loop_inv. Qed.

Lemma plus_any_inv fl k s x :
  Re.dotall fl = false ->
  Re.rmatch fl (Re.Plus true Re.Any) k s = Some x ->
  exists d w s',
    consumed s s' (String d w) /\ all_chars not_newline (String d w) = true
    /\ k s' = Some x.
Proof.
  intros Hfl H. unfold Re.Plus in H. rewrite rmatch_cat in H.
  change (Re.rmatch fl Re.Any)
    with (Re.step (fun d => Re.dotall fl || negb (Ascii.eqb d Re.newline))) in H.
  rewrite Hfl in H. cbn [orb] in H.
  apply step_inv in H as (d & s1 & H1 & Hp & H).
  change (Re.rmatch fl (Re.Star true Re.Any) k s1)
    with (Re.star_loop (Re.step (fun d => Re.dotall fl || negb (Ascii.eqb d Re.newline)))
            true k (String.length (Re.rest s1)) s1) in H.
  rewrite Hfl in H. cbn [orb] in H.
  apply star_loop_inv in H as (w & s2 & H2 & Hw & H).
  exists d, w, s2. split; [exact (consumed_trans _ _ _ _ _ H1 H2) |].
  cbn [all_chars]. unfold not_newline at 1. rewrite Hp. auto.
Qed.

Lemma tail_inv k s x :
  Re.rmatch no_flags original_tail k s = Some x ->
  exists O s',
    consumed s s' O /\ web_address O = true /\ all_chars not_newline O = true
    /\ k s' = Some x.
Proof.
  unfold original_tail. intros H.
  rewrite rmatch_cat in H. apply str_inv in H as (s1 & H1 & H); [| reflexivity].
  rewrite rmatch_cat in H. apply opt_inv in H as (o & s2 & H2 & Ho & H); [| reflexivity].
  rewrite rmatch_cat in H. apply str_inv in H as (s3 & H3 & H); [| reflexivity].
  apply plus_any_inv in H as (d & w & s4 & H4 & Hw & H); [| reflexivity].
  exists ("http" ++ o ++ "://" ++ String d w), s4.
  split; [| split; [| split; [| exact H]]].
  - exact (consumed_trans _ _ _ _ _ H1
             (consumed_trans _ _ _ _ _ H2 (consumed_trans _ _ _ _ _ H3 H4))).
  - unfold web_address. destruct Ho as [-> | ->]; cbn [append].
    + change (String.prefix "http://" ("http://" ++ String d w)
              && (7 <? String.length ("http://" ++ String d w))
              || String.prefix "https://" ("http://" ++ String d w)
                 && (8 <? String.length ("http://" ++ String d w)) = true).
      rewrite prefix_append, length_append. reflexivity.
    + change (String.prefix "http://" ("https://" ++ String d w)
              && (7 <? String.length ("https://" ++ String d w))
              || String.prefix "https://" ("https://" ++ String d w)
                 && (8 <? String.length ("https://" ++ String d w)) = true).
      rewrite (prefix_append "https://"), length_append. cbn. reflexivity.
  - destruct Ho as [-> | ->]; cbn [append all_chars]; cbn [all_chars] in Hw; exact Hw.
Qed.

Lemma take_sub_append w r : Py.take (String.length (w ++ r) - String.length r) (w ++ r) = w.
Proof.
  rewrite length_append. replace (String.length w + String.length r - String.length r)
    with (String.length w) by lia. apply take_append.
Qed.

Lemma extract_original_url_sound a O :
  extract_original_url a = Some O ->
  web_address O = true /\ all_chars not_newline O = true /\ archived a O.
Proof.
  unfold extract_original_url, Re.match_.
  destruct (Re.rmatch no_flags archived_pattern Some _) as [x|] eqn:H; [| discriminate].
  intros Hg. unfold archived_pattern in H.
  rewrite rmatch_cat in H.
  change (Re.rmatch no_flags Re.Bos ?k ?s)
    with (match Re.prev s with None => k s | Some _ => None end) in H.
  cbn [Re.prev] in H. rewrite rmatch_cat in H.
  apply str_inv in H as (s1 & H1 & H); [| reflexivity].
  rewrite rmatch_cat in H. apply opt_inv in H as (o & s2 & H2 & Ho & H); [| reflexivity].
  rewrite rmatch_cat in H. apply str_inv in H as (s3 & H3 & H); [| reflexivity].
  rewrite rmatch_cat in H. apply times_inv in H as (ts & s4 & H4 & Hl & Hts & H).
  rewrite rmatch_cat in H. apply star_inv in H as (m & s5 & H5 & Hm & H).
  rewrite rmatch_cat in H. apply chr_inv in H as (s6 & H6 & H); [| reflexivity].
  rewrite rmatch_cat in H.
  change (Re.rmatch no_flags (Re.Grp 1 original_tail) ?k ?s)
    with (Re.rmatch no_flags original_tail
            (fun s1 =>
               k {| Re.prev := Re.prev s1; Re.rest := Re.rest s1;
                    Re.caps :=
                      (1, Py.take (String.length (Re.rest s) - String.length (Re.rest s1))
                            (Re.rest s)) :: Re.caps s1 |}) s) in H.
  apply tail_inv in H as (O' & s7 & [H7 C7] & HO & Hnl & H).
  rewrite H7, take_sub_append in H. cbn [Re.rmatch Re.rest] in H.
  assert (Hend : (Re.rest s7 = "" \/ Re.rest s7 = UrlParse.lf)
                 /\ Re.caps x = (1, O') :: Re.caps s7).
  { destruct (Re.rest s7) as [|c [|c' r]] eqn:Er; try discriminate.
    - injection H as <-. auto.
    - destruct (Ascii.eqb_spec c Re.newline) as [->|]; [| discriminate].
      injection H as <-. split; [right |]; reflexivity. }
  destruct Hend as [Hend Hx]. rewrite Hx in Hg. cbn in Hg. injection Hg as <-.
  split; [exact HO |]. split; [exact Hnl |].
  exists o, ts, m, (Re.rest s7). repeat (split; try assumption).
  pose proof (consumed_trans _ _ _ _ _ H1
    (consumed_trans _ _ _ _ _ H2
      (consumed_trans _ _ _ _ _ H3
        (consumed_trans _ _ _ _ _ H4
          (consumed_trans _ _ _ _ _ H5 H6))))) as [R _].
  cbn [Re.rest] in R. rewrite R, H7.
  repeat rewrite append_assoc. reflexivity.
Qed.

Lemma rmatch_plus_any_then k c l r cs x pv :
  all_chars not_newline (String c l) = true -> stops not_newline r ->
  k {| Re.prev := last_or (Some c) l; Re.rest := r; Re.caps := cs |} = Some x ->
  Re.rmatch no_flags (Re.Plus true Re.Any) k
    {| Re.prev := pv; Re.rest := String c l ++ r; Re.caps := cs |} = Some x.
Proof.
  intros Hl Hr Hk. cbn [all_chars] in Hl. apply andb_prop in Hl as [Hc Hl].
  unfold Re.Plus. rewrite rmatch_cat.
  change (Re.rmatch no_flags Re.Any) with (Re.step not_newline).
  unfold Re.step at 1. cbn [append Re.rest Re.caps]. rewrite Hc.
  change (Re.star_loop (Re.step not_newline) true k (String.length (l ++ r))
            {| Re.prev := Some c; Re.rest := l ++ r; Re.caps := cs |} = Some x).
  apply star_loop_greedy; try assumption. rewrite length_append. lia.
Qed.

Lemma rmatch_tail_then O r k pv cs x :
  web_address O = true ->
  all_chars not_newline O = true ->
  stops not_newline r ->
  k {| Re.prev := Py.last_char O; Re.rest := r; Re.caps := cs |} = Some x ->
  Re.rmatch no_flags original_tail k {| Re.prev := pv; Re.rest := O ++ r; Re.caps := cs |}
  = Some x.
Proof.
  intros HO Hnl Hr Hk. unfold original_tail.
  destruct (web_address_inv O HO) as (c & tail & [-> | ->]).
  - change (("http://" ++ String c tail) ++ r) with ("http" ++ ("://" ++ (String c tail ++ r))).
    rewrite rmatch_cat, (rmatch_str no_flags "http") by reflexivity.
    rewrite rmatch_cat. cbn [append].
    rewrite rmatch_opt_skipped by (reflexivity || discriminate).
    rewrite rmatch_cat, (rmatch_str no_flags "://" _ _ (String c (tail ++ r))) by reflexivity.
    apply (rmatch_plus_any_then k c tail r); [exact Hnl | exact Hr |].
    rewrite <- last_char_last_or. exact Hk.
  - change (("https://" ++ String c tail) ++ r)
      with ("http" ++ String "s" ("://" ++ (String c tail ++ r))).
    rewrite rmatch_cat, (rmatch_str no_flags "http") by reflexivity.
    rewrite rmatch_cat. apply rmatch_opt_taken; [reflexivity |].
    rewrite rmatch_cat, (rmatch_str no_flags "://") by reflexivity.
    apply (rmatch_plus_any_then k c tail r); [exact Hnl | exact Hr |].
    rewrite <- last_char_last_or. exact Hk.
Qed.

Lemma extract_original_url_complete a O :
  web_address O = true -> all_chars not_newline O = true -> archived a O ->
  extract_original_url a = Some O.
Proof.
  intros HO Hnl (s & ts & m & nl & -> & Hs & Hl & Hts & Hm & Hn).
  assert (Hgoal :
    Re.rmatch no_flags archived_pattern Some
      {| Re.prev := None;
         Re.rest := "http" ++ s ++ "://web.archive.org/web/" ++ ts ++ m ++ "/" ++ O ++ nl;
         Re.caps := [] |}
    = Some {| Re.prev := Py.last_char O; Re.rest := nl; Re.caps := [(1, O)] |}).
  2: { unfold extract_original_url, Re.match_. rewrite Hgoal. reflexivity. }
  unfold archived_pattern.
  rewrite rmatch_cat. change (Re.rmatch no_flags Re.Bos ?k ?s) with (k s).
  rewrite rmatch_cat, (rmatch_str no_flags "http") by reflexivity.
  rewrite rmatch_cat.
  assert (Hrest : forall pv,
    Re.rmatch no_flags
      (Re.Cat (Re.Str "://web.archive.org/web/")
         (Re.Cat (Re.Times 14 (Re.Cls Py.isdigit))
            (Re.Cat (Re.Star true (Re.Cls modifier_char))
               (Re.Cat (Re.Chr "/") (Re.Cat (Re.Grp 1 original_tail) Re.Eos))))) Some
      {| Re.prev := pv;
         Re.rest := "://web.archive.org/web/" ++ ts ++ m ++ "/" ++ O ++ nl;
         Re.caps := [] |}
    = Some {| Re.prev := Py.last_char O; Re.rest := nl; Re.caps := [(1, O)] |}).
  { intros pv.
    rewrite rmatch_cat, (rmatch_str no_flags "://web.archive.org/web/") by reflexivity.
    rewrite rmatch_cat, <- Hl, rmatch_times by exact Hts.
    rewrite rmatch_cat. apply rmatch_star_class; [exact Hm | reflexivity |].
    cbn [append]. rewrite rmatch_cat, rmatch_chr by reflexivity.
    rewrite rmatch_cat.
    change (Re.rmatch no_flags (Re.Grp 1 original_tail) ?k ?s)
      with (Re.rmatch no_flags original_tail
              (fun s1 =>
                 k {| Re.prev := Re.prev s1; Re.rest := Re.rest s1;
                      Re.caps :=
                        (1, Py.take (String.length (Re.rest s) - String.length (Re.rest s1))
                              (Re.rest s)) :: Re.caps s1 |}) s).
    apply rmatch_tail_then; [exact HO | exact Hnl | |].
    - destruct Hn as [-> | ->]; [exact I | reflexivity].
    - cbn [Re.rest Re.prev Re.caps]. rewrite take_sub_append.
      destruct Hn as [-> | ->]; reflexivity. }
  destruct Hs as [-> | ->].
  - cbn [append]. rewrite rmatch_opt_skipped by (reflexivity || discriminate).
    apply Hrest.
  - apply rmatch_opt_taken; [reflexivity |]. apply Hrest.
Qed.

(** [extract_original_url] in both directions.  The original address
    [O] is recovered from every text of the shape [archived]: with
    either scheme, any fourteen digits as timestamp, any modifier, and
    with or without one line feed at the end, when [O] is a web address
    without line feed.  Conversely, for a text of ASCII characters
    (where [\d] means [0-9]), whenever an address is recovered the text
    has that shape, the address is a web address without line feed, so
    never empty, and it is the origin the loop maps the text from. *)
Theorem extract_original_url_shape :
  (forall a O : string,
     web_address O = true ->
     all_chars not_newline O = true ->
     archived a O ->
     extract_original_url a = Some O)
  /\ (forall a O : string,
        all_chars Py.isascii a = true ->
        extract_original_url a = Some O ->
        web_address O = true /\ all_chars not_newline O = true /\ archived a O
        /\ origin_of a = O).
Proof.
  split.
  - intros a O. apply extract_original_url_complete.
  - intros a O _ H. destruct (extract_original_url_sound a O H) as (HO & Hnl & Ha).
    repeat split; try assumption.
    unfold origin_of. rewrite H.
    destruct (web_address_inv O HO) as (c & tail & [-> | ->]); reflexivity.
Qed.

Lemma extract_original_url_shape_witness :
  all_chars Py.isascii "http://web.archive.org/web/19991231235959id_/http://example.com/a"
  = true
  /\ extract_original_url
       "http://web.archive.org/web/19991231235959id_/http://example.com/a"
     = Some "http://example.com/a"
  /\ web_address "http://example.com/a" = true
  /\ archived "http://web.archive.org/web/19991231235959id_/http://example.com/a"
       "http://example.com/a"
  /\ origin_of "http://web.archive.org/web/19991231235959id_/http://example.com/a"
     = "http://example.com/a".
Proof.
  split; [reflexivity |]. split; [reflexivity |].
  destruct (proj2 extract_original_url_shape
              "http://web.archive.org/web/19991231235959id_/http://example.com/a"
              "http://example.com/a" eq_refl eq_refl) as (Hw & _ & Ha & Ho).
  repeat split; assumption.
Defined.

(** ** Where the links come from *)

Lemma within_refl s : within s s.
Proof. exists "", "". cbn [append]. now rewrite append_nil_r. Qed.

Lemma within_nil s : within "" s.
Proof. exists "", s. reflexivity. Qed.

Lemma within_app w s a b : within w s -> within w (a ++ s ++ b).
Proof.
  intros (x & y & ->). exists (a ++ x), (y ++ b).
  now rewrite !append_assoc.
Qed.

Lemma within_after w s a : within w s -> within w (a ++ s).
Proof.
  intros H. rewrite <- (append_nil_r s). now apply within_app.
Qed.

Lemma within_before w s b : within w s -> within w (s ++ b).
Proof. intros H. exact (within_app w s "" b H). Qed.

Lemma within_trans w s t : within w s -> within s t -> within w t.
Proof. intros H (a & b & ->). now apply within_app. Qed.

Lemma within_contains w s : within w s -> Py.contains s w = true.
Proof.
  intros (a & b & ->). induction a as [|c a IH].
  - cbn [append]. destruct (w ++ b) as [|c t] eqn:E.
    + destruct w; [reflexivity | discriminate E].
    + cbn [Py.contains]. now rewrite <- E, prefix_append.
  - cbn [append Py.contains]. now rewrite IH, orb_true_r.
Qed.

Lemma advance_refl s : advance s s.
Proof. split; [now exists "" | auto]. Qed.

Lemma advance_trans s1 s2 s3 : advance s1 s2 -> advance s2 s3 -> advance s1 s3.
Proof.
  intros [[a Ha] C1] [[b Hb] C2]. split.
  - exists (a ++ b). now rewrite Ha, Hb, append_assoc.
  - intros n g H. destruct (C2 n g H) as [H2 | H2]; [now apply C1 |].
    right. rewrite Ha. now apply within_after.
Qed.

Lemma consumed_advance s s' w : consumed s s' w -> advance s s'.
Proof.
  intros [R C]. split; [now exists w |]. intros n g H. left. now rewrite <- C.
Qed.

Lemma eat_suffix fl lit : forall p s p' s',
  Re.eat fl lit p s = Some (p', s') -> exists a, s = a ++ s'.
Proof.
  induction lit as [|c lit IH]; intros p s p' s' H; cbn [Re.eat] in H.
  - injection H as _ <-. now exists "".
  - destruct s as [|d s]; [discriminate H |].
    destruct (Re.chr_eq fl c d); [| discriminate H].
    apply IH in H as [a ->]. now exists (String d a).
Qed.

Lemma star_loop_advance body greedy k :
  (forall k' s x, body k' s = Some x -> exists s', k' s' = Some x /\ advance s s') ->
  forall n s x,
    Re.star_loop body greedy k n s = Some x ->
    exists s', k s' = Some x /\ advance s s'.
Proof.
  intros Hbody. induction n as [|n IH]; intros s x H; cbn [Re.star_loop] in H.
  - exists s. split; [exact H | apply advance_refl].
  - set (again := fun s1 : Re.mstate =>
                    if String.length (Re.rest s1) <? String.length (Re.rest s)
                    then Re.star_loop body greedy k n s1 else None) in H.
    assert (Hagain : body again s = Some x -> exists s', k s' = Some x /\ advance s s').
    { intros Hb. apply Hbody in Hb as (s1 & Ha & A1). unfold again in Ha.
      destruct (String.length (Re.rest s1) <? String.length (Re.rest s)); [| discriminate Ha].
      apply IH in Ha as (s2 & Hk & A2). exists s2. split; [exact Hk |].
      exact (advance_trans _ _ _ A1 A2). }
    destruct greedy.
    + destruct (body again s) as [y|] eqn:Eb.
      * injection H as ->. now apply Hagain.
      * exists s. split; [exact H | apply advance_refl].
    + destruct (k s) as [y|] eqn:Ek.
      * injection H as ->. exists s. split; [exact Ek | apply advance_refl].
      * now apply Hagain.
Qed.

(** Whatever the matcher captures is a piece of the subject. *)
Lemma rmatch_advance fl r : forall k s x,
  Re.rmatch fl r k s = Some x -> exists s', k s' = Some x /\ advance s s'.
Proof.
  induction r as [|c| |p|r1 IH1 r2 IH2|r1 IH1 r2 IH2|g r IH|n r IH|n| | |];
    intros k s x H; cbn [Re.rmatch] in H.
  - exists s. split; [exact H | apply advance_refl].
  - apply step_inv in H as (d & s' & Hc & _ & Hk). exists s'.
    split; [exact Hk | exact (consumed_advance _ _ _ Hc)].
  - apply step_inv in H as (d & s' & Hc & _ & Hk). exists s'.
    split; [exact Hk | exact (consumed_advance _ _ _ Hc)].
  - apply step_inv in H as (d & s' & Hc & _ & Hk). exists s'.
    split; [exact Hk | exact (consumed_advance _ _ _ Hc)].
  - apply IH1 in H as (s1 & H & A1). apply IH2 in H as (s2 & H & A2).
    exists s2. split; [exact H | exact (advance_trans _ _ _ A1 A2)].
  - destruct (Re.rmatch fl r1 k s) as [y|] eqn:E1.
    + injection H as ->. now apply IH1.
    + now apply IH2.
  - apply (star_loop_advance (Re.rmatch fl r) g k IH) in H. exact H.
  - apply IH in H as (s1 & H & [[a Ha] C1]).
    eexists. split; [exact H |]. split; cbn [Re.rest Re.caps].
    + now exists a.
    + intros m w [Hw | Hw]; [| now apply C1].
      injection Hw as _ <-. right. rewrite Ha, take_sub_append.
      exists "", (Re.rest s1). reflexivity.
  - destruct (Re.group n (Re.caps s)) as [g|]; [| discriminate H].
    destruct (Re.eat fl g (Re.prev s) (Re.rest s)) as [[p s']|] eqn:Ee; [| discriminate H].
    apply eat_suffix in Ee as [a Ha].
    eexists. split; [exact H |]. split; cbn [Re.rest Re.caps]; [now exists a | auto].
  - destruct (Re.prev s); [discriminate H |].
    exists s. split; [exact H | apply advance_refl].
  - exists s. split; [| apply advance_refl].
    destruct (Re.rest s) as [|c [|c' t]]; [exact H | | discriminate H].
    destruct (Ascii.eqb c Re.newline); [exact H | discriminate H].
  - destruct (xorb _ _); [| discriminate H].
    exists s. split; [exact H | apply advance_refl].
Qed.

Lemma findall_from_within fl r n : forall p s cs m g,
  In cs (Re.findall_from n fl r p s) -> In (m, g) cs -> within g s.
Proof.
  induction n as [|n IH]; intros p s cs m g Hcs Hg; cbn [Re.findall_from] in Hcs; [destruct Hcs |].
  assert (Htail : forall c s', s = String c s' ->
                    In cs (Re.findall_from n fl r (Some c) s') -> within g s).
  { intros c s' -> H. apply (within_after g s' (String c "")). exact (IH _ _ _ _ _ H Hg). }
  destruct (Re.rmatch fl r Some _) as [e|] eqn:E.
  - apply rmatch_advance in E as (s1 & Hs1 & [[a Ha] C]). injection Hs1 as ->.
    cbn [Re.rest Re.caps] in *.
    assert (Hhere : cs = Re.caps e -> within g s).
    { intros ->. destruct (C m g Hg) as [[] | H]. exact H. }
    destruct (String.length (Re.rest e) <? String.length s).
    + destruct Hcs as [<- | Hcs]; [now apply Hhere |].
      rewrite Ha. apply within_after. exact (IH _ _ _ _ _ Hcs Hg).
    + destruct Hcs as [<- | Hcs]; [now apply Hhere |].
      destruct s as [|c s']; [destruct Hcs |]. exact (Htail c s' eq_refl Hcs).
  - destruct s as [|c s']; [destruct Hcs |]. exact (Htail c s' eq_refl Hcs).
Qed.

Lemma group_In n cs : forall g, Re.group n cs = Some g -> In (n, g) cs.
Proof.
  induction cs as [|[m s] cs IH]; intros g H; cbn [Re.group] in H; [discriminate H |].
  destruct (Nat.eqb_spec m n) as [-> | _].
  - injection H as ->. now left.
  - right. now apply IH.
Qed.

(** The values [findall] reports stand in the subject. *)
Lemma findall_within fl r n html val :
  In val (map (Re.group_or_empty n) (Re.findall fl r html)) -> within val html.
Proof.
  intros H. apply in_map_iff in H as (cs & <- & Hcs).
  unfold Re.group_or_empty. destruct (Re.group n cs) as [g|] eqn:Eg; [| apply within_nil].
  apply group_In in Eg. exact (findall_from_within _ _ _ _ _ _ _ _ Hcs Eg).
Qed.

(** Reversal, as [rev_string] does it. *)
Lemma rev_string_acc s : forall acc, Py.rev_string s acc = Py.rev_string s "" ++ acc.
Proof.
  induction s as [|c s IH]; intros acc; cbn [Py.rev_string]; [reflexivity |].
  rewrite IH, (IH (String c "")), append_assoc. reflexivity.
Qed.

Lemma rev_string_app a b :
  Py.rev_string (a ++ b) "" = Py.rev_string b "" ++ Py.rev_string a "".
Proof.
  induction a as [|c a IH]; cbn [append Py.rev_string].
  - now rewrite append_nil_r.
  - rewrite (rev_string_acc (a ++ b) (String c "")), IH,
      (rev_string_acc a (String c "")), append_assoc. reflexivity.
Qed.

Lemma rev_string_involutive s : Py.rev_string (Py.rev_string s "") "" = s.
Proof.
  induction s as [|c s IH]; [reflexivity |].
  cbn [Py.rev_string]. rewrite (rev_string_acc s (String c "")), rev_string_app, IH.
  reflexivity.
Qed.

Lemma lstrip_ws_suffix s : exists a, s = a ++ Py.lstrip_ws s.
Proof.
  induction s as [|c s [a IH]]; [now exists "" |].
  cbn [Py.lstrip_ws]. destruct (Py.isspace c); [| now exists ""].
  exists (String c a). cbn [append]. now rewrite <- IH.
Qed.

Lemma strip_within s : within (Py.strip s) s.
Proof.
  unfold Py.strip.
  destruct (lstrip_ws_suffix s) as [a Ha].
  set (u := Py.lstrip_ws s) in *.
  destruct (lstrip_ws_suffix (Py.rev_string u "")) as [b Hb].
  set (v := Py.lstrip_ws (Py.rev_string u "")) in *.
  exists a, (Py.rev_string b "").
  rewrite <- rev_string_app, <- Hb, rev_string_involutive. exact Ha.
Qed.

Lemma split_acc_within c x : forall s cur,
  In x (Py.split_acc c s cur) -> within x (Py.rev_string cur "" ++ s).
Proof.
  induction s as [|d s IH]; intros cur H; cbn [Py.split_acc] in H.
  - destruct H as [<- | []]. rewrite append_nil_r. apply within_refl.
  - assert (Hrev : Py.rev_string (String d cur) "" ++ s = Py.rev_string cur "" ++ String d s).
    { cbn [Py.rev_string]. rewrite rev_string_acc, append_assoc. reflexivity. }
    destruct (Ascii.eqb d c).
    + destruct H as [<- | H].
      * apply within_before. apply within_refl.
      * apply IH in H. cbn [Py.rev_string append] in H.
        apply within_after. now apply (within_after x s (String d "")).
    + apply IH in H. now rewrite Hrev in H.
Qed.

Lemma split_within c x s : In x (Py.split c s) -> within x s.
Proof. intros H. apply split_acc_within in H. exact H. Qed.

Lemma url_part_within part : within (url_part part) part.
Proof.
  unfold url_part. destruct (Py.split " " (Py.strip part)) as [|x l] eqn:E; [apply within_nil |].
  apply (within_trans _ (Py.strip part)); [| apply strip_within].
  apply (split_within " "). rewrite E. now left.
Qed.

(** What [consider] adds is the normal form of the value considered. *)
Lemma fold_consider_from vals u : forall found,
  In u (fold_left consider vals found) ->
  In u found \/ exists val, In val vals /\ normalize_archived_url val = Some u.
Proof.
  induction vals as [|v vals IH]; intros found H; [now left |].
  cbn [fold_left] in H. apply IH in H as [H | (val & Hv & Hn)].
  - unfold consider in H. destruct (normalize_archived_url v) as [w|] eqn:En; [| now left].
    destruct (Py.truthy (Some w) && is_in_snapshot w); [| now left].
    unfold set_add in H. destruct (mem w found); [now left |].
    apply in_app_or in H as [H | [<- | []]]; [now left |].
    right. exists v. split; [now left | exact En].
  - right. exists val. split; [now right | exact Hn].
Qed.

Lemma fold_srcset_from vals u : forall found,
  In u (fold_left
          (fun found val => fold_left consider (map url_part (Py.split "," val)) found)
          vals found) ->
  In u found
  \/ exists val part,
       In val vals /\ In part (Py.split "," val)
       /\ normalize_archived_url (url_part part) = Some u.
Proof.
  induction vals as [|v vals IH]; intros found H; [now left |].
  cbn [fold_left] in H. apply IH in H as [H | (val & part & Hv & Hp & Hn)].
  - apply fold_consider_from in H as [H | (w & Hw & Hn)]; [now left |].
    apply in_map_iff in Hw as (part & <- & Hp).
    right. exists v, part. split; [now left | auto].
  - right. exists val, part. split; [now right | auto].
Qed.

(** The extractor invents no address.  Every link that
    [find_links_to_follow] returns is the normal form of a piece of the
    document: the value of an attribute, a part of a [srcset] value or
    the argument of a CSS [url(...)], as it stands in the text; so the
    link is that piece, or that piece with [https:] or
    [https://web.archive.org] put before it. *)
Theorem links_are_written_in_the_document :
  forall (html u : string),
    In u (find_links_to_follow html) ->
    exists val,
      Py.contains html val = true
      /\ normalize_archived_url val = Some u
      /\ (u = val \/ u = "https:" ++ val \/ u = "https://web.archive.org" ++ val).
Proof.
  intros html u H. unfold find_links_to_follow in H.
  assert (G : forall val, within val html -> normalize_archived_url val = Some u ->
                exists val,
                  Py.contains html val = true
                  /\ normalize_archived_url val = Some u
                  /\ (u = val \/ u = "https:" ++ val \/ u = "https://web.archive.org" ++ val)).
  { intros val Hw Hn. exists val. split; [now apply within_contains |].
    split; [exact Hn |]. now apply normalize_archived_url_inv in Hn as [_ Hn]. }
  apply fold_consider_from in H as [H | (val & Hv & Hn)].
  2: { apply findall_within in Hv. exact (G val Hv Hn). }
  apply fold_srcset_from in H as [H | (val & part & Hv & Hp & Hn)].
  2: { apply findall_within in Hv. apply split_within in Hp.
       apply (G (url_part part)); [| exact Hn].
       apply (within_trans _ part); [apply url_part_within |].
       exact (within_trans _ _ _ Hp Hv). }
  apply fold_consider_from in H as [[] | (val & Hv & Hn)].
  apply findall_within in Hv. exact (G val Hv Hn).
Qed.

Lemma links_are_written_in_the_document_witness :
  exists val,
    Py.contains Scenario.trap_page val = true
    /\ normalize_archived_url val = Some Scenario.trap
    /\ (Scenario.trap = val \/ Scenario.trap = "https:" ++ val
        \/ Scenario.trap = "https://web.archive.org" ++ val).
Proof.
  apply (links_are_written_in_the_document Scenario.trap_page Scenario.trap).
  vm_compute. now left.
Defined.

(** ** Local path mapper *)

Lemma rindex_from_app c a b : forall i last,
  Py.rindex_from c (a ++ b) i last
  = Py.rindex_from c b (i + Z.of_nat (String.length a)) (Py.rindex_from c a i last).
Proof.
  induction a as [|d a IH]; intros i last; cbn [append Py.rindex_from String.length].
  - now rewrite Z.add_0_r.
  - rewrite IH. f_equal. lia.
Qed.

Lemma rindex_from_range c a : forall i last,
  Py.rindex_from c a i last = last
  \/ (i <= Py.rindex_from c a i last < i + Z.of_nat (String.length a))%Z.
Proof.
  induction a as [|d a IH]; intros i last; cbn [Py.rindex_from String.length]; [now left |].
  destruct (IH (i + 1)%Z (if Ascii.eqb d c then i else last)) as [-> | H].
  - destruct (Ascii.eqb d c); [right; lia | now left].
  - right. lia.
Qed.

Lemma all_dots_index a : OsPath.all_dots (a ++ "index") = false.
Proof.
  induction a as [|d a IH]; [reflexivity |].
  cbn [append OsPath.all_dots]. rewrite IH. apply andb_false_r.
Qed.

Lemma length_drop k : forall t, String.length (Py.drop k t) = String.length t - k.
Proof. induction k as [|k IH]; intros [|x t]; simpl; auto. Qed.

(** The extension of a name that ends with [index.html]. *)
Lemma splitext_index p : OsPath.splitext (p ++ "index.html") = (p ++ "index", ".html").
Proof.
  unfold OsPath.splitext, Py.rfind.
  rewrite !rindex_from_app. cbn [Py.rindex_from Ascii.eqb Bool.eqb OsPath.sep].
  set (n := String.length p).
  set (sepIndex := Py.rindex_from OsPath.sep p 0 (-1)).
  assert (Hsep : (-1 <= sepIndex < Z.of_nat n)%Z).
  { subst sepIndex n. destruct (rindex_from_range OsPath.sep p 0 (-1)) as [-> | H]; lia. }
  set (dotIndex := (0 + Z.of_nat n + 1 + 1 + 1 + 1 + 1)%Z).
  assert (Hdot : dotIndex = Z.of_nat (n + 5)) by (subst dotIndex; lia).
  assert (Hlt : (sepIndex <? dotIndex)%Z = true) by (apply Z.ltb_lt; lia).
  rewrite Hlt.
  assert (Hbd : Py.bound (p ++ "index.html") dotIndex = n + 5).
  { unfold Py.bound. destruct (Z.ltb_spec dotIndex 0); lia. }
  assert (Hto : Py.slice_to (p ++ "index.html") dotIndex = p ++ "index").
  { unfold Py.slice_to. rewrite Hbd.
    change (p ++ "index.html") with (p ++ ("index" ++ ".html")).
    rewrite <- append_assoc.
    replace (n + 5) with (String.length (p ++ "index"))
      by (rewrite length_append; reflexivity).
    apply take_append. }
  assert (Hfrom : Py.slice_from (p ++ "index.html") dotIndex = ".html").
  { unfold Py.slice_from. rewrite Hbd.
    change (p ++ "index.html") with (p ++ ("index" ++ ".html")).
    rewrite <- append_assoc.
    replace (n + 5) with (String.length (p ++ "index"))
      by (rewrite length_append; reflexivity).
    apply drop_append. }
  assert (Hname : OsPath.all_dots (Py.slice (p ++ "index.html") (sepIndex + 1) dotIndex) = false).
  { unfold Py.slice. rewrite Hbd.
    set (j := Py.bound (p ++ "index.html") (sepIndex + 1)).
    assert (Hj : j <= n).
    { subst j. unfold Py.bound. destruct (Z.ltb_spec (sepIndex + 1) 0); lia. }
    rewrite drop_app_le by exact Hj.
    change (Py.drop j p ++ "index.html") with (Py.drop j p ++ ("index" ++ ".html")).
    rewrite <- append_assoc.
    replace (n + 5 - j) with (String.length (Py.drop j p ++ "index"))
      by (rewrite length_append, length_drop; cbn [String.length]; fold n; lia).
    rewrite take_append. apply all_dots_index. }
  rewrite Hname, Hto, Hfrom. reflexivity.
Qed.

Lemma lstrip_index a : Py.lstrip "/" (a ++ "index.html") = Py.lstrip "/" a ++ "index.html".
Proof.
  induction a as [|d a IH]; [reflexivity |].
  cbn [append Py.lstrip]. destruct (Py.mem_char d "/"); [exact IH | reflexivity].
Qed.

Lemma lstrip_head s : Py.startswith (Py.lstrip "/" s) "/" = false.
Proof.
  induction s as [|d s IH]; [reflexivity |].
  cbn [Py.lstrip]. destruct (Py.mem_char d "/") eqn:E; [exact IH |].
  unfold Py.startswith. cbn [String.prefix].
  destruct (ascii_dec "/" d) as [<-|]; [discriminate E | reflexivity].
Qed.

(** A joined path ends with its last part when that part is relative. *)
Lemma join2_suffix path b :
  Py.startswith (b ++ "index.html") "/" = false ->
  exists dir, OsPath.join2 path (b ++ "index.html") = dir ++ b ++ "index.html".
Proof.
  intros H. unfold OsPath.join2. rewrite H.
  destruct path as [|c path]; [now exists "" |].
  destruct (Py.endswith_char _ _).
  - now exists (String c path).
  - exists (String c path ++ "/"). now rewrite append_assoc.
Qed.

(** An original address whose path is empty or ends with a slash is
    mapped to a file named [index.html], and to the same one whatever
    the content type: for such an address the destination of the fetch
    and the target of a rewritten link agree. *)
Theorem directory_address_maps_to_index_html :
  forall (bracketed_host_ok : string -> bool) (root_dir original_url : string)
         (parsed : UrlParse.ParseResult),
    UrlParse.urlparse bracketed_host_ok original_url = Ok parsed ->
    UrlParse.path parsed = "" \/ Py.endswith_char (UrlParse.path parsed) "/" = true ->
    exists dir,
      forall content_type,
        guess_local_path bracketed_host_ok root_dir original_url content_type
        = Ok (dir ++ "index.html").
Proof.
  intros bho root_dir original_url parsed Hp Hdir.
  unfold guess_local_path. rewrite Hp. cbn [bind].
  set (path := UrlParse.path parsed) in *.
  assert (Hc : negb (OsPath.non_empty path) || Py.endswith_char path "/" = true).
  { destruct Hdir as [-> | ->]; [reflexivity | apply orb_true_r]. }
  rewrite Hc.
  set (base := match path with "" => "/" | _ => path end).
  rewrite splitext_index. cbn [snd OsPath.non_empty negb].
  rewrite lstrip_index. unfold OsPath.join. cbn [fold_left].
  assert (Hs : Py.startswith (Py.lstrip "/" base ++ "index.html") "/" = false).
  { pose proof (lstrip_head base) as H.
    destruct (Py.lstrip "/" base) as [|d r]; [reflexivity |].
    unfold Py.startswith in *. cbn [append String.prefix] in *.
    destruct (ascii_dec "/" d); [| reflexivity]. now destruct r. }
  destruct (join2_suffix (OsPath.join2 root_dir (UrlParse.netloc parsed))
              (Py.lstrip "/" base) Hs) as [dir Hd].
  exists (dir ++ Py.lstrip "/" base). intros content_type.
  rewrite Hd. now rewrite append_assoc.
Qed.

Lemma directory_address_maps_to_index_html_witness :
  exists dir,
    forall content_type,
      guess_local_path any_host "out" "https://example.com/docs/" content_type
      = Ok (dir ++ "index.html").
Proof.
  eapply (directory_address_maps_to_index_html any_host "out" "https://example.com/docs/").
  - vm_compute. reflexivity.
  - right. vm_compute. reflexivity.
Defined.

Lemma mem_char_take c n : forall t,
  Py.mem_char c (Py.take n t) = true -> Py.mem_char c t = true.
Proof.
  induction n as [|n IH]; intros [|d t]; cbn [Py.take Py.mem_char]; try discriminate.
  intros H. apply orb_prop in H as [H | H]; [now rewrite H |].
  now rewrite (IH t H), orb_true_r.
Qed.

(** No [c] stands before the first [c]. *)
Lemma index_from_first c t : forall i n,
  (0 <= i)%Z ->
  (Py.index_from c t i = (-1)%Z \/ Z.of_nat n <= Py.index_from c t i - i)%Z ->
  Py.mem_char c (Py.take n t) = false.
Proof.
  induction t as [|d t IH]; intros i n Hi H; [now destruct n |].
  destruct n as [|n]; [reflexivity |].
  cbn [Py.take Py.mem_char Py.index_from] in *.
  rewrite (Ascii.eqb_sym c d).
  destruct (Ascii.eqb d c).
  - destruct H as [H | H]; lia.
  - cbn [orb]. apply (IH (i + 1)%Z); [lia |].
    destruct H as [H | H]; [now left | right; lia].
Qed.

Lemma splitnetloc_no_slash url :
  Py.mem_char "/" (fst (UrlParse.splitnetloc url 2)) = false.
Proof.
  unfold UrlParse.splitnetloc. cbn [fst].
  set (len := Z.of_nat (String.length url)).
  set (i1 := Py.find_from "/" url 2).
  set (d1 := if (0 <=? i1)%Z then Z.min len i1 else len).
  set (i2 := Py.find_from "?" url 2).
  set (d2 := if (0 <=? i2)%Z then Z.min d1 i2 else d1).
  set (i3 := Py.find_from "#" url 2).
  set (d3 := if (0 <=? i3)%Z then Z.min d2 i3 else d2).
  assert (H0 : (0 <= len)%Z) by (subst len; lia).
  assert (H3 : (d3 <= d1)%Z).
  { subst d3 d2. destruct (0 <=? i3)%Z, (0 <=? i2)%Z; lia. }
  assert (H1 : (i1 = -1 \/ (d1 <= i1 /\ 2 <= i1))%Z).
  { assert (Hi : (i1 = -1 \/ 2 <= i1)%Z) by apply index_from_bounds.
    clearbody i1. subst d1.
    destruct Hi as [Hi | Hi]; [now left | right].
    destruct (Z.leb_spec 0 i1); lia. }
  unfold Py.slice.
  change (Py.bound url 2) with 2.
  assert (Hpos : (0 <= d3)%Z).
  { subst d3 d2 d1.
    destruct (Z.leb_spec 0 i3), (Z.leb_spec 0 i2), (Z.leb_spec 0 i1); lia. }
  assert (Hb : Py.bound url d3 - 2 = Z.to_nat (d3 - 2)).
  { unfold Py.bound. destruct (Z.ltb_spec d3 0); lia. }
  rewrite Hb.
  apply (index_from_first "/" (Py.drop 2 url) 2); [lia |].
  change (Py.index_from "/" (Py.drop 2 url) 2) with i1.
  destruct H1 as [H1 | H1]; [now left | right].
  destruct (Z.ltb_spec d3 2); lia.
Qed.

Lemma urlsplit_netloc bho url r :
  UrlParse.urlsplit bho url = Ok r -> Py.mem_char "/" (UrlParse.netloc r) = false.
Proof.
  unfold UrlParse.urlsplit.
  set (u := UrlParse.remove_unsafe (UrlParse.lstrip_c0 url)).
  destruct (_ && _ && _).
  - set (rest := Py.slice_from u (Py.find ":" u + 1)).
    destruct (String.eqb (Py.slice_to rest 2) "//").
    + pose proof (splitnetloc_no_slash rest) as Hn.
      destruct (UrlParse.splitnetloc rest 2) as [netloc url1]. cbn [fst] in Hn.
      destruct (_ || _); [discriminate |].
      destruct (_ && _ && _); [discriminate |]. cbn [bind].
      destruct (Py.mem_char "#" url1), (Py.mem_char "?" _);
        intros E; injection E as <-; exact Hn.
    + cbn [bind].
      destruct (Py.mem_char "#" rest), (Py.mem_char "?" _);
        intros E; injection E as <-; reflexivity.
  - destruct (String.eqb (Py.slice_to u 2) "//").
    + pose proof (splitnetloc_no_slash u) as Hn.
      destruct (UrlParse.splitnetloc u 2) as [netloc url1]. cbn [fst] in Hn.
      destruct (_ || _); [discriminate |].
      destruct (_ && _ && _); [discriminate |]. cbn [bind].
      destruct (Py.mem_char "#" url1), (Py.mem_char "?" _);
        intros E; injection E as <-; exact Hn.
    + cbn [bind].
      destruct (Py.mem_char "#" u), (Py.mem_char "?" _);
        intros E; injection E as <-; reflexivity.
Qed.

Lemma urlparse_netloc bho url parsed :
  UrlParse.urlparse bho url = Ok parsed -> Py.mem_char "/" (UrlParse.netloc parsed) = false.
Proof.
  unfold UrlParse.urlparse.
  destruct (UrlParse.urlsplit bho url) as [r|e] eqn:E; [| discriminate].
  apply urlsplit_netloc in E. cbn [bind].
  destruct (_ && _).
  - destruct (UrlParse.splitparams _). intros H. injection H as <-. exact E.
  - intros H. injection H as <-. exact E.
Qed.

Lemma startswith_no_slash s : Py.mem_char "/" s = false -> Py.startswith s "/" = false.
Proof.
  destruct s as [|c s]; [reflexivity |]. cbn [Py.mem_char]. intros H.
  apply orb_false_elim in H as [H _]. unfold Py.startswith. cbn [String.prefix].
  destruct (ascii_dec "/" c) as [<- | _]; [discriminate H | reflexivity].
Qed.

Lemma join2_prefix path b :
  Py.startswith b "/" = false -> exists r, OsPath.join2 path b = path ++ r.
Proof.
  intros H. unfold OsPath.join2. rewrite H.
  destruct path as [|c path]; [now exists b |].
  destruct (Py.endswith_char _ _); [now exists b | now exists ("/" ++ b)].
Qed.

(** The local path starts with the root directory, as a text: neither
    the host nor the path of the address makes [os.path.join] start
    over.  It is not confined to the root directory: [..] segments of
    the address are kept, and with enough of them the path resolves
    outside, as the one of
    [https://example.com/../../etc/hosts.allow] under [out] does. *)
Theorem local_path_starts_with_the_root :
  (forall (bracketed_host_ok : string -> bool) (root_dir original_url : string)
          (content_type : option string) (local_path : string),
     guess_local_path bracketed_host_ok root_dir original_url content_type = Ok local_path ->
     Py.startswith local_path root_dir = true)
  /\ (forall content_type,
        guess_local_path any_host "out" "https://example.com/../../etc/hosts.allow"
          content_type
        = Ok "out/example.com/../../etc/hosts.allow")
  /\ Fs.components Scenario.empty_disk "out" = ["out"]
  /\ Fs.components Scenario.empty_disk "out/example.com/../../etc/hosts.allow"
     = ["etc"; "hosts.allow"].
Proof.
  split.
  - intros bho root_dir original_url content_type local_path.
    unfold guess_local_path.
    destruct (UrlParse.urlparse bho original_url) as [parsed|e] eqn:E; [| discriminate].
    apply urlparse_netloc in E. cbn [bind].
    set (path := if negb (OsPath.non_empty (UrlParse.path parsed)) || _ then _ else _).
    set (path' := if negb (OsPath.non_empty (snd (OsPath.splitext path))) then _ else _).
    intros H. injection H as <-. unfold OsPath.join. cbn [fold_left].
    destruct (join2_prefix root_dir (UrlParse.netloc parsed) (startswith_no_slash _ E))
      as [r1 ->].
    destruct (join2_prefix (root_dir ++ r1) (Py.lstrip "/" path') (lstrip_head path'))
      as [r2 ->].
    rewrite append_assoc. apply prefix_append.
  - split; [| split; vm_compute; reflexivity].
    intros content_type. vm_compute. reflexivity.
Qed.

Lemma local_path_starts_with_the_root_witness :
  guess_local_path any_host "out" "https://example.com/a/b.png" None
  = Ok "out/example.com/a/b.png"
  /\ Py.startswith "out/example.com/a/b.png" "out" = true.
Proof.
  split; [reflexivity |].
  apply (proj1 local_path_starts_with_the_root any_host "out" "https://example.com/a/b.png"
           None).
  reflexivity.
Defined.

(** ** The replacement map *)

Lemma dict_set_fresh d k v :
  ~ In k (map fst d) -> dict_set d k v = (d ++ [(k, v)])%list.
Proof.
  induction d as [|[k' v'] d IH]; intros H; [reflexivity |].
  cbn [dict_set map fst] in *.
  destruct (String.eqb_spec k k') as [->|_]; [elim H; now left |].
  rewrite IH; [reflexivity | intros Hin; apply H; now right].
Qed.

Lemma build_replacements_entries bho cwd out_dir current_dir links :
  forall acc m,
    NoDup (map fst acc ++ links) ->
    build_replacements bho cwd out_dir current_dir links acc = Ok m ->
    exists added,
      m = (acc ++ added)%list
      /\ map fst added = filter recoverable links
      /\ Forall (fun kv => entry_of bho cwd out_dir current_dir (fst kv) (snd kv)) added.
Proof.
  induction links as [|link links IH]; intros acc m Hnd E; cbn [build_replacements] in E.
  - injection E as <-. exists []. rewrite app_nil_r. repeat split. constructor.
  - assert (Hnd' : NoDup (map fst acc ++ links)) by (now apply NoDup_remove_1 in Hnd).
    assert (Hfresh : ~ In link (map fst acc)).
    { apply NoDup_remove_2 in Hnd. intros H. apply Hnd. apply in_or_app. now left. }
    cbn [filter]. unfold recoverable at 1.
    destruct (extract_original_url link) as [orig|] eqn:Eo; [| now apply IH].
    destruct (Py.truthy (Some orig)) eqn:Et; [| now apply IH].
    destruct (guess_local_path bho out_dir orig None) as [target|e] eqn:Eg; [| discriminate E].
    cbn [bind] in E.
    destruct (OsPath.relpath cwd target current_dir) as [rel|e] eqn:Er; [| discriminate E].
    cbn [bind] in E. rewrite dict_set_fresh in E by exact Hfresh.
    apply IH in E as (added & -> & Hk & Hv).
    + exists ((link, Py.replace backslash "/" rel) :: added). split; [| split].
      * now rewrite <- app_assoc.
      * cbn [map fst]. now rewrite Hk.
      * constructor; [| exact Hv]. cbn [fst snd]. now exists orig, target, rel.
    + rewrite map_app. cbn [map fst]. rewrite <- app_assoc. exact Hnd.
Qed.

(** The replacement map of a document.  For links without repetition,
    the keys of the map are the links with a recoverable original
    address, each once and in the order of the links, and the value of
    each key is the path of its original address under the output
    directory (mapped with no content type), relative to the directory
    of the document, with forward slashes. *)
Theorem replacement_map_has_the_recoverable_links :
  forall (bracketed_host_ok : string -> bool) (cwd out_dir current_dir : string)
         (links : list string) (m : list (string * string)),
    NoDup links ->
    build_replacements bracketed_host_ok cwd out_dir current_dir links [] = Ok m ->
    map fst m = filter recoverable links
    /\ Forall (fun kv => entry_of bracketed_host_ok cwd out_dir current_dir (fst kv) (snd kv)) m.
Proof.
  intros bho cwd out_dir current_dir links m Hnd E.
  apply build_replacements_entries in E as (added & -> & Hk & Hv); [| exact Hnd].
  split; assumption.
Qed.

Lemma replacement_map_has_the_recoverable_links_witness :
  exists m,
    build_replacements any_host "/" "out" "out/example.com"
      [Scenario.about; Scenario.bare; Scenario.contact] [] = Ok m
    /\ map fst m = [Scenario.about; Scenario.contact]
    /\ Forall (fun kv => entry_of any_host "/" "out" "out/example.com" (fst kv) (snd kv)) m.
Proof.
  eexists. split; [vm_compute; reflexivity |].
  split; [reflexivity |].
  apply (replacement_map_has_the_recoverable_links any_host "/" "out" "out/example.com"
           [Scenario.about; Scenario.bare; Scenario.contact]).
  - repeat constructor; cbn; intuition discriminate.
  - vm_compute. reflexivity.
Defined.

(** Keys of the replacement map are links. *)
Lemma build_replacements_keys bho cwd out_dir current_dir links :
  forall acc m,
    build_replacements bho cwd out_dir current_dir links acc = Ok m ->
    incl (map fst m) (map fst acc ++ links).
Proof.
  induction links as [|link links IH]; intros acc m E; cbn [build_replacements] in E.
  - injection E as <-. rewrite app_nil_r. apply incl_refl.
  - assert (Hstep : forall acc', incl (map fst acc') (link :: map fst acc) ->
                      build_replacements bho cwd out_dir current_dir links acc' = Ok m ->
                      incl (map fst m) (map fst acc ++ link :: links)).
    { intros acc' Hi E'. apply IH in E'. intros k Hk. apply E' in Hk.
      apply in_app_or in Hk as [Hk | Hk].
      - apply Hi in Hk as [<- | Hk]; apply in_or_app; [right; now left | now left].
      - apply in_or_app. right. now right. }
    assert (Hsame : incl (map fst acc) (link :: map fst acc)) by (intros k Hk; now right).
    destruct (extract_original_url link) as [orig|]; [| exact (Hstep acc Hsame E)].
    destruct (Py.truthy (Some orig)); [| exact (Hstep acc Hsame E)].
    destruct (guess_local_path bho out_dir orig None) as [target|e]; [| discriminate E].
    cbn [bind] in E.
    destruct (OsPath.relpath cwd target current_dir) as [rel|e]; [| discriminate E].
    cbn [bind] in E. refine (Hstep _ _ E).
    clear. induction acc as [|[k' v'] acc IHa]; cbn [dict_set map fst].
    + intros k [<- | []]. now left.
    + destruct (String.eqb_spec link k') as [<- | _]; cbn [map fst].
      * intros k [<- | Hk]; [now left | right; now right].
      * intros k [<- | Hk]; [right; now left |].
        apply IHa in Hk as [<- | Hk]; [now left | right; now right].
Qed.

Lemma contains_prefix s p r : Py.contains s (p ++ r) = true -> Py.contains s p = true.
Proof.
  induction s as [|c s IH]; cbn [Py.contains]; intros H.
  - rewrite orb_false_r in *. apply prefix_inv in H as [t H].
    destruct p; [reflexivity | discriminate H].
  - apply orb_prop in H as [H | H].
    + apply prefix_inv in H as [t H]. rewrite append_assoc in H. rewrite H.
      now rewrite prefix_append.
    + now rewrite (IH H), orb_true_r.
Qed.

Lemma rewrite_absent m : forall html,
  Forall (fun kv => Py.contains html (fst kv) = false) m -> rewrite html m = html.
Proof.
  induction m as [|[k v] m IH]; intros html H; [reflexivity |].
  rewrite rewrite_cons. inversion H as [|? ? Hk Hm]; subst. cbn [fst] in Hk.
  rewrite replace_absent; [now apply IH | | exact Hk].
  intros ->. destruct html; discriminate Hk.
Qed.

(** The keys of the replacement map are normalized addresses, but
    [str.replace] looks for them in the text as fetched.  So a document
    that nowhere holds the text [WAYBACK_PREFIX] is written back as it
    is, whatever links were found in it: the links it holds in
    site-relative or protocol-relative form are followed and not
    rewritten. *)
Theorem links_in_relative_form_are_not_rewritten :
  forall (bracketed_host_ok : string -> bool) (iter_order : list string -> list string)
         (cwd out_dir current_dir html : string) (replacements : list (string * string)),
    (forall l, Permutation (iter_order l) l) ->
    Py.contains html WAYBACK_PREFIX = false ->
    build_replacements bracketed_host_ok cwd out_dir current_dir
      (iter_order (find_links_to_follow html)) [] = Ok replacements ->
    rewrite html replacements = html.
Proof.
  intros bho iter_order cwd out_dir current_dir html m Hperm Hno E.
  apply rewrite_absent. apply build_replacements_keys in E. cbn [map app] in E.
  rewrite Forall_forall. intros [k v] Hin. cbn [fst].
  assert (Hk : In k (find_links_to_follow html)).
  { apply (Permutation_in _ (Hperm _)). apply E. now apply (in_map fst) in Hin. }
  pose proof (find_links_canonical html) as Hc. rewrite Forall_forall in Hc.
  destruct (Hc k Hk) as [Hs _]. apply in_snapshot_inv in Hs as [r ->].
  destruct (Py.contains html (WAYBACK_PREFIX ++ r)) eqn:Ec; [| reflexivity].
  apply contains_prefix in Ec. congruence.
Qed.

Lemma links_in_relative_form_are_not_rewritten_witness :
  exists replacements,
    find_links_to_follow "<a href='/web/20250408214013/https://example.com/about'>x</a>"
    = [Scenario.about]
    /\ Py.contains "<a href='/web/20250408214013/https://example.com/about'>x</a>"
         WAYBACK_PREFIX = false
    /\ build_replacements any_host "/" "out" "out/example.com"
         (Scenario.insertion_order
            (find_links_to_follow
               "<a href='/web/20250408214013/https://example.com/about'>x</a>")) []
       = Ok replacements
    /\ map fst replacements = [Scenario.about]
    /\ rewrite "<a href='/web/20250408214013/https://example.com/about'>x</a>" replacements
       = "<a href='/web/20250408214013/https://example.com/about'>x</a>".
Proof.
  eexists. split; [vm_compute; reflexivity |]. split; [vm_compute; reflexivity |].
  split; [vm_compute; reflexivity |]. split; [reflexivity |].
  apply (links_in_relative_form_are_not_rewritten any_host Scenario.insertion_order
           "/" "out" "out/example.com").
  - intros l. apply Permutation_refl.
  - vm_compute. reflexivity.
  - vm_compute. reflexivity.
Defined.

(** ** The order of the frontier *)

Lemma gets_silent extra added l :
  forallb quiet extra = true ->
  gets (extra ++ map Put added ++ l) = gets l.
Proof.
  intros Hx. induction extra as [|e extra IH].
  - cbn [app]. induction added as [|u added IHa]; [reflexivity | exact IHa].
  - cbn [forallb] in Hx. apply andb_prop in Hx as [He Hx].
    destruct e; try discriminate He; cbn [app gets]; now apply IH.
Qed.

Section Order.

Variable bracketed_host_ok : string -> bool.
Variable iter_order : list string -> list string.
Variable session : session_t.
Variable out_dir : string.

Local Notation "'turn'" := (iteration bracketed_host_ok iter_order session out_dir).
Local Notation "'leads'" := (reaches bracketed_host_ok iter_order session out_dir).

Lemma fifo_iteration current s s' e :
  hd_error (q s) = Some current ->
  turn current s = (s', e) ->
  fifo s -> fifo s'.
Proof.
  intros Hhd E [Hf Hv].
  assert (Hq : q s = current :: tl (q s)).
  { destruct (q s) as [|x rest]; [discriminate |]. cbn in Hhd. injection Hhd as ->. reflexivity. }
  apply iteration_effect in E
    as [(Hmem & _ & Hv' & Hq' & Hl & _)
       |(Hmem & Hv' & added & extra & Hq' & Hl & Hx & Ha)].
  - unfold fifo. rewrite Hv', Hq', Hl. cbn [puts gets rev]. split.
    + rewrite Hf, Hq at 1. now rewrite <- app_assoc.
    + intros u Hu. right. now apply Hv.
  - unfold fifo. rewrite Hv', Hq', Hl.
    rewrite puts_silent, gets_silent by assumption.
    cbn [puts gets rev]. split.
    + rewrite rev_app_distr, rev_involutive, Hf, Hq at 1.
      rewrite <- !app_assoc. reflexivity.
    + intros u [<-|Hu]; [now left | right; now apply Hv].
Qed.

Lemma fifo_reaches s s' : leads s s' -> fifo s -> fifo s'.
Proof.
  induction 1 as [s | s s1 s2 current Hhd E _ IH | s s1 current e Hhd E]; intros I.
  - exact I.
  - apply IH. exact (fifo_iteration _ _ _ _ Hhd E I).
  - exact (fifo_iteration _ _ _ _ Hhd E I).
Qed.

End Order.

Lemma fifo_seeded fs1 start : fifo (seeded fs1 start).
Proof. split; [reflexivity | intros u []]. Qed.

(** The frontier is first in, first out: in every state of the loop,
    the addresses put on the queue, in the order of the puts, are those
    taken from it, in the order they were taken, followed by the queue
    itself. *)
Theorem frontier_is_first_in_first_out :
  forall (bracketed_host_ok : string -> bool) (iter_order : list string -> list string)
         (session : session_t) (out_dir start : string) (fs1 : Fs.t) (s : state),
    reaches bracketed_host_ok iter_order session out_dir (seeded fs1 start) s ->
    rev (puts (log s)) = (rev (gets (log s)) ++ q s)%list.
Proof.
  intros bho iter_order session out_dir start fs1 s Hr.
  exact (proj1 (fifo_reaches bho iter_order session out_dir _ _ Hr (fifo_seeded fs1 start))).
Qed.

Lemma frontier_is_first_in_first_out_witness :
  exists final,
    drain any_host Scenario.insertion_order Scenario.cycle_site 4 "out"
      (seeded Scenario.empty_disk Scenario.page_a) = Some (Finished, final)
    /\ rev (puts (log final)) = (rev (gets (log final)) ++ q final)%list.
Proof.
  destruct (drain any_host Scenario.insertion_order Scenario.cycle_site 4 "out"
              (seeded Scenario.empty_disk Scenario.page_a)) as [[o final]|] eqn:E;
    [| vm_compute in E; discriminate E].
  exists final.
  split; [vm_compute in E; injection E as <- <-; reflexivity |].
  exact (frontier_is_first_in_first_out any_host Scenario.insertion_order
           Scenario.cycle_site "out" Scenario.page_a Scenario.empty_disk final
           (drain_reaches _ _ _ _ _ _ _ _ E)).
Defined.

(** Started from an in-snapshot seed, the loop fetches in-snapshot
    addresses only, and each address it fetches had been put on the
    frontier. *)
Theorem only_snapshot_addresses_are_fetched :
  forall (bracketed_host_ok : string -> bool) (iter_order : list string -> list string)
         (session : session_t) (out_dir start : string) (fs1 : Fs.t) (s : state),
    is_in_snapshot (normalized start) = true ->
    reaches bracketed_host_ok iter_order session out_dir
      (seeded fs1 (normalized start)) s ->
    Forall (fun u => is_in_snapshot u = true) (fetches (log s))
    /\ incl (fetches (log s)) (puts (log s)).
Proof.
  intros bho iter_order session out_dir start fs1 s Hs Hr.
  pose proof (fifo_reaches bho iter_order session out_dir _ _ Hr (fifo_seeded fs1 _))
    as [Hf Hv].
  apply inv_reaches in Hr; [| now apply inv_seeded].
  destruct Hr as (_ & Ip & _ & _ & Ife & _ & _).
  assert (Hin : incl (fetches (log s)) (puts (log s))).
  { rewrite Ife. intros u Hu. apply Hv in Hu.
    apply in_rev. rewrite Hf. apply in_or_app. left. now apply -> in_rev. }
  split; [| exact Hin].
  apply Forall_forall. intros u Hu. rewrite Forall_forall in Ip. apply Ip. now apply Hin.
Qed.

Lemma only_snapshot_addresses_are_fetched_witness :
  exists final,
    drain any_host Scenario.insertion_order Scenario.cycle_site 4 "out"
      (seeded Scenario.empty_disk (normalized Scenario.page_a)) = Some (Finished, final)
    /\ Forall (fun u => is_in_snapshot u = true) (fetches (log final))
    /\ incl (fetches (log final)) (puts (log final)).
Proof.
  destruct (drain any_host Scenario.insertion_order Scenario.cycle_site 4 "out"
              (seeded Scenario.empty_disk (normalized Scenario.page_a)))
    as [[o final]|] eqn:E; [| vm_compute in E; discriminate E].
  exists final.
  split; [vm_compute in E; injection E as <- <-; reflexivity |].
  exact (only_snapshot_addresses_are_fetched any_host Scenario.insertion_order
           Scenario.cycle_site "out" Scenario.page_a Scenario.empty_disk final eq_refl
           (drain_reaches _ _ _ _ _ _ _ _ E)).
Defined.

(** ** The disk *)

Lemma same_kind_refl n : same_kind n n = true.
Proof. now destruct n. Qed.

Lemma same_kind_trans a b c : same_kind a b = true -> same_kind b c = true -> same_kind a c = true.
Proof. destruct a, b, c; auto; discriminate. Qed.

Lemma keeps_refl fs : keeps fs fs.
Proof. split; [reflexivity |]. intros k n H. exists n. split; [exact H | apply same_kind_refl]. Qed.

Lemma keeps_trans a b c : keeps a b -> keeps b c -> keeps a c.
Proof.
  intros [H1 K1] [H2 K2]. split; [congruence |].
  intros k n H. destruct (K1 k n H) as (n1 & Hn1 & S1).
  destruct (K2 k n1 Hn1) as (n2 & Hn2 & S2).
  exists n2. split; [exact Hn2 | now apply (same_kind_trans n n1 n2)].
Qed.

Lemma makedirs_keeps fs p fs' : Fs.makedirs fs p = Ok fs' -> keeps fs fs'.
Proof.
  intros H. apply makedirs_inv in H as (_ & Hcwd & Hmk).
  apply mkdirs_spec in Hmk as (Hkeep & _ & _).
  split; [exact Hcwd |]. intros [|x k] n Hn.
  - exists n. split; [exact Hn | apply same_kind_refl].
  - exists n. split; [cbn [Fs.lookup] in *; now apply Hkeep | apply same_kind_refl].
Qed.

Lemma ensure_directory_keeps fs path fs' :
  ensure_directory_for_file fs path = Ok fs' -> keeps fs fs'.
Proof.
  unfold ensure_directory_for_file.
  destruct (OsPath.non_empty _ && negb _).
  - apply makedirs_keeps.
  - intros H. injection H as <-. apply keeps_refl.
Qed.

Lemma write_file_inv fs p content fs' :
  Fs.write_file fs p content = Ok fs' ->
  p <> "" /\ Fs.components fs p <> []
  /\ Fs.lookup fs (Fs.components fs p) <> Some Fs.Dir
  /\ fs' = {| Fs.cwd := Fs.cwd fs;
              Fs.nodes := (Fs.components fs p, Fs.File content) :: Fs.nodes fs |}.
Proof.
  unfold Fs.write_file. destruct p as [|c p]; [discriminate |].
  destruct (Fs.names_directory _); [discriminate |].
  destruct (Fs.components fs (String c p)) as [|x k] eqn:Ek; [discriminate |].
  destruct (Fs.lookup fs (removelast (x :: k))) as [[|?]|]; try discriminate.
  destruct (Fs.lookup fs (x :: k)) as [[|c0]|] eqn:El; try discriminate;
    intros H; injection H as <-; repeat split; discriminate.
Qed.

Lemma write_file_keeps fs p content fs' :
  Fs.write_file fs p content = Ok fs' -> keeps fs fs'.
Proof.
  intros H. apply write_file_inv in H as (_ & Hk & Hnd & ->).
  split; [reflexivity |]. intros k n Hn.
  destruct k as [|x k]; [exists n; split; [exact Hn | apply same_kind_refl] |].
  cbn [Fs.lookup Fs.nodes Fs.lookup_nodes] in *.
  destruct (list_eq_dec string_dec (x :: k) (Fs.components fs p)) as [E|_].
  - rewrite <- E in Hnd. cbn [Fs.lookup] in Hnd.
    exists (Fs.File content). split; [reflexivity |].
    destruct n; [now elim Hnd | reflexivity].
  - exists n. split; [exact Hn | apply same_kind_refl].
Qed.

(** What is written can be read. *)
Lemma write_file_read fs p content fs' :
  Fs.write_file fs p content = Ok fs' -> Fs.read_file fs' p = Some content.
Proof.
  intros H. apply write_file_inv in H as (Hp & Hk & _ & ->).
  unfold Fs.read_file, Fs.stat. destruct p as [|c p]; [now elim Hp |].
  change (Fs.components {| Fs.cwd := Fs.cwd fs; Fs.nodes := _ |} (String c p))
    with (Fs.components fs (String c p)).
  destruct (Fs.components fs (String c p)) as [|x k]; [now elim Hk |].
  cbn [Fs.lookup Fs.nodes Fs.lookup_nodes].
  destruct (list_eq_dec string_dec (x :: k) (x :: k)) as [_|n]; [reflexivity | now elim n].
Qed.

(** [ensure_directory_for_file], when it returns, on a path whose
    directory part is a literal one.  If [path] has no directory part,
    or something exists there already (a directory or not), nothing
    changes.  Otherwise the directory part is a directory afterwards.
    In both cases the working directory and every existing entry are as
    before. *)
Theorem ensure_directory_for_file_makes_the_parent :
  forall (fs fs' : Fs.t) (path : string),
    literal (OsPath.dirname path) = true ->
    ensure_directory_for_file fs path = Ok fs' ->
    (OsPath.dirname path = "" \/ Fs.exists_ fs (OsPath.dirname path) = true -> fs' = fs)
    /\ (OsPath.dirname path <> "" -> Fs.exists_ fs (OsPath.dirname path) = false ->
        Fs.stat fs' (OsPath.dirname path) = Some Fs.Dir)
    /\ Fs.cwd fs' = Fs.cwd fs
    /\ (forall k n, Fs.lookup fs k = Some n -> Fs.lookup fs' k = Some n).
Proof.
  intros fs fs' path _. unfold ensure_directory_for_file.
  set (directory := OsPath.dirname path).
  destruct (OsPath.non_empty directory) eqn:Hne; cbn [andb].
  - destruct (Fs.exists_ fs directory) eqn:Hex; cbn [negb].
    + intros E. injection E as <-. repeat split; auto. intros _ H. discriminate H.
    + intros E. apply makedirs_inv in E as (Hd & Hcwd & Hmk).
      apply mkdirs_spec in Hmk as (Hkeep & _ & Hmade).
      split; [intros [H | H]; [now elim Hd | discriminate H] |].
      split; [| split; [exact Hcwd |]].
      * intros _ _. unfold Fs.stat, Fs.exists_, Fs.stat in *.
        destruct directory as [|c d]; [now elim Hd |].
        unfold Fs.components in *. rewrite Hcwd.
        set (todo := filter OsPath.non_empty _) in *.
        destruct todo as [|x todo]; [cbn in Hex; discriminate Hex |].
        cbn [Fs.lookup]. apply Hmade. discriminate.
      * intros [|x k] n Hn; [exact Hn |]. cbn [Fs.lookup] in *. now apply Hkeep.
  - intros E. injection E as <-. repeat split; auto.
    intros H. destruct directory; [now elim H | discriminate Hne].
Qed.

Lemma ensure_directory_for_file_makes_the_parent_witness :
  exists fs',
    literal (OsPath.dirname "out/example.com/a/b.png") = true
    /\ ensure_directory_for_file Scenario.empty_disk "out/example.com/a/b.png" = Ok fs'
    /\ Fs.stat fs' (OsPath.dirname "out/example.com/a/b.png") = Some Fs.Dir
    /\ Fs.cwd fs' = Fs.cwd Scenario.empty_disk.
Proof.
  eexists. split; [reflexivity |]. split; [vm_compute; reflexivity |].
  destruct (ensure_directory_for_file_makes_the_parent Scenario.empty_disk _
              "out/example.com/a/b.png" eq_refl eq_refl) as (_ & H & Hc & _).
  split; [apply H; [discriminate | reflexivity] | exact Hc].
Defined.

Lemma enqueue_fs links : forall s, fs (fold_left enqueue links s) = fs s.
Proof.
  induction links as [|l links IH]; intros s; [reflexivity |].
  cbn [fold_left]. rewrite IH. unfold enqueue.
  now destruct (negb (mem l (visited s)) && is_in_snapshot l).
Qed.

Lemma write_keeps s p content s' e : write s p content = (s', e) -> keeps (fs s) (fs s').
Proof.
  unfold write. destruct (Fs.write_file (fs s) p content) as [fs'|e'] eqn:E;
    intros H; injection H as <- <-; cbn [fs emit].
  - now apply write_file_keeps in E.
  - apply keeps_refl.
Qed.

Section Disk.

Variable bracketed_host_ok : string -> bool.
Variable iter_order : list string -> list string.
Variable session : session_t.
Variable out_dir : string.

Local Notation "'handle'" := (process bracketed_host_ok iter_order out_dir).
Local Notation "'turn'" := (iteration bracketed_host_ok iter_order session out_dir).
Local Notation "'leads'" := (reaches bracketed_host_ok iter_order session out_dir).

Lemma process_keeps current content content_type s s' e :
  handle current content content_type s = (s', e) -> keeps (fs s) (fs s').
Proof.
  unfold process.
  destruct (guess_local_path _ _ _ _) as [local_path|e1];
    [| intros E; injection E as <- <-; apply keeps_refl].
  destruct (ensure_directory_for_file _ _) as [fs1|e1] eqn:Ed;
    [| intros E; injection E as <- <-; apply keeps_refl].
  apply ensure_directory_keeps in Ed.
  destruct (is_html content_type).
  - destruct (build_replacements _ _ _ _ _ _) as [replacements|e1].
    + intros E. apply write_keeps in E. rewrite enqueue_fs in E. cbn [fs] in E.
      exact (keeps_trans _ _ _ Ed E).
    + intros E. injection E as <- <-. now rewrite enqueue_fs.
  - intros E. apply write_keeps in E. cbn [fs] in E. exact (keeps_trans _ _ _ Ed E).
Qed.

Lemma iteration_keeps current s s' e : turn current s = (s', e) -> keeps (fs s) (fs s').
Proof.
  unfold iteration. cbn [fs visited q log].
  destruct (mem current (visited s)); [intros E; injection E as <- <-; apply keeps_refl |].
  destruct (fetch current session) as [[content|] content_type].
  - intros E. now apply process_keeps in E.
  - intros E. injection E as <- <-. apply keeps_refl.
Qed.

Lemma reaches_keeps s s' : leads s s' -> keeps (fs s) (fs s').
Proof.
  induction 1 as [s | s s1 s2 current _ Ht _ IH | s s1 current e _ Ht].
  - apply keeps_refl.
  - apply iteration_keeps in Ht. exact (keeps_trans _ _ _ Ht IH).
  - now apply iteration_keeps in Ht.
Qed.

Lemma read_file_kept a b p c :
  keeps a b -> Fs.read_file a p = Some c -> exists c', Fs.read_file b p = Some c'.
Proof.
  intros [Hcwd K]. unfold Fs.read_file, Fs.stat, Fs.components. rewrite Hcwd.
  destruct p as [|x p]; [discriminate |].
  destruct (Fs.lookup a _) as [[|c0]|] eqn:El; try discriminate. intros _.
  destruct (K _ _ El) as (n' & -> & Hs). destruct n'; [discriminate |]. now eexists.
Qed.

Lemma enqueue_wrote links p :
  forall s, In (Wrote p) (log (fold_left enqueue links s)) -> In (Wrote p) (log s).
Proof.
  induction links as [|l links IH]; intros s H; [exact H |].
  cbn [fold_left] in H. apply IH in H. unfold enqueue in H.
  destruct (negb (mem l (visited s)) && is_in_snapshot l); [| exact H].
  cbn [log] in H. destruct H as [H|H]; [discriminate | exact H].
Qed.

Lemma write_written s p content s' e :
  write s p content = (s', e) -> written_files_exist s -> written_files_exist s'.
Proof.
  unfold write. destruct (Fs.write_file (fs s) p content) as [fs'|e'] eqn:E;
    intros H; injection H as <- <-; [| auto].
  intros W p' Hin. cbn [fs emit log] in *.
  destruct Hin as [Hin|[Hin|Hin]]; [discriminate | |].
  - injection Hin as <-. exists content. now apply write_file_read in E.
  - destruct (W p' Hin) as [c Hc]. apply write_file_keeps in E.
    exact (read_file_kept _ _ _ _ E Hc).
Qed.

Lemma process_written current content content_type s s' e :
  handle current content content_type s = (s', e) ->
  written_files_exist s -> written_files_exist s'.
Proof.
  unfold process.
  destruct (guess_local_path _ _ _ _) as [local_path|e1];
    [| intros E; injection E as <- <-; auto].
  destruct (ensure_directory_for_file _ _) as [fs1|e1] eqn:Ed;
    [| intros E; injection E as <- <-; auto].
  apply ensure_directory_keeps in Ed. intros E W.
  assert (W1 : forall links,
             written_files_exist
               (fold_left enqueue links
                  {| fs := fs1; visited := visited s; q := q s; log := log s |})).
  { intros links p Hin. apply enqueue_wrote in Hin. cbn [log] in Hin.
    rewrite enqueue_fs. cbn [fs]. destruct (W p Hin) as [c Hc].
    exact (read_file_kept _ _ _ _ Ed Hc). }
  destruct (is_html content_type).
  - destruct (build_replacements _ _ _ _ _ _) as [replacements|e1].
    + exact (write_written _ _ _ _ _ E (W1 _)).
    + injection E as <- <-. apply W1.
  - exact (write_written _ _ _ _ _ E (W1 [])).
Qed.

Lemma iteration_written current s s' e :
  turn current s = (s', e) -> written_files_exist s -> written_files_exist s'.
Proof.
  unfold iteration. cbn [fs visited q log].
  assert (G : forall ev, quiet ev = false -> written_files_exist s ->
                         written_files_exist
                           {| fs := fs s; visited := visited s; q := tl (q s);
                              log := ev :: log s |}).
  { intros ev Hq W p [Hin|Hin]; [subst ev; discriminate | exact (W p Hin)]. }
  destruct (mem current (visited s)).
  - intros E W. injection E as <- <-. now apply G.
  - assert (W2 : written_files_exist s ->
                 written_files_exist
                   {| fs := fs s; visited := current :: visited s; q := tl (q s);
                      log := Fetch current :: Visit current :: Get current :: log s |}).
    { intros W p [Hin|[Hin|[Hin|Hin]]]; try discriminate. exact (W p Hin). }
    destruct (fetch current session) as [[content|] content_type].
    + intros E W. exact (process_written _ _ _ _ _ _ E (W2 W)).
    + intros E W. injection E as <- <-. exact (W2 W).
Qed.

Lemma reaches_written s s' : leads s s' -> written_files_exist s -> written_files_exist s'.
Proof.
  induction 1 as [s | s s1 s2 current _ Ht _ IH | s s1 current e _ Ht]; intros W.
  - exact W.
  - apply IH. exact (iteration_written _ _ _ _ Ht W).
  - exact (iteration_written _ _ _ _ Ht W).
Qed.

End Disk.

(** What [crawl] does to the disk, however it ends.  The working
    directory is the same; whatever existed before still exists and is
    of the same kind (a directory stays a directory, a file a file,
    though its content may be overwritten); and every path the log
    reports as written holds a regular file at the end. *)
Theorem crawl_keeps_what_is_on_disk :
  forall (bracketed_host_ok : string -> bool) (iter_order : list string -> list string)
         (session : session_t) (fuel : nat) (start out_dir : string) (fs0 : Fs.t)
         (o : outcome) (final : state),
    crawl bracketed_host_ok iter_order session fuel start out_dir fs0 = Some (o, final) ->
    Fs.cwd (fs final) = Fs.cwd fs0
    /\ (forall k n, Fs.lookup fs0 k = Some n ->
                    exists n', Fs.lookup (fs final) k = Some n' /\ same_kind n n' = true)
    /\ (forall p, In (Wrote p) (log final) ->
                  exists c, Fs.read_file (fs final) p = Some c).
Proof.
  intros bho iter_order session fuel start out_dir fs0 o final. unfold crawl.
  destruct (if Fs.exists_ fs0 out_dir then Ok fs0 else Fs.makedirs fs0 out_dir)
    as [fs1|e] eqn:E1.
  - assert (K1 : keeps fs0 fs1).
    { destruct (Fs.exists_ fs0 out_dir).
      - injection E1 as <-. apply keeps_refl.
      - now apply makedirs_keeps in E1. }
    destruct (negb (is_in_snapshot (normalized start))).
    + intros E. injection E as <- <-. cbn [fs emit start_state log].
      destruct K1 as [Hc K]. repeat split; [exact Hc | exact K |].
      intros p [H|[]]. discriminate.
    + intros E. apply drain_reaches in E.
      pose proof (reaches_keeps _ _ _ _ _ _ E) as K2. cbn [fs seeded] in K2.
      destruct (keeps_trans _ _ _ K1 K2) as [Hc K]. repeat split; [exact Hc | exact K |].
      apply (reaches_written _ _ _ _ _ _ E).
      intros p [H|[]]. discriminate.
  - intros E. injection E as <- <-. cbn [fs start_state log].
    repeat split.
    + intros k n H. exists n. split; [exact H | apply same_kind_refl].
    + intros p [].
Qed.

Lemma crawl_keeps_what_is_on_disk_witness :
  exists o final,
    crawl any_host Scenario.insertion_order Scenario.asset_site 8
      Scenario.seed "out" Scenario.empty_disk = Some (o, final)
    /\ Fs.cwd (fs final) = Fs.cwd Scenario.empty_disk
    /\ (forall k n, Fs.lookup Scenario.empty_disk k = Some n ->
                    exists n', Fs.lookup (fs final) k = Some n' /\ same_kind n n' = true)
    /\ (forall p, In (Wrote p) (log final) ->
                  exists c, Fs.read_file (fs final) p = Some c).
Proof.
  eexists. eexists. split; [vm_compute; reflexivity |].
  eapply (crawl_keeps_what_is_on_disk any_host Scenario.insertion_order Scenario.asset_site 8
            Scenario.seed "out" Scenario.empty_disk).
  vm_compute. reflexivity.
Defined.

(** What a turn of the loop that fetches a resource and ends without
    exception has saved, for an ASCII address.  [guess_local_path] gives
    a path for the origin of the address and the content type of the
    response; when that path is a literal one, the write to it and the
    pause are the last two events, and the file there reads back as the
    bytes fetched, when the response is not HTML, and, when it is HTML
    and ASCII, as the decoded text with the replacement map of its links
    applied. *)
Theorem fetched_resource_is_saved :
  forall (bracketed_host_ok : string -> bool) (iter_order : list string -> list string)
         (session : session_t) (out_dir current content : string)
         (content_type : option string) (s s' : state),
    all_chars Py.isascii current = true ->
    mem current (visited s) = false ->
    fetch current session = (Some content, content_type) ->
    iteration bracketed_host_ok iter_order session out_dir current s = (s', None) ->
    exists local_path,
      guess_local_path bracketed_host_ok out_dir (origin_of current) content_type
      = Ok local_path
      /\ (literal local_path = true ->
          (exists earlier, log s' = Sleep :: Wrote local_path :: earlier)
          /\ (is_html content_type = false ->
              Fs.read_file (fs s') local_path = Some content)
          /\ (is_html content_type = true ->
              all_chars Py.isascii content = true ->
              exists replacements,
                build_replacements bracketed_host_ok (Fs.cwd (fs s)) out_dir
                  (match OsPath.dirname local_path with
                   | EmptyString => "."
                   | d => d
                   end)
                  (iter_order (find_links_to_follow (Utf8.decode_ignore content))) []
                = Ok replacements
                /\ Fs.read_file (fs s') local_path
                   = Some (Utf8.encode (rewrite (Utf8.decode_ignore content) replacements)))).
Proof.
  intros bho iter_order session out_dir current content content_type s s' _ Hmem Hf.
  unfold iteration. cbn [fs visited q log]. rewrite Hmem, Hf.
  unfold process.
  destruct (guess_local_path _ _ _ _) as [local_path|e1]; [| discriminate].
  destruct (ensure_directory_for_file _ _) as [fs1|e1] eqn:Ed; [| discriminate].
  apply ensure_directory_keeps in Ed. destruct Ed as [Hcwd _].
  cbn [fs visited q log] in *. intros H.
  exists local_path. split; [reflexivity |]. intros _.
  destruct (is_html content_type).
  - rewrite enqueue_fs in H. cbn [fs] in H. rewrite Hcwd in H.
    destruct (build_replacements _ _ _ _ _ _) as [replacements|e1]; [| discriminate].
    unfold write in H. rewrite enqueue_fs in H. cbn [fs] in H.
    destruct (Fs.write_file _ _ _) as [fs2|e2] eqn:Ew; [| discriminate].
    injection H as <-. cbn [fs emit log].
    split; [eexists; reflexivity |]. split; [discriminate |].
    intros _ _. exists replacements. split; [reflexivity |].
    now apply write_file_read in Ew.
  - unfold write in H. cbn [fs] in H.
    destruct (Fs.write_file _ _ _) as [fs2|e2] eqn:Ew; [| discriminate].
    injection H as <-. cbn [fs emit log].
    split; [eexists; reflexivity |]. split; [| discriminate].
    intros _. now apply write_file_read in Ew.
Qed.

Lemma fetched_resource_is_saved_witness :
  exists s',
    all_chars Py.isascii Scenario.asset = true
    /\ iteration any_host Scenario.insertion_order Scenario.asset_site "out" Scenario.asset
         (seeded Scenario.empty_disk Scenario.asset) = (s', None)
    /\ literal "out/example.com/a" = true
    /\ Fs.read_file (fs s') "out/example.com/a" = Some "PNG".
Proof.
  destruct (iteration any_host Scenario.insertion_order Scenario.asset_site "out"
              Scenario.asset (seeded Scenario.empty_disk Scenario.asset))
    as [s' [e|]] eqn:E; [vm_compute in E; discriminate E |].
  exists s'. split; [reflexivity |]. split; [reflexivity |]. split; [reflexivity |].
  assert (Ha : all_chars Py.isascii Scenario.asset = true) by reflexivity.
  assert (Hm : mem Scenario.asset (visited (seeded Scenario.empty_disk Scenario.asset)) = false)
    by reflexivity.
  assert (Hf : fetch Scenario.asset Scenario.asset_site = (Some "PNG", Some "image/png"))
    by (vm_compute; reflexivity).
  destruct (fetched_resource_is_saved any_host Scenario.insertion_order Scenario.asset_site
              "out" Scenario.asset "PNG" (Some "image/png")
              (seeded Scenario.empty_disk Scenario.asset) s' Ha Hm Hf E)
    as (local_path & Hp & Hlit).
  assert (Hl : guess_local_path any_host "out" (origin_of Scenario.asset) (Some "image/png")
               = Ok "out/example.com/a") by (vm_compute; reflexivity).
  rewrite Hl in Hp. injection Hp as <-.
  destruct (Hlit eq_refl) as (_ & Hread & _). apply Hread. vm_compute. reflexivity.
Defined.

(** ** The mirror and what was fetched *)

Lemma wrote_among_puts p added l :
  In (Wrote p) (map Put added ++ l) -> In (Wrote p) l.
Proof.
  intros H. apply in_app_or in H as [H | H]; [| exact H].
  apply in_map_iff in H as (u & Hu & _). discriminate Hu.
Qed.

Section Mirror.

Variable bracketed_host_ok : string -> bool.
Variable iter_order : list string -> list string.
Variable session : session_t.
Variable out_dir : string.

Local Notation "'handle'" := (process bracketed_host_ok iter_order out_dir).
Local Notation "'turn'" := (iteration bracketed_host_ok iter_order session out_dir).

(** The log after the handling of a resource: the links put, and the
    write and the pause when no exception was raised. *)
Lemma process_log current content content_type s s' e :
  handle current content content_type s = (s', e) ->
  exists added,
    (e = None
     /\ exists p,
          guess_local_path bracketed_host_ok out_dir (origin_of current) content_type = Ok p
          /\ log s' = (Sleep :: Wrote p :: map Put added ++ log s)%list)
    \/ ((exists x, e = Some x) /\ log s' = (map Put added ++ log s)%list).
Proof.
  unfold process.
  destruct (guess_local_path _ _ _ _) as [local_path|e1].
  2: { intros E. injection E as <- <-. exists []. right. split; [now eexists | reflexivity]. }
  destruct (ensure_directory_for_file _ _) as [fs1|e1].
  2: { intros E. injection E as <- <-. exists []. right. split; [now eexists | reflexivity]. }
  destruct (is_html content_type).
  - rewrite enqueue_fold. cbn [fs visited q log].
    set (added := rev (admitted _ _)).
    destruct (build_replacements _ _ _ _ _ _) as [replacements|e1].
    + unfold write. cbn [fs visited q log].
      destruct (Fs.write_file _ _ _) as [fs2|e2]; intros E; injection E as <- <-;
        cbn [fs visited q log emit]; exists added.
      * left. split; [reflexivity |]. now exists local_path.
      * right. split; [now eexists | reflexivity].
    + intros E. injection E as <- <-. cbn [log]. exists added.
      right. split; [now eexists | reflexivity].
  - unfold write. cbn [fs visited q log].
    destruct (Fs.write_file _ _ _) as [fs2|e2]; intros E; injection E as <- <-;
      cbn [fs visited q log emit]; exists [].
    + left. split; [reflexivity |]. now exists local_path.
    + right. split; [now eexists | reflexivity].
Qed.

Lemma fetches_puts added l : fetches (map Put added ++ l) = fetches l.
Proof. induction added as [|u added IH]; [reflexivity | exact IH]. Qed.

Lemma iteration_writes_of_fetches current s s' e :
  turn current s = (s', e) ->
  writes_are_of_fetches bracketed_host_ok session out_dir s ->
  writes_are_of_fetches bracketed_host_ok session out_dir s'.
Proof.
  unfold iteration. cbn [fs visited q log].
  destruct (mem current (visited s)).
  { intros E W p Hp. injection E as <- <-. cbn [log] in *.
    destruct Hp as [Hp | Hp]; [discriminate Hp |]. exact (W p Hp). }
  assert (Old : forall p added,
            In (Wrote p)
              (map Put added ++ Fetch current :: Visit current :: Get current :: log s) ->
            writes_are_of_fetches bracketed_host_ok session out_dir s ->
            exists u content content_type,
              In u (current :: fetches (log s))
              /\ fetch u session = (Some content, content_type)
              /\ guess_local_path bracketed_host_ok out_dir (origin_of u) content_type = Ok p).
  { intros p added Hp W. apply wrote_among_puts in Hp.
    destruct Hp as [Hp | [Hp | [Hp | Hp]]]; try discriminate Hp.
    destruct (W p Hp) as (u & c & ct & Hu & Hf & Hg).
    exists u, c, ct. split; [now right | auto]. }
  destruct (fetch current session) as [[content|] content_type] eqn:Hf.
  - intros E W p Hp.
    apply process_log in E as (added & [(_ & lp & Hg & Hl) | (_ & Hl)]);
      cbn [log] in Hl; rewrite Hl in *; cbn [fetches]; rewrite fetches_puts; cbn [fetches].
    + destruct Hp as [Hp | [Hp | Hp]]; [discriminate Hp | |].
      * injection Hp as <-. exists current, content, content_type.
        split; [now left | auto].
      * exact (Old p added Hp W).
    + exact (Old p added Hp W).
  - intros E W p Hp. injection E as <- <-. cbn [log fetches] in *.
    exact (Old p [] Hp W).
Qed.

Lemma iteration_fetches_written current s s' :
  turn current s = (s', None) ->
  fetches_are_written bracketed_host_ok session out_dir s ->
  fetches_are_written bracketed_host_ok session out_dir s'.
Proof.
  unfold iteration. cbn [fs visited q log].
  destruct (mem current (visited s)).
  { intros E W u c ct Hu Hf. injection E as <-. cbn [log fetches] in *.
    destruct (W u c ct Hu Hf) as (p & Hg & Hp). exists p. split; [exact Hg | now right]. }
  destruct (fetch current session) as [[content|] content_type] eqn:Hf.
  - intros E W u c ct Hu Hfu.
    apply process_log in E as (added & [(_ & lp & Hg & Hl) | ([x Hx] & _)]);
      [| discriminate Hx].
    cbn [log] in Hl. rewrite Hl in *. cbn [fetches] in Hu. rewrite fetches_puts in Hu.
    cbn [fetches] in Hu. destruct Hu as [<- | Hu].
    + rewrite Hf in Hfu. injection Hfu as <- <-. exists lp. split; [exact Hg |].
      right. now left.
    + destruct (W u c ct Hu Hfu) as (p & Hgp & Hp). exists p. split; [exact Hgp |].
      right. right. apply in_or_app. right. right. right. now right.
  - intros E W u c ct Hu Hfu. injection E as <-. cbn [log fetches] in *.
    destruct Hu as [<- | Hu]; [rewrite Hf in Hfu; discriminate Hfu |].
    destruct (W u c ct Hu Hfu) as (p & Hgp & Hp). exists p. split; [exact Hgp |].
    right. right. now right.
Qed.

Lemma drain_mirror fuel : forall s o s',
  drain bracketed_host_ok iter_order session fuel out_dir s = Some (o, s') ->
  writes_are_of_fetches bracketed_host_ok session out_dir s ->
  writes_are_of_fetches bracketed_host_ok session out_dir s'
  /\ (o = Finished ->
      fetches_are_written bracketed_host_ok session out_dir s ->
      fetches_are_written bracketed_host_ok session out_dir s').
Proof.
  induction fuel as [|fuel IH]; intros s o s' E W; cbn [drain] in E.
  - destruct (q s); [| discriminate E]. injection E as <- <-. auto.
  - destruct (q s) as [|current rest]; [injection E as <- <-; auto |].
    destruct (turn current s) as [s1 [e|]] eqn:Et.
    + injection E as <- <-. split; [exact (iteration_writes_of_fetches _ _ _ _ Et W) |].
      discriminate.
    + destruct (IH _ _ _ E (iteration_writes_of_fetches _ _ _ _ Et W)) as [H1 H2].
      split; [exact H1 |]. intros Ho F. apply (H2 Ho).
      exact (iteration_fetches_written _ _ _ Et F).
Qed.

End Mirror.

(** The mirror and the fetches.  However [crawl] ends, every file it
    has written is the file of a fetched resource: it is at the path the
    mapper gives for the origin of a fetched address and the content
    type of its response.  And when [crawl] returns, every fetched
    address that gave a resource has a regular file at that path (the
    content is that of the last resource written there). *)
Theorem mirror_holds_what_was_served :
  forall (bracketed_host_ok : string -> bool) (iter_order : list string -> list string)
         (session : session_t) (fuel : nat) (start out_dir : string) (fs0 : Fs.t)
         (o : outcome) (final : state),
    crawl bracketed_host_ok iter_order session fuel start out_dir fs0 = Some (o, final) ->
    (forall p, In (Wrote p) (log final) ->
       exists u content content_type,
         In u (fetches (log final))
         /\ fetch u session = (Some content, content_type)
         /\ guess_local_path bracketed_host_ok out_dir (origin_of u) content_type = Ok p)
    /\ (o = Finished ->
        forall u content content_type,
          In u (fetches (log final)) ->
          fetch u session = (Some content, content_type) ->
          exists p c,
            guess_local_path bracketed_host_ok out_dir (origin_of u) content_type = Ok p
            /\ Fs.read_file (fs final) p = Some c).
Proof.
  intros bho iter_order session fuel start out_dir fs0 o final. unfold crawl.
  destruct (if Fs.exists_ fs0 out_dir then Ok fs0 else Fs.makedirs fs0 out_dir)
    as [fs1|e].
  - destruct (negb (is_in_snapshot (normalized start))).
    + intros E. injection E as <- <-. cbn [fs emit start_state log fetches].
      split; [| discriminate]. intros p [H | []]. discriminate H.
    + intros E.
      assert (W0 : writes_are_of_fetches bho session out_dir (seeded fs1 (normalized start)))
        by (intros p [H | []]; discriminate H).
      assert (F0 : fetches_are_written bho session out_dir (seeded fs1 (normalized start)))
        by (intros u c ct []).
      destruct (drain_mirror _ _ _ _ _ _ _ _ E W0) as [H1 H2].
      split; [exact H1 |]. intros Ho u c ct Hu Hf.
      destruct (H2 Ho F0 u c ct Hu Hf) as (p & Hg & Hp).
      apply drain_reaches in E.
      assert (Wf : written_files_exist (seeded fs1 (normalized start)))
        by (intros p' [H | []]; discriminate H).
      destruct (reaches_written _ _ _ _ _ _ E Wf p Hp) as [c' Hc'].
      now exists p, c'.
  - intros E. injection E as <- <-. cbn [fs start_state log fetches].
    split; [intros p [] | discriminate].
Qed.

Lemma mirror_holds_what_was_served_witness :
  exists final,
    crawl any_host Scenario.insertion_order Scenario.site 4
      Scenario.seed "outputDir" Scenario.empty_disk = Some (Finished, final)
    /\ fetches (log final) = [Scenario.about; Scenario.seed]
    /\ forall u content content_type,
         In u (fetches (log final)) ->
         fetch u Scenario.site = (Some content, content_type) ->
         exists p c,
           guess_local_path any_host "outputDir" (origin_of u) content_type = Ok p
           /\ Fs.read_file (fs final) p = Some c.
Proof.
  destruct (crawl any_host Scenario.insertion_order Scenario.site 4
              Scenario.seed "outputDir" Scenario.empty_disk) as [[o final]|] eqn:E;
    [| vm_compute in E; discriminate E].
  assert (Ho : o = Finished) by (vm_compute in E; injection E as <- _; reflexivity).
  subst o. exists final. split; [reflexivity |].
  split; [vm_compute in E; injection E as <-; reflexivity |].
  destruct (mirror_holds_what_was_served any_host Scenario.insertion_order Scenario.site 4
              Scenario.seed "outputDir" Scenario.empty_disk Finished final E) as [_ H].
  exact (H eq_refl).
Defined.

(** ** The pauses *)

Lemma paced_puts added l : paced l -> paced (map Put added ++ l).
Proof. induction added as [|u added IH]; intros H; [exact H | exact (IH H)]. Qed.

Lemma paced_write p l : paced l -> paced (Sleep :: Wrote p :: l).
Proof. intros [H1 H2]. split; [exact H1 |]. cbn [count_sleeps count_writes]. now rewrite H2. Qed.

Section Pace.

Variable bracketed_host_ok : string -> bool.
Variable iter_order : list string -> list string.
Variable session : session_t.
Variable out_dir : string.

Local Notation "'turn'" := (iteration bracketed_host_ok iter_order session out_dir).
Local Notation "'leads'" := (reaches bracketed_host_ok iter_order session out_dir).

Lemma iteration_paced current s s' e :
  turn current s = (s', e) -> paced (log s) -> paced (log s').
Proof.
  unfold iteration. cbn [fs visited q log].
  assert (Hstep : forall l, paced l -> paced (Fetch current :: Visit current :: Get current :: l))
    by (intros l H; exact H).
  destruct (mem current (visited s)); [intros E H; injection E as <- <-; exact H |].
  destruct (fetch current session) as [[content|] content_type].
  - intros E H.
    apply process_log in E as (added & [(_ & p & _ & Hl) | (_ & Hl)]);
      cbn [log] in Hl; rewrite Hl.
    + apply paced_write. apply paced_puts. now apply Hstep.
    + apply paced_puts. now apply Hstep.
  - intros E H. injection E as <- <-. now apply Hstep.
Qed.

Lemma reaches_paced s s' : leads s s' -> paced (log s) -> paced (log s').
Proof.
  induction 1 as [s | s s1 s2 current _ Ht _ IH | s s1 current e _ Ht]; intros H.
  - exact H.
  - apply IH. exact (iteration_paced _ _ _ _ Ht H).
  - exact (iteration_paced _ _ _ _ Ht H).
Qed.

End Pace.

(** The pauses of [crawl].  However it ends, every pause in its log
    comes right after the write of a file and every write is followed
    at once by a pause: the loop pauses once for each resource saved,
    and not after an address that was already visited or whose fetch
    failed. *)
Theorem crawl_pauses_after_each_write_only :
  forall (bracketed_host_ok : string -> bool) (iter_order : list string -> list string)
         (session : session_t) (fuel : nat) (start out_dir : string) (fs0 : Fs.t)
         (o : outcome) (final : state),
    crawl bracketed_host_ok iter_order session fuel start out_dir fs0 = Some (o, final) ->
    pauses_follow_writes (log final) = true
    /\ count_sleeps (log final) = count_writes (log final).
Proof.
  intros bho iter_order session fuel start out_dir fs0 o final. unfold crawl.
  destruct (if Fs.exists_ fs0 out_dir then Ok fs0 else Fs.makedirs fs0 out_dir)
    as [fs1|e].
  - destruct (negb (is_in_snapshot (normalized start))).
    + intros E. injection E as <- <-. split; reflexivity.
    + intros E. apply drain_reaches in E.
      apply (reaches_paced _ _ _ _ _ _ E). split; reflexivity.
  - intros E. injection E as <- <-. split; reflexivity.
Qed.

Lemma crawl_pauses_after_each_write_only_witness :
  exists final,
    crawl any_host Scenario.insertion_order Scenario.site 4
      Scenario.seed "outputDir" Scenario.empty_disk = Some (Finished, final)
    /\ count_writes (log final) = 2
    /\ pauses_follow_writes (log final) = true
    /\ count_sleeps (log final) = count_writes (log final).
Proof.
  destruct (crawl any_host Scenario.insertion_order Scenario.site 4
              Scenario.seed "outputDir" Scenario.empty_disk) as [[o final]|] eqn:E;
    [| vm_compute in E; discriminate E].
  assert (Ho : o = Finished) by (vm_compute in E; injection E as <- _; reflexivity).
  subst o. exists final. split; [reflexivity |].
  split; [vm_compute in E; injection E as <-; reflexivity |].
  exact (crawl_pauses_after_each_write_only any_host Scenario.insertion_order Scenario.site 4
           Scenario.seed "outputDir" Scenario.empty_disk Finished final E).
Defined.

(** ** Where a rewritten link leads *)

Lemma split_acc_spec c s : forall cur,
  Py.split_acc c s cur
  = (Py.rev_string cur "" ++ hd "" (Py.split c s)) :: tl (Py.split c s).
Proof.
  unfold Py.split. induction s as [|d s IH]; intros cur; cbn [Py.split_acc].
  - cbn [hd tl Py.rev_string]. now rewrite append_nil_r.
  - destruct (Ascii.eqb d c).
    + cbn [hd tl Py.rev_string]. now rewrite append_nil_r.
    + rewrite (IH (String d cur)), (IH (String d "")). cbn [hd tl Py.rev_string].
      rewrite (rev_string_acc cur (String d "")), append_assoc. reflexivity.
Qed.

Lemma split_nil c : Py.split c "" = [""].
Proof. reflexivity. Qed.

Lemma split_cons c d s :
  Py.split c (String d s)
  = if Ascii.eqb d c then "" :: Py.split c s
    else String d (hd "" (Py.split c s)) :: tl (Py.split c s).
Proof.
  unfold Py.split at 1. cbn [Py.split_acc]. destruct (Ascii.eqb d c); [reflexivity |].
  now rewrite split_acc_spec.
Qed.

Lemma split_not_nil c s : Py.split c s <> [].
Proof.
  destruct s as [|d s]; [discriminate |]. rewrite split_cons.
  destruct (Ascii.eqb d c); discriminate.
Qed.

(** Splitting a text without separator, followed by more. *)
Lemma split_plain_app c a b :
  Py.mem_char c a = false ->
  Py.split c (a ++ b) = (a ++ hd "" (Py.split c b)) :: tl (Py.split c b).
Proof.
  induction a as [|d a IH]; intros H; cbn [append].
  - destruct (Py.split c b) eqn:E; [now apply split_not_nil in E | reflexivity].
  - cbn [Py.mem_char] in H. apply orb_false_elim in H as [Hd Ha].
    rewrite split_cons, (Ascii.eqb_sym d c), Hd, (IH Ha). reflexivity.
Qed.

Lemma split_app_sep c a b :
  Py.split c (a ++ String c b) = (Py.split c a ++ Py.split c b)%list.
Proof.
  induction a as [|d a IH]; cbn [append].
  - rewrite split_cons, Ascii.eqb_refl. reflexivity.
  - rewrite !split_cons, IH. destruct (Ascii.eqb d c); [reflexivity |].
    destruct (Py.split c a) eqn:E; [now apply split_not_nil in E | reflexivity].
Qed.

Lemma split_plain c a : Py.mem_char c a = false -> Py.split c a = [a].
Proof.
  intros H. rewrite <- (append_nil_r a) at 1. rewrite (split_plain_app c a "" H).
  cbn [hd tl Py.split Py.split_acc Py.rev_string]. now rewrite append_nil_r.
Qed.

Lemma split_free c s : Forall (fun x => Py.mem_char c x = false) (Py.split c s).
Proof.
  induction s as [|d s IH]; [repeat constructor |].
  rewrite split_cons. destruct (Ascii.eqb d c) eqn:E.
  - constructor; [reflexivity | exact IH].
  - destruct (Py.split c s) as [|x l]; [constructor; [| constructor] |].
    + cbn [hd Py.mem_char]. now rewrite (Ascii.eqb_sym c d), E.
    + inversion IH as [|? ? Hx Hl]; subst. constructor; [| exact Hl].
      cbn [hd Py.mem_char]. now rewrite (Ascii.eqb_sym c d), E, Hx.
Qed.

Lemma split_join l :
  l <> [] -> Forall (fun x => Py.mem_char "/" x = false) l ->
  Py.split "/" (Py.join "/" l) = l.
Proof.
  induction l as [|x l IH]; intros Hne H; [now elim Hne |].
  inversion H as [|? ? Hx Hl]; subst.
  destruct l as [|y l]; [now apply split_plain |].
  change (Py.join "/" (x :: y :: l)) with (x ++ String "/" (Py.join "/" (y :: l))).
  rewrite split_app_sep, (split_plain "/" x Hx), IH by (discriminate || assumption).
  reflexivity.
Qed.

Lemma norm_step_abs k acc comp :
  k <> 0 -> OsPath.norm_step k acc comp = OsPath.norm_step 1 acc comp.
Proof.
  intros Hk. unfold OsPath.norm_step. destruct k as [|k]; [now elim Hk | reflexivity].
Qed.

Lemma fold_norm_step_abs k l : forall acc,
  k <> 0 ->
  fold_left (OsPath.norm_step k) l acc = fold_left (OsPath.norm_step 1) l acc.
Proof.
  induction l as [|x l IH]; intros acc Hk; [reflexivity |].
  cbn [fold_left]. now rewrite (norm_step_abs k acc x Hk), IH.
Qed.

Lemma plain_last acc :
  Forall plain acc ->
  match rev acc with
  | last :: _ => String.eqb last ".."
  | [] => false
  end = false.
Proof.
  intros H. destruct (rev acc) as [|last l] eqn:E; [reflexivity |].
  assert (Hin : In last acc) by (apply in_rev; rewrite E; now left).
  rewrite Forall_forall in H. destruct (H last Hin) as (_ & _ & Hdd & _).
  now apply String.eqb_neq.
Qed.

Lemma Forall_removelast {A} (P : A -> Prop) l : Forall P l -> Forall P (removelast l).
Proof.
  induction 1 as [|x l Hx Hl IH]; [constructor |].
  cbn [removelast]. destruct l; [constructor | now constructor].
Qed.

Lemma norm_step_plain acc comp :
  Forall plain acc -> Py.mem_char "/" comp = false ->
  Forall plain (OsPath.norm_step 1 acc comp).
Proof.
  intros Hacc Hc. unfold OsPath.norm_step.
  destruct (String.eqb_spec comp "") as [-> | H1]; [exact Hacc |].
  destruct (String.eqb_spec comp ".") as [-> | H2]; [exact Hacc |]. cbn [orb].
  destruct (String.eqb_spec comp "..") as [-> | H3]; cbn [negb orb andb Nat.eqb].
  - rewrite (plain_last acc Hacc). now apply Forall_removelast.
  - apply Forall_app. split; [exact Hacc |]. constructor; [| constructor]. now repeat split.
Qed.

Lemma fold_norm_step_plain l : forall acc,
  Forall plain acc -> Forall (fun x => Py.mem_char "/" x = false) l ->
  Forall plain (fold_left (OsPath.norm_step 1) l acc).
Proof.
  induction l as [|x l IH]; intros acc Hacc Hl; [exact Hacc |].
  inversion Hl as [|? ? Hx Hl']; subst. cbn [fold_left].
  apply IH; [now apply norm_step_plain | exact Hl'].
Qed.

Lemma resolved_plain p : Forall plain (resolved p).
Proof. apply fold_norm_step_plain; [constructor | apply split_free]. Qed.

Lemma filter_plain l : Forall plain l -> filter OsPath.non_empty l = l.
Proof.
  induction 1 as [|x l Hx Hl IH]; [reflexivity |].
  cbn [filter]. destruct Hx as (Hne & _). destruct x; [now elim Hne |].
  cbn [OsPath.non_empty]. now rewrite IH.
Qed.

Lemma components_join l :
  Forall plain l -> filter OsPath.non_empty (Py.split "/" (Py.join "/" l)) = l.
Proof.
  intros H. destruct l as [|x l]; [reflexivity |].
  rewrite split_join; [now apply filter_plain | discriminate |].
  apply (Forall_impl _ (fun a (Ha : plain a) => proj2 (proj2 (proj2 Ha))) H).
Qed.

Lemma normpath_abs p :
  OsPath.isabs p = true ->
  filter OsPath.non_empty (Py.split "/" (OsPath.normpath p)) = resolved p.
Proof.
  intros Habs. unfold OsPath.normpath, OsPath.isabs in *.
  destruct p as [|c p]; [discriminate Habs |].
  rewrite Habs.
  set (k := if Py.startswith (String c p) "//" && negb (Py.startswith (String c p) "///")
            then 2 else 1).
  assert (Hk : k <> 0) by (subst k; destruct (_ && _); discriminate).
  change OsPath.sep with "/"%char.
  rewrite (fold_norm_step_abs k _ [] Hk). fold (resolved (String c p)).
  pose proof (resolved_plain (String c p)) as Hpl.
  set (C := resolved (String c p)) in *.
  assert (Hone : filter OsPath.non_empty (Py.split "/" (String "/" (Py.join "/" C))) = C).
  { rewrite split_cons, Ascii.eqb_refl. cbn [filter OsPath.non_empty].
    now apply components_join. }
  assert (Htwo : filter OsPath.non_empty
                   (Py.split "/" (String "/" (String "/" (Py.join "/" C)))) = C).
  { rewrite split_cons, Ascii.eqb_refl. cbn [filter OsPath.non_empty]. exact Hone. }
  subst k. destruct (_ && _); cbn [Py.take append]; assumption.
Qed.

Lemma abspath_anchored cwd x : OsPath.abspath cwd x = OsPath.normpath (anchored cwd x).
Proof. unfold OsPath.abspath, anchored. now destruct (OsPath.isabs x). Qed.

Lemma last_char_app a b : b <> "" -> Py.last_char (a ++ b) = Py.last_char b.
Proof.
  intros Hb. induction a as [|c a IH]; [reflexivity |].
  cbn [append]. destruct (a ++ b) as [|d t] eqn:E.
  - destruct a; [cbn in E; now elim Hb | discriminate E].
  - cbn [Py.last_char]. exact IH.
Qed.

Lemma endswith_app a b c : b <> "" -> Py.endswith_char (a ++ b) c = Py.endswith_char b c.
Proof. intros Hb. unfold Py.endswith_char. now rewrite last_char_app. Qed.

Lemma endswith_inv X c : Py.endswith_char X c = true -> exists X0, X = X0 ++ String c "".
Proof.
  unfold Py.endswith_char. induction X as [|d X IH]; [discriminate |].
  destruct X as [|e X].
  - cbn [Py.last_char]. intros H. apply Ascii.eqb_eq in H as ->. now exists "".
  - intros H. destruct (IH H) as [X0 E]. exists (String d X0). cbn [append]. now rewrite <- E.
Qed.

Lemma startswith_app a b : a <> "" -> Py.startswith (a ++ b) "/" = Py.startswith a "/".
Proof.
  intros Ha. destruct a as [|c a]; [now elim Ha |].
  unfold Py.startswith. cbn [append String.prefix].
  destruct (ascii_dec "/" c); [| reflexivity]. now rewrite !prefix_nil.
Qed.

Lemma endswith_no_slash s : Py.mem_char "/" s = false -> Py.endswith_char s "/" = false.
Proof.
  intros H. destruct (Py.endswith_char s "/") eqn:E; [| reflexivity].
  apply endswith_inv in E as [s0 ->]. exfalso. clear -H.
  induction s0 as [|c s0 IH]; cbn [append Py.mem_char] in H; [discriminate H |].
  apply orb_false_elim in H as [_ H]. now apply IH.
Qed.

Lemma join2_rel X b :
  X <> "" -> Py.startswith b "/" = false -> OsPath.join2 X b = X ++ joint X ++ b.
Proof.
  intros HX Hb. unfold OsPath.join2, joint. rewrite Hb.
  destruct X; [now elim HX |]. now destruct (Py.endswith_char _ _).
Qed.

Lemma joint_app a b : b <> "" -> joint (a ++ b) = joint b.
Proof. intros Hb. unfold joint. now rewrite endswith_app. Qed.

Lemma joint_joint X : X <> "" -> joint (X ++ joint X) = "".
Proof.
  intros HX. unfold joint at 2. destruct (Py.endswith_char X "/") eqn:E.
  - rewrite append_nil_r. unfold joint. now rewrite E.
  - now rewrite joint_app by discriminate.
Qed.

Lemma anchored_abs cwd x : OsPath.isabs cwd = true -> OsPath.isabs (anchored cwd x) = true.
Proof.
  intros Hc. unfold anchored. destruct (OsPath.isabs x) eqn:Hx; [exact Hx |].
  unfold OsPath.join. cbn [fold_left]. unfold OsPath.isabs in *.
  assert (Hne : cwd <> "") by (intros ->; discriminate Hc).
  rewrite (join2_rel cwd x Hne Hx). now rewrite startswith_app.
Qed.

Lemma components_resolved fs x :
  OsPath.isabs (Fs.cwd fs) = true -> Fs.components fs x = resolved (anchored (Fs.cwd fs) x).
Proof.
  intros Hc. unfold Fs.components. rewrite abspath_anchored.
  apply normpath_abs. now apply anchored_abs.
Qed.

Lemma resolved_join2 X rel :
  X <> "" -> Py.startswith rel "/" = false ->
  resolved (OsPath.join2 X rel)
  = fold_left (OsPath.norm_step 1) (Py.split "/" rel) (resolved X).
Proof.
  intros HX Hr. rewrite (join2_rel X rel HX Hr). unfold resolved, joint.
  destruct (Py.endswith_char X "/") eqn:E.
  - apply endswith_inv in E as [X0 ->].
    rewrite append_assoc. cbn [append]. rewrite !split_app_sep, !fold_left_app.
    reflexivity.
  - cbn [append]. now rewrite split_app_sep, fold_left_app.
Qed.

Lemma anchored_join2 cwd start rel :
  OsPath.isabs cwd = true -> Py.startswith rel "/" = false ->
  anchored cwd (OsPath.join2 start rel) = OsPath.join2 (anchored cwd start) rel.
Proof.
  intros Hc Hr. assert (Hne : cwd <> "") by (intros ->; discriminate Hc).
  unfold anchored, OsPath.join, OsPath.isabs in *. cbn [fold_left].
  destruct start as [|c start].
  - replace (OsPath.join2 "" rel) with rel by (unfold OsPath.join2; now rewrite Hr).
    rewrite Hr. change (Py.startswith "" "/") with false. cbn iota.
    rewrite (join2_rel cwd "" Hne eq_refl), append_nil_r.
    rewrite (join2_rel cwd rel Hne Hr).
    rewrite join2_rel; [| now destruct cwd | exact Hr].
    rewrite (joint_joint cwd Hne). cbn [append]. now rewrite append_assoc.
  - set (st := String c start) in *.
    assert (Hs : st <> "") by discriminate.
    rewrite (join2_rel st rel Hs Hr), (startswith_app st _ Hs).
    destruct (Py.startswith st "/") eqn:Ea.
    + now rewrite (join2_rel st rel Hs Hr).
    + rewrite (join2_rel cwd st Hne Ea).
      rewrite (join2_rel cwd); [| exact Hne | now rewrite (startswith_app st _ Hs)].
      rewrite join2_rel; [| now destruct cwd | exact Hr].
      rewrite (joint_app cwd (joint cwd ++ st)) by (unfold joint; now destruct (Py.endswith_char cwd "/")).
      rewrite (joint_app (joint cwd) st Hs).
      now rewrite !append_assoc.
Qed.

Lemma plain_part x : plain x -> part x.
Proof. intros (H1 & H2 & _ & H4). now repeat split. Qed.

Lemma part_updir : part "..".
Proof. repeat split; discriminate. Qed.

(** Joining names and [..] puts one separator between them. *)
Lemma join_parts p : forall acc,
  acc <> "" -> Py.endswith_char acc "/" = false -> Forall part p ->
  fold_left OsPath.join2 p acc
  = match p with
    | [] => acc
    | _ => acc ++ "/" ++ Py.join "/" p
    end.
Proof.
  induction p as [|b p IH]; intros acc Ha He Hp; [reflexivity |].
  inversion Hp as [|? ? (Hb1 & _ & Hb3) Hp']; subst. cbn [fold_left].
  rewrite (join2_rel acc b Ha (startswith_no_slash b Hb3)).
  unfold joint. rewrite He.
  rewrite IH; [| now destruct acc | | exact Hp'].
  - destruct p as [|b' p]; [reflexivity |].
    change (Py.join "/" (b :: b' :: p)) with (b ++ "/" ++ Py.join "/" (b' :: p)).
    now rewrite !append_assoc.
  - rewrite !endswith_app; [now apply endswith_no_slash | exact Hb1 |].
    destruct b; [now elim Hb1 | discriminate].
Qed.

Lemma join_is_join a p :
  Forall part (a :: p) -> OsPath.join a p = Py.join "/" (a :: p).
Proof.
  intros H. inversion H as [|? ? (Ha1 & _ & Ha3) Hp]; subst.
  unfold OsPath.join. rewrite join_parts; [| exact Ha1 | now apply endswith_no_slash | exact Hp].
  now destruct p.
Qed.

Lemma norm_step_updir acc :
  Forall plain acc -> OsPath.norm_step 1 acc ".." = removelast acc.
Proof.
  intros H. unfold OsPath.norm_step. cbn [String.eqb orb negb andb Nat.eqb].
  change (String.eqb ".." "") with false. change (String.eqb ".." ".") with false.
  change (String.eqb ".." "..") with true. cbn [orb negb].
  now rewrite (plain_last acc H).
Qed.

Lemma norm_step_name acc x : plain x -> OsPath.norm_step 1 acc x = (acc ++ [x])%list.
Proof.
  intros (H1 & H2 & H3 & _). unfold OsPath.norm_step.
  apply String.eqb_neq in H1, H2, H3. now rewrite H1, H2, H3.
Qed.

Lemma fold_names T : forall acc,
  Forall plain T -> fold_left (OsPath.norm_step 1) T acc = (acc ++ T)%list.
Proof.
  induction T as [|x T IH]; intros acc H; [now rewrite app_nil_r |].
  inversion H as [|? ? Hx HT]; subst. cbn [fold_left].
  rewrite (norm_step_name acc x Hx), (IH _ HT), <- app_assoc. reflexivity.
Qed.

Lemma removelast_length {A} (l : list A) : length (removelast l) = length l - 1.
Proof. rewrite removelast_firstn_len, length_firstn. lia. Qed.

Lemma Forall_skipn_of {A} (P : A -> Prop) n : forall l, Forall P l -> Forall P (skipn n l).
Proof.
  induction n as [|n IH]; intros l H; [exact H |].
  destruct H as [|x l Hx Hl]; [constructor | now apply IH].
Qed.

Lemma fold_updirs n : forall S,
  Forall plain S -> n <= length S ->
  fold_left (OsPath.norm_step 1) (repeat ".." n) S = firstn (length S - n) S.
Proof.
  induction n as [|n IH]; intros S HS Hn; cbn [repeat fold_left].
  - now rewrite Nat.sub_0_r, firstn_all.
  - rewrite (norm_step_updir S HS).
    rewrite IH; [| now apply Forall_removelast | rewrite removelast_length; lia].
    rewrite removelast_length, firstn_removelast by lia.
    f_equal. lia.
Qed.

Lemma common_len_spec l1 : forall l2,
  OsPath.common_len l1 l2 <= length l1
  /\ firstn (OsPath.common_len l1 l2) l1 = firstn (OsPath.common_len l1 l2) l2.
Proof.
  induction l1 as [|x l1 IH]; intros [|y l2]; cbn [OsPath.common_len length firstn];
    try (split; [lia | reflexivity]).
  destruct (String.eqb_spec x y) as [-> | _]; [| split; [lia | reflexivity]].
  destruct (IH l2) as [H1 H2]. cbn [firstn]. split; [lia | now rewrite H2].
Qed.

(** Walking the relative path from the start leads to the path. *)
Lemma walk_back S P :
  Forall plain S -> Forall plain P ->
  fold_left (OsPath.norm_step 1)
    (repeat ".." (length S - OsPath.common_len S P) ++ skipn (OsPath.common_len S P) P) S
  = P.
Proof.
  intros HS HP. destruct (common_len_spec S P) as [Hi Hf].
  set (i := OsPath.common_len S P) in *.
  rewrite fold_left_app, fold_updirs by (assumption || lia).
  rewrite fold_names by (now apply Forall_skipn_of).
  replace (length S - (length S - i)) with i by lia.
  rewrite Hf. apply firstn_skipn.
Qed.

(** The relative path computed for a link leads to its target.  With
    an absolute working directory, whenever [os.path.relpath] gives
    [rel] for the target's local path and the document's directory, the
    path [rel] joined to that directory resolves (as [os.path.abspath]
    resolves it) to the same place as the target's local path; and so
    does the value put in the replacement map, when [rel] holds no
    backslash for [replace] to turn into a slash. *)
Theorem rewritten_link_leads_to_its_target :
  forall (fs : Fs.t) (target current_dir rel : string),
    OsPath.isabs (Fs.cwd fs) = true ->
    OsPath.relpath (Fs.cwd fs) target current_dir = Ok rel ->
    Fs.components fs (OsPath.join current_dir [rel]) = Fs.components fs target
    /\ (Py.contains rel backslash = false ->
        Fs.components fs (OsPath.join current_dir [Py.replace backslash "/" rel])
        = Fs.components fs target).
Proof.
  intros fs target start rel Hc H.
  assert (Hmain : Fs.components fs (OsPath.join start [rel]) = Fs.components fs target).
  2: { split; [exact Hmain |]. intros Hb.
       rewrite replace_absent; [exact Hmain | discriminate | exact Hb]. }
  unfold OsPath.relpath in H. destruct target as [|c target]; [discriminate H |].
  set (path := String c target) in *.
  fold (Fs.components fs start) in H. fold (Fs.components fs path) in H.
  rewrite (components_resolved fs start Hc), (components_resolved fs path Hc) in H.
  rewrite (components_resolved fs path Hc).
  set (S := resolved (anchored (Fs.cwd fs) start)) in *.
  set (P := resolved (anchored (Fs.cwd fs) path)) in *.
  assert (HS : Forall plain S) by apply resolved_plain.
  assert (HP : Forall plain P) by apply resolved_plain.
  pose proof (walk_back S P HS HP) as Hwalk.
  set (rel_list := (repeat ".." (length S - OsPath.common_len S P)
                    ++ skipn (OsPath.common_len S P) P)%list) in *.
  assert (Hparts : Forall part rel_list).
  { apply Forall_app. split.
    - apply Forall_forall. intros x Hx. apply repeat_spec in Hx as ->. apply part_updir.
    - apply Forall_skipn_of. exact (Forall_impl _ plain_part HP). }
  assert (Hrel : Py.startswith rel "/" = false
                 /\ fold_left (OsPath.norm_step 1) (Py.split "/" rel) S = P).
  { destruct rel_list as [|a p] eqn:E.
    - injection H as <-. split; [reflexivity |]. exact Hwalk.
    - injection H as <-. rewrite (join_is_join a p Hparts).
      inversion Hparts as [|? ? (Ha1 & _ & Ha3) Hp]; subst.
      split.
      + destruct p as [|b p]; [now apply startswith_no_slash |].
        change (Py.join "/" (a :: b :: p)) with (a ++ "/" ++ Py.join "/" (b :: p)).
        rewrite startswith_app by exact Ha1. now apply startswith_no_slash.
      + rewrite split_join; [exact Hwalk | discriminate |].
        exact (Forall_impl _ (fun x (Hx : part x) => proj2 (proj2 Hx)) Hparts). }
  destruct Hrel as [Hnotabs Hfold].
  rewrite (components_resolved fs _ Hc). unfold OsPath.join. cbn [fold_left].
  rewrite (anchored_join2 _ start rel Hc Hnotabs).
  rewrite resolved_join2; [exact Hfold | | exact Hnotabs].
  pose proof (anchored_abs (Fs.cwd fs) start Hc) as Ha.
  intros E. rewrite E in Ha. discriminate Ha.
Qed.

Lemma rewritten_link_leads_to_its_target_witness :
  OsPath.relpath "/" "out/example.com/about/index.html" "out/example.com"
  = Ok "about/index.html"
  /\ Fs.components Scenario.empty_disk
       (OsPath.join "out/example.com" ["about/index.html"])
     = Fs.components Scenario.empty_disk "out/example.com/about/index.html".
Proof.
  assert (H : OsPath.relpath "/" "out/example.com/about/index.html" "out/example.com"
              = Ok "about/index.html") by (vm_compute; reflexivity).
  split; [exact H |].
  exact (proj1 (rewritten_link_leads_to_its_target Scenario.empty_disk
                  "out/example.com/about/index.html" "out/example.com" "about/index.html"
                  eq_refl H)).
Defined.

(** ** The extension rule of the local path mapper (C1) *)

Lemma rindex_from_absent c s : forall i last,
  Py.mem_char c s = false -> Py.rindex_from c s i last = last.
Proof.
  induction s as [|d s IH]; intros i last H; [reflexivity |].
  cbn [Py.mem_char Py.rindex_from] in *. apply orb_false_elim in H as [Hd Hs].
  rewrite (Ascii.eqb_sym d c), Hd. now apply IH.
Qed.

Lemma take_app_le k : forall a b, k <= String.length a -> Py.take k (a ++ b) = Py.take k a.
Proof.
  induction k as [|k IH]; intros a b H; [reflexivity |].
  destruct a as [|c a]; [cbn in H; lia |].
  cbn [append Py.take]. rewrite IH; [reflexivity | cbn in H; lia].
Qed.

Lemma all_dots_take k : forall s, OsPath.all_dots s = true -> OsPath.all_dots (Py.take k s) = true.
Proof.
  induction k as [|k IH]; intros [|c s] H; try reflexivity.
  cbn [Py.take OsPath.all_dots] in *. apply andb_prop in H as [Hc Hs].
  now rewrite Hc, IH.
Qed.

(** The last separator of [dir ++ name] is the one that ends [dir]. *)
Lemma rfind_sep_dir dir name :
  dir = "" \/ Py.endswith_char dir "/" = true ->
  Py.mem_char "/" name = false ->
  (Py.rfind "/" (dir ++ name) + 1 = Z.of_nat (String.length dir))%Z.
Proof.
  intros Hdir Hname. unfold Py.rfind.
  rewrite rindex_from_app, (rindex_from_absent "/" name _ _ Hname).
  destruct Hdir as [-> | He]; [reflexivity |].
  apply endswith_inv in He as [d0 ->].
  rewrite rindex_from_app, length_append. cbn [Py.rindex_from Ascii.eqb Bool.eqb String.length].
  lia.
Qed.

Lemma splitext_extensionless dir name :
  dir = "" \/ Py.endswith_char dir "/" = true ->
  Py.mem_char "/" name = false ->
  extensionless name ->
  snd (OsPath.splitext (dir ++ name)) = "".
Proof.
  intros Hdir Hname (dots & stem & -> & Hdots & Hstem).
  pose proof (rfind_sep_dir dir (dots ++ stem) Hdir Hname) as Hsep.
  unfold OsPath.splitext. change OsPath.sep with "/"%char.
  set (p := dir ++ dots ++ stem) in *.
  set (sepIndex := Py.rfind "/" p) in *.
  set (dotIndex := Py.rfind "." p).
  assert (Hdot : (dotIndex < Z.of_nat (String.length dir + String.length dots))%Z).
  { subst dotIndex p. unfold Py.rfind.
    rewrite !rindex_from_app, (rindex_from_absent "." stem _ _ Hstem).
    destruct (rindex_from_range "." dir 0 (-1)) as [E | E];
      destruct (rindex_from_range "." dots (0 + Z.of_nat (String.length dir))
                  (Py.rindex_from "." dir 0 (-1))) as [E' | E']; lia. }
  destruct (Z.ltb_spec sepIndex dotIndex) as [Hlt | _]; [| reflexivity].
  assert (Hall : OsPath.all_dots (Py.slice p (sepIndex + 1) dotIndex) = true).
  { unfold Py.slice.
    assert (Hb1 : Py.bound p (sepIndex + 1) = String.length dir).
    { unfold Py.bound. rewrite Hsep. destruct (Z.ltb_spec (Z.of_nat (String.length dir)) 0); lia. }
    assert (Hb2 : Py.bound p dotIndex = Z.to_nat dotIndex).
    { unfold Py.bound. destruct (Z.ltb_spec dotIndex 0); lia. }
    rewrite Hb1, Hb2. subst p. rewrite drop_append.
    rewrite take_app_le by lia. now apply all_dots_take. }
  now rewrite Hall.
Qed.

Lemma splitext_with_extension dir name :
  dir = "" \/ Py.endswith_char dir "/" = true ->
  Py.mem_char "/" name = false ->
  with_extension name ->
  snd (OsPath.splitext (dir ++ name)) <> "".
Proof.
  intros Hdir Hname (pre & suf & -> & Hpre & Hsuf).
  pose proof (rfind_sep_dir dir (pre ++ "." ++ suf) Hdir Hname) as Hsep.
  unfold OsPath.splitext. change OsPath.sep with "/"%char.
  set (p := dir ++ pre ++ "." ++ suf) in *.
  set (sepIndex := Py.rfind "/" p) in *.
  assert (Hdot : Py.rfind "." p = Z.of_nat (String.length dir + String.length pre)).
  { subst p. unfold Py.rfind. rewrite !rindex_from_app.
    cbn [append Py.rindex_from Ascii.eqb Bool.eqb].
    rewrite (rindex_from_absent "." suf _ _ Hsuf). lia. }
  rewrite Hdot.
  assert (Hlt : (sepIndex <? Z.of_nat (String.length dir + String.length pre))%Z = true)
    by (apply Z.ltb_lt; lia).
  rewrite Hlt.
  assert (Hb1 : Py.bound p (sepIndex + 1) = String.length dir).
  { unfold Py.bound. rewrite Hsep. destruct (Z.ltb_spec (Z.of_nat (String.length dir)) 0); lia. }
  assert (Hb2 : Py.bound p (Z.of_nat (String.length dir + String.length pre))
                = String.length dir + String.length pre).
  { unfold Py.bound.
    destruct (Z.ltb_spec (Z.of_nat (String.length dir + String.length pre)) 0); lia. }
  assert (Hname' : Py.slice p (sepIndex + 1) (Z.of_nat (String.length dir + String.length pre))
                   = pre).
  { unfold Py.slice. rewrite Hb1, Hb2. subst p. rewrite drop_append.
    replace (String.length dir + String.length pre - String.length dir)
      with (String.length pre) by lia.
    apply take_append. }
  rewrite Hname', Hpre. cbn [snd]. unfold Py.slice_from. rewrite Hb2.
  subst p. rewrite <- append_assoc, <- length_append, drop_append. discriminate.
Qed.

Lemma last_dot s :
  Py.mem_char "." s = false
  \/ exists pre suf, s = pre ++ "." ++ suf /\ Py.mem_char "." suf = false.
Proof.
  induction s as [|c s [IH | (pre & suf & -> & Hsuf)]].
  - now left.
  - destruct (Ascii.eqb_spec "." c) as [<- | Hc].
    + right. exists "", s. split; [reflexivity | exact IH].
    + left. cbn [Py.mem_char]. rewrite IH, orb_false_r. now apply Ascii.eqb_neq.
  - right. exists (String c pre), suf. split; [reflexivity | exact Hsuf].
Qed.

Lemma all_dots_app a b :
  OsPath.all_dots a = true -> OsPath.all_dots b = true -> OsPath.all_dots (a ++ b) = true.
Proof.
  induction a as [|c a IH]; intros Ha Hb; [exact Hb |].
  cbn [append OsPath.all_dots] in *. apply andb_prop in Ha as [Hc Ha].
  now rewrite Hc, IH.
Qed.

(** Every name is of one of the two kinds. *)
Lemma extension_cases name : extensionless name \/ with_extension name.
Proof.
  destruct (last_dot name) as [H | (pre & suf & -> & Hsuf)].
  - left. exists "", name. repeat split. exact H.
  - destruct (OsPath.all_dots pre) eqn:Hpre.
    + left. exists (pre ++ "."), suf. split; [now rewrite append_assoc |].
      split; [now apply all_dots_app | exact Hsuf].
    + right. now exists pre, suf.
Qed.

(** C1 (amended).  The mapper reads its content-type argument only
    through the test [is_html]: two content types that agree on it give
    the same result.  And the test decides one thing only.  For an ASCII
    address that [urlparse] accepts: a path that is empty or ends in a
    separator is mapped under the name [index.html], whatever the
    content type; a path whose last segment is without extension (each
    of its dots is a leading one) gets the suffix [.html] exactly when
    the content type indicates HTML; a path whose last segment has an
    extension is mapped as it is, whatever the content type.  Every
    segment is of one of the two kinds. *)
Theorem guess_local_path_content_type :
  forall (bracketed_host_ok : string -> bool) (root_dir original_url : string),
    (forall ct1 ct2 : option string,
       is_html ct1 = is_html ct2 ->
       guess_local_path bracketed_host_ok root_dir original_url ct1
       = guess_local_path bracketed_host_ok root_dir original_url ct2)
    /\ (all_chars Py.isascii original_url = true ->
        forall parsed : UrlParse.ParseResult,
          UrlParse.urlparse bracketed_host_ok original_url = Ok parsed ->
          (UrlParse.path parsed = ""
           \/ Py.endswith_char (UrlParse.path parsed) "/" = true ->
           forall content_type,
             guess_local_path bracketed_host_ok root_dir original_url content_type
             = Ok (OsPath.join root_dir
                     [UrlParse.netloc parsed;
                      Py.lstrip "/"
                        (match UrlParse.path parsed with
                         | EmptyString => "/"
                         | _ => UrlParse.path parsed
                         end ++ "index.html")]))
          /\ (forall dir name : string,
                UrlParse.path parsed = dir ++ name ->
                dir = "" \/ Py.endswith_char dir "/" = true ->
                name <> "" ->
                Py.mem_char "/" name = false ->
                (extensionless name ->
                 forall content_type,
                   guess_local_path bracketed_host_ok root_dir original_url content_type
                   = Ok (OsPath.join root_dir
                           [UrlParse.netloc parsed;
                            Py.lstrip "/"
                              (if is_html content_type
                               then UrlParse.path parsed ++ ".html"
                               else UrlParse.path parsed)]))
                /\ (with_extension name ->
                    forall content_type,
                      guess_local_path bracketed_host_ok root_dir original_url content_type
                      = Ok (OsPath.join root_dir
                              [UrlParse.netloc parsed;
                               Py.lstrip "/" (UrlParse.path parsed)]))))
    /\ (forall name : string, extensionless name \/ with_extension name).
Proof.
  intros bho root_dir original_url. split; [| split; [| exact extension_cases]].
  { intros ct1 ct2 H. unfold guess_local_path.
    destruct (UrlParse.urlparse bho original_url) as [parsed|e]; simpl; [| reflexivity].
    now rewrite H. }
  intros _ parsed Hp. unfold guess_local_path. rewrite Hp. cbn [bind].
  set (path := UrlParse.path parsed). split.
  - intros Hdir content_type.
    assert (Hc : negb (OsPath.non_empty path) || Py.endswith_char path "/" = true).
    { destruct Hdir as [-> | ->]; [reflexivity | apply orb_true_r]. }
    rewrite Hc, splitext_index. reflexivity || (cbn [snd OsPath.non_empty negb]; reflexivity).
  - intros dir name Hpath Hdir Hne Hname.
    assert (Hc : negb (OsPath.non_empty path) || Py.endswith_char path "/" = false).
    { rewrite Hpath, (endswith_app dir name "/" Hne), (endswith_no_slash name Hname).
      destruct dir; destruct name; try reflexivity; now elim Hne. }
    rewrite Hc. split.
    + intros Hext content_type.
      rewrite Hpath at 1. rewrite (splitext_extensionless dir name Hdir Hname Hext).
      cbn [OsPath.non_empty negb]. now destruct (is_html content_type).
    + intros Hext content_type.
      pose proof (splitext_with_extension dir name Hdir Hname Hext) as Hx.
      rewrite <- Hpath in Hx. destruct (snd (OsPath.splitext path)); [now elim Hx |].
      reflexivity.
Qed.

Lemma guess_local_path_content_type_witness :
  is_html (Some "text/html") = is_html (Some "text/html; charset=utf-8")
  /\ guess_local_path any_host "out" "https://example.com/about" (Some "text/html")
     = guess_local_path any_host "out" "https://example.com/about"
         (Some "text/html; charset=utf-8")
  /\ guess_local_path any_host "out" "https://example.com/a.b/c" (Some "text/html")
     = Ok "out/example.com/a.b/c.html"
  /\ guess_local_path any_host "out" "https://example.com/a.b/c" (Some "image/png")
     = Ok "out/example.com/a.b/c"
  /\ guess_local_path any_host "out" "https://example.com/a/b.png" (Some "text/html")
     = Ok "out/example.com/a/b.png".
Proof.
  split; [reflexivity |].
  split.
  { apply (proj1 (guess_local_path_content_type any_host "out" "https://example.com/about")).
    reflexivity. }
  assert (Hc : UrlParse.urlparse any_host "https://example.com/a.b/c"
               = Ok {| UrlParse.scheme := "https"; UrlParse.netloc := "example.com";
                       UrlParse.path := "/a.b/c"; UrlParse.params := "";
                       UrlParse.query := ""; UrlParse.fragment := "" |})
    by (vm_compute; reflexivity).
  assert (Hb : UrlParse.urlparse any_host "https://example.com/a/b.png"
               = Ok {| UrlParse.scheme := "https"; UrlParse.netloc := "example.com";
                       UrlParse.path := "/a/b.png"; UrlParse.params := "";
                       UrlParse.query := ""; UrlParse.fragment := "" |})
    by (vm_compute; reflexivity).
  destruct (proj2 (proj1 (proj2 (guess_local_path_content_type any_host "out"
                                   "https://example.com/a.b/c")) eq_refl _ Hc)
              "/a.b/" "c" eq_refl (or_intror eq_refl)) as [Hext _];
    [discriminate | reflexivity |].
  destruct (proj2 (proj1 (proj2 (guess_local_path_content_type any_host "out"
                                   "https://example.com/a/b.png")) eq_refl _ Hb)
              "/a/" "b.png" eq_refl (or_intror eq_refl)) as [_ Hwith];
    [discriminate | reflexivity |].
  assert (He : extensionless "c") by (exists "", "c"; repeat split).
  assert (Hw : with_extension "b.png") by (exists "b", "png"; repeat split).
  split; [exact (Hext He (Some "text/html")) |].
  split; [exact (Hext He (Some "image/png")) | exact (Hwith Hw (Some "text/html"))].
Defined.

(** ** The local path of an address without a recoverable original (C6) *)








Lemma rfind_nonneg c s : (-1 <= Py.rfind c s)%Z.
Proof.
  unfold Py.rfind. destruct (rindex_from_range c s 0 (-1)) as [-> | H]; lia.
Qed.






